(** * Vector calculator: NOFS container, field migration, validator and mixer

    A shallow embedding of the data engine of the vector-calculator
    extension:

    - [src/mixer/math.ts]: the 32-float vector codec ([hexToVec32],
      [vec32ToHex]) and the mixer ([mixVectors], [applyBus],
      [setMagnitude]);
    - [src/nofs/binary.ts]: the NOFS container ([encryptJsonToNofs],
      [decryptNofsToJson]) and the legacy/modern field migration
      ([transformValueForEncrypt], [transformValueForDecrypt]);
    - [src/nofs/validate.ts]: the configuration validator
      ([validateNofsData]).

    JavaScript values are modelled as follows.  A [number] is an IEEE-754
    binary64 value (Rocq's primitive [float]); a string is a [string], read
    as ASCII text (the functions of case and of white space are those of
    the ASCII characters); a typed array or [Buffer] is a list indexed from
    0 (stdpp's [!!] and [<[i:=x]>], which like a typed array ignores a
    write out of range), a [Float32Array] of the codec being the list of
    the bit patterns of its elements; an object is the list of its own
    properties in [Object.keys] order; a [throw] is the [Throw] constructor
    of [result]. *)

From Stdlib Require Import ZArith List String Ascii Bool Lia Floats.
From stdpp Require Import base list gmap strings pretty.
Import ListNotations.

Local Open Scope Z_scope.

(** ** Exceptions *)

(** [throw new Error(msg)] ends a call with [Throw msg]. *)
Inductive result (A : Type) : Type :=
| Ok (a : A)
| Throw (msg : string).
Arguments Ok {A} a.
Arguments Throw {A} msg.

Definition rbind {A B : Type} (r : result A) (k : A -> result B) : result B :=
  match r with
  | Ok a => k a
  | Throw msg => Throw msg
  end.

Notation "x <-- r ;; k" := (rbind r (fun x => k))
  (at level 100, r at next level, right associativity).

(** ** Loops *)

(** [for (let i = from; i < from + count; i += 1) s = body(i, s)]. *)
Fixpoint for_loop {St : Type} (from count : nat) (body : nat -> St -> St) (s : St) : St :=
  match count with
  | O => s
  | S count' => for_loop (S from) count' body (body from s)
  end.

(** ** Strings *)

Definition chars (s : string) : list ascii := list_ascii_of_string s.
Definition str (l : list ascii) : string := string_of_list_ascii l.

(** [s.slice(a, b)] for [0 <= a <= b]. *)
Definition slice (s : string) (a b : nat) : string :=
  str (take (b - a) (drop a (chars s))).

Definition upper_char (c : ascii) : ascii :=
  let n := nat_of_ascii c in
  if ((97 <=? n) && (n <=? 122))%nat then ascii_of_nat (n - 32) else c.

Definition lower_char (c : ascii) : ascii :=
  let n := nat_of_ascii c in
  if ((65 <=? n) && (n <=? 90))%nat then ascii_of_nat (n + 32) else c.

(** [s.toUpperCase()] and [s.toLowerCase()] on ASCII text, where the
    letters [a] to [z] and [A] to [Z] change case and every other character
    stays.  JavaScript also maps letters outside ASCII, some of them to
    ASCII letters: a statement about the case of an arbitrary text assumes
    [is_ascii_text]. *)
Definition toUpperCase (s : string) : string := str (map upper_char (chars s)).
Definition toLowerCase (s : string) : string := str (map lower_char (chars s)).

(** The texts made of ASCII characters only. *)
Definition is_ascii_text (s : string) : bool :=
  forallb (fun c => (nat_of_ascii c <? 128)%nat) (chars s).

(** [s.padStart(n, "0")]. *)
Definition padStart0 (n : nat) (s : string) : string :=
  str (replicate (n - String.length s) "0"%char) +:+ s.

(** ** Hexadecimal text *)

(** The value of a hexadecimal digit, [None] for any other character. *)
Definition hex_value (c : ascii) : option Z :=
  let n := Z.of_nat (nat_of_ascii c) in
  if (48 <=? n) && (n <=? 57) then Some (n - 48)
  else if (97 <=? n) && (n <=? 102) then Some (n - 87)
  else if (65 <=? n) && (n <=? 70) then Some (n - 55)
  else None.

Definition is_hex_char (c : ascii) : bool :=
  match hex_value c with Some _ => true | None => false end.

(** [/^[0-9a-fA-F]{n}$/.test(s)]. *)
Definition hex_re_test (n : nat) (s : string) : bool :=
  (String.length s =? n)%nat && forallb is_hex_char (chars s).

Definition HEX_RE_256 : string -> bool := hex_re_test 256.

(** [Number.parseInt(s, 16)] on text that starts with a hexadecimal digit
    or is empty: the value of the longest prefix of digits, [None] (NaN)
    when there is none. *)
Fixpoint parseInt16_digits (acc : Z) (l : list ascii) : Z :=
  match l with
  | [] => acc
  | c :: l' =>
      match hex_value c with
      | Some d => parseInt16_digits (16 * acc + d) l'
      | None => acc
      end
  end.

Definition parseInt16 (s : string) : option Z :=
  match chars s with
  | [] => None
  | c :: _ => if is_hex_char c then Some (parseInt16_digits 0 (chars s)) else None
  end.

(** The lower-case digit [d.toString(16)] of [0 <= d < 16]. *)
Definition hex_digit (d : Z) : ascii :=
  if d <? 10 then ascii_of_nat (Z.to_nat (48 + d)) else ascii_of_nat (Z.to_nat (87 + d)).

(** [b.toString(16)] for an element [b] of a [Uint8Array]. *)
Definition byte_toString16 (b : Z) : string :=
  if b <? 16 then str [hex_digit b] else str [hex_digit (b / 16); hex_digit (b mod 16)].

(** ** Typed arrays *)

(** A [Uint8Array] or [Buffer]: bytes in [0, 256). *)
Abbreviation Uint8Array := (list Z) (only parsing).

(** A [Float32Array] at the bit level: every element is the IEEE-754
    binary32 bit pattern, in [0, 2^32), that the array stores. *)
Abbreviation Float32Bits := (list Z) (only parsing).

(** The conversion of a store into a [Uint8Array]: NaN becomes 0, an
    integer is reduced modulo 256. *)
Definition ToUint8 (v : option Z) : Z :=
  match v with
  | Some n => n mod 256
  | None => 0
  end.

Definition byte_at (bytes : Uint8Array) (i : nat) : Z := default 0 (bytes !! i).

(** [view.getUint32(off, true)] / [buf.readUInt32LE(off)]: four bytes, least
    significant first. *)
Definition readUInt32LE (bytes : Uint8Array) (off : nat) : Z :=
  byte_at bytes off + 256 * byte_at bytes (off + 1)
  + 65536 * byte_at bytes (off + 2) + 16777216 * byte_at bytes (off + 3).

(** The four bytes of a 32-bit word, least significant first. *)
Definition le_bytes (w : Z) : list Z :=
  [w mod 256; (w / 256) mod 256; (w / 65536) mod 256; (w / 16777216) mod 256].

(** [view.setUint32(off, w, true)] / [buf.writeUInt32LE(w, off)] within the
    buffer. *)
Definition writeUInt32LE (bytes : Uint8Array) (off : nat) (w : Z) : Uint8Array :=
  <[(off + 3)%nat := (w / 16777216) mod 256]>
    (<[(off + 2)%nat := (w / 65536) mod 256]>
      (<[(off + 1)%nat := (w / 256) mod 256]>
        (<[off := w mod 256]> bytes))).

(** [view.getFloat32(off, true)] and [view.setFloat32(off, x, true)] at the
    level of the bytes: the binary32 pattern of the number is read and
    written as a little-endian 32-bit word.  The number of a pattern is
    [float32_of_bits] below, the pattern of a number is [float32_bits],
    and the pattern of a number that was itself read from a binary32
    pattern is [through_Number] of that pattern. *)
Definition getFloat32LE (bytes : Uint8Array) (off : nat) : Z := readUInt32LE bytes off.
Definition setFloat32LE (bytes : Uint8Array) (off : nat) (w : Z) : Uint8Array :=
  writeUInt32LE bytes off w.

(** The patterns of the NaNs: all ones in the eight bits of the exponent
    and a fraction that is not zero.  A NaN is signalling when the first
    bit of its fraction (bit 22, the quiet bit) is clear. *)
Definition is_nan_bits (w : Z) : bool :=
  ((w / 0x800000) mod 256 =? 255) && negb (w mod 0x800000 =? 0).

Definition is_signalling_nan (w : Z) : bool :=
  is_nan_bits w && (w mod 0x800000 <? 0x400000).

(** A binary32 pattern that passes through a Number, as the element that
    [out[i] = view.getFloat32(...)] stores and the element [vec[i]] that
    [view.setFloat32] is given: the engine widens the value to binary64
    and narrows it again.  The two conversions give back every pattern but
    that of a signalling NaN, which they make quiet: bit 22 is set, the
    sign and the other bits of the payload are kept. *)
Definition through_Number (w : Z) : Z :=
  if is_signalling_nan w then w + 0x400000 else w.

(** ** VectorCodec ([src/mixer/math.ts]) *)

(** [bytesToHex]: two lower-case digits per byte, appended in order, the
    whole upper-cased at the end. *)
Definition bytesToHex (bytes : Uint8Array) : string :=
  let hex :=
    for_loop 0 (length bytes)
      (fun i hex => hex +:+ padStart0 2 (byte_toString16 (byte_at bytes i))) ""%string in
  toUpperCase hex.

(** The pattern of the quiet NaN that reading a missing element gives. *)
Definition nan_bits : Z := 0x7FC00000.

Definition vec32ToHex (vec : Float32Bits) : result string :=
  if negb (length vec =? 32)%nat then Throw "Expected 32 float values."
  else
    let bytes :=
      for_loop 0 32
        (fun i bytes =>
           setFloat32LE bytes (i * 4) (through_Number (default nan_bits (vec !! i))))
        (replicate 128 0) in
    Ok (bytesToHex bytes).

Definition hexToVec32 (hex : string) : result Float32Bits :=
  if negb (HEX_RE_256 hex) then Throw "Expected 256 hex characters."
  else
    let bytes :=
      for_loop 0 128
        (fun i bytes =>
           let offset := (i * 2)%nat in
           <[i := ToUint8 (parseInt16 (slice hex offset (offset + 2)))]> bytes)
        (replicate 128 0) in
    let out :=
      for_loop 0 32 (fun i out => <[i := through_Number (getFloat32LE bytes (i * 4))]> out)
        (replicate 32 0) in
    Ok out.

(** The first three components of the vector of the test
    "roundtrips hex encode/decode": 1.25, -2.5 and 3.75. *)
Example vec32ToHex_test_vector :
  vec32ToHex ([0x3FA00000; 0xC0200000; 0x40700000] ++ replicate 29 0)
  = Ok (str (chars "0000A03F000020C000007040" ++ replicate 232 "0"%char)).
Proof. vm_compute. reflexivity. Qed.

(** The signalling NaN [0x7F800001] is read as the quiet NaN
    [0x7FC00001], and written as one. *)
Example hexToVec32_signalling_nan :
  hexToVec32 (str (chars "0100807F" ++ replicate 248 "0"%char))
  = Ok (0x7FC00001 :: replicate 31 0)
  /\ vec32ToHex (0x7F800001 :: replicate 31 0)
     = Ok (str (chars "0100C07F" ++ replicate 248 "0"%char)).
Proof. split; vm_compute; reflexivity. Qed.

(** ** Facts about loops, strings and bytes *)

Lemma chars_str (l : list ascii) : chars (str l) = l.
Proof. apply list_ascii_of_string_of_list_ascii. Qed.

Lemma str_chars (s : string) : str (chars s) = s.
Proof. apply string_of_list_ascii_of_string. Qed.

Lemma chars_app (s t : string) : chars (s +:+ t) = chars s ++ chars t.
Proof. induction s as [|c s IH]; simpl; [reflexivity | f_equal; exact IH]. Qed.

Lemma chars_length (s : string) : length (chars s) = String.length s.
Proof. induction s as [|c s IH]; simpl; [reflexivity | f_equal; exact IH]. Qed.

(** Every character, for the facts that are checked on all of them. *)
Definition all_ascii : list ascii := map ascii_of_nat (seq 0 256).

Lemma In_all_ascii (c : ascii) : In c all_ascii.
Proof.
  unfold all_ascii. apply in_map_iff. exists (nat_of_ascii c). split.
  - apply ascii_nat_embedding.
  - apply in_seq. pose proof (nat_ascii_bounded c). lia.
Qed.

Lemma forall_ascii (P : ascii -> bool) :
  forallb P all_ascii = true -> forall c, P c = true.
Proof. intros H c. rewrite forallb_forall in H. apply H, In_all_ascii. Qed.

Lemma upper_char_idempotent (c : ascii) : upper_char (upper_char c) = upper_char c.
Proof.
  apply Ascii.eqb_eq.
  apply (forall_ascii (fun c => Ascii.eqb (upper_char (upper_char c)) (upper_char c))).
  vm_compute. reflexivity.
Qed.

Lemma toUpperCase_idempotent (s : string) : toUpperCase (toUpperCase s) = toUpperCase s.
Proof.
  unfold toUpperCase. rewrite chars_str, map_map. f_equal.
  apply map_ext. intros c. apply upper_char_idempotent.
Qed.

Definition option_Z_eqb (a b : option Z) : bool :=
  match a, b with
  | Some x, Some y => x =? y
  | None, None => true
  | _, _ => false
  end.

Lemma option_Z_eqb_eq (a b : option Z) : option_Z_eqb a b = true -> a = b.
Proof.
  destruct a, b; simpl; intros H; try discriminate H; [|reflexivity].
  apply Z.eqb_eq in H. congruence.
Qed.

Lemma hex_value_upper (c : ascii) : hex_value (upper_char c) = hex_value c.
Proof.
  apply option_Z_eqb_eq.
  apply (forall_ascii (fun c => option_Z_eqb (hex_value (upper_char c)) (hex_value c))).
  vm_compute. reflexivity.
Qed.

Lemma is_hex_char_upper (c : ascii) : is_hex_char (upper_char c) = is_hex_char c.
Proof. unfold is_hex_char. rewrite hex_value_upper. reflexivity. Qed.

(** Two texts whose characters have the same hexadecimal values, place by
    place, are the same to the test of the digits. *)
Lemma hex_re_test_map (f : ascii -> ascii) (n : nat) (s : string) :
  (forall c, hex_value (f c) = hex_value c) ->
  hex_re_test n (str (map f (chars s))) = hex_re_test n s.
Proof.
  intros Hf. unfold hex_re_test.
  rewrite <- !chars_length, chars_str, length_map. f_equal.
  induction (chars s) as [|c l IH]; [reflexivity|].
  cbn [map forallb]. rewrite IH. unfold is_hex_char. rewrite Hf. reflexivity.
Qed.

Lemma hex_re_test_upper (n : nat) (s : string) :
  hex_re_test n (toUpperCase s) = hex_re_test n s.
Proof. apply hex_re_test_map, hex_value_upper. Qed.

Lemma for_loop_insert {A : Type} (f : nat -> A) (n : nat) :
  forall (k : nat) (done rest : list A),
    length done = k -> length rest = n ->
    for_loop k n (fun i a => <[i := f i]> a) (done ++ rest) = done ++ map f (seq k n).
Proof.
  induction n as [|n IH]; intros k done rest Hd Hr.
  - destruct rest; [reflexivity | discriminate].
  - destruct rest as [|x rest]; [discriminate|]. simpl.
    rewrite insert_app_r_alt by lia.
    replace (k - length done)%nat with 0%nat by lia. simpl.
    rewrite (cons_middle (f k) done rest), app_assoc.
    rewrite (IH (S k) (done ++ [f k]) rest).
    + rewrite <- app_assoc. reflexivity.
    + rewrite length_app. simpl. lia.
    + simpl in Hr. lia.
Qed.

Lemma for_loop_fill {A : Type} (f : nat -> A) (n : nat) (init : list A) :
  length init = n ->
  for_loop 0 n (fun i a => <[i := f i]> a) init = map f (seq 0 n).
Proof.
  intros H. apply (for_loop_insert f n 0%nat [] init); [reflexivity | exact H].
Qed.

Lemma for_loop_append (g : nat -> string) (n : nat) :
  forall (k : nat) (h : string),
    chars (for_loop k n (fun i hex => hex +:+ g i) h)
    = chars h ++ concat (map (fun i => chars (g i)) (seq k n)).
Proof.
  induction n as [|n IH]; intros k h; simpl.
  - rewrite app_nil_r. reflexivity.
  - rewrite IH, chars_app, <- app_assoc. reflexivity.
Qed.

(** Writing a word over four bytes replaces exactly those bytes. *)
Lemma writeUInt32LE_app (done rest : list Z) (a b c d w : Z) :
  writeUInt32LE (done ++ a :: b :: c :: d :: rest) (length done) w
  = done ++ le_bytes w ++ rest.
Proof.
  unfold writeUInt32LE.
  rewrite !insert_app_r_alt by lia.
  replace (length done - length done)%nat with 0%nat by lia.
  replace (length done + 1 - length done)%nat with 1%nat by lia.
  replace (length done + 2 - length done)%nat with 2%nat by lia.
  replace (length done + 3 - length done)%nat with 3%nat by lia.
  reflexivity.
Qed.

Lemma for_loop_setFloat32LE (g : nat -> Z) (n : nat) :
  forall (k : nat) (done rest : list Z),
    length done = (k * 4)%nat -> length rest = (n * 4)%nat ->
    for_loop k n (fun i bytes => setFloat32LE bytes (i * 4) (g i)) (done ++ rest)
    = done ++ concat (map (fun i => le_bytes (g i)) (seq k n)).
Proof.
  induction n as [|n IH]; intros k done rest Hd Hr.
  - destruct rest; [reflexivity | discriminate].
  - destruct rest as [|a [|b [|c [|d rest]]]]; try discriminate.
    simpl. unfold setFloat32LE at 2. rewrite <- Hd, writeUInt32LE_app.
    rewrite app_assoc, (IH (S k) (done ++ le_bytes (g k)) rest).
    + rewrite <- app_assoc. reflexivity.
    + rewrite length_app. simpl. lia.
    + simpl in Hr. lia.
Qed.

Lemma map_seq_lookup {A B : Type} (F : option A -> B) (l : list A) :
  map (fun i => F (l !! i)) (seq 0 (length l)) = map (fun x => F (Some x)) l.
Proof.
  induction l as [|x l IH]; [reflexivity|].
  simpl. f_equal. rewrite <- seq_shift, map_map. exact IH.
Qed.

(** The two upper-case digits that [bytesToHex] gives a byte. *)
Definition hex2 (b : Z) : list ascii :=
  map upper_char (chars (padStart0 2 (byte_toString16 b))).

Definition hex2_ok (b : Z) : bool :=
  match parseInt16 (str (hex2 b)) with
  | Some n => (n =? b) && (length (hex2 b) =? 2)%nat && forallb is_hex_char (hex2 b)
  | None => false
  end.

Lemma hex2_ok_all : forallb hex2_ok (map Z.of_nat (seq 0 256)) = true.
Proof. vm_compute. reflexivity. Qed.

Lemma hex2_ok_byte (b : Z) : 0 <= b < 256 -> hex2_ok b = true.
Proof.
  intros Hb. pose proof hex2_ok_all as H.
  rewrite forallb_forall in H. apply H.
  apply in_map_iff. exists (Z.to_nat b). split; [lia|].
  apply in_seq. lia.
Qed.

Lemma hex2_spec (b : Z) :
  0 <= b < 256 ->
  parseInt16 (str (hex2 b)) = Some b /\ length (hex2 b) = 2%nat
  /\ forallb is_hex_char (hex2 b) = true.
Proof.
  intros Hb. pose proof (hex2_ok_byte b Hb) as H. unfold hex2_ok in H.
  destruct (parseInt16 (str (hex2 b))) as [n|]; [|discriminate].
  apply andb_prop in H as [H H3]. apply andb_prop in H as [H1 H2].
  apply Z.eqb_eq in H1. apply Nat.eqb_eq in H2. subst n. auto.
Qed.

Lemma chars_bytesToHex (bytes : list Z) :
  chars (bytesToHex bytes) = concat (map hex2 bytes).
Proof.
  unfold bytesToHex, toUpperCase. rewrite chars_str, for_loop_append. simpl.
  unfold byte_at.
  rewrite (map_seq_lookup (fun o => chars (padStart0 2 (byte_toString16 (default 0 o))))).
  simpl. induction bytes as [|b bytes IH]; [reflexivity|].
  simpl. rewrite map_app, IH. reflexivity.
Qed.

(** Chunks of a fixed width [w], laid end to end, are found again by
    position. *)
Lemma concat_chunk {A : Type} (w : nat) (ls : list (list A)) :
  Forall (fun l => length l = w) ls ->
  forall i l, ls !! i = Some l -> take w (drop (i * w) (concat ls)) = l.
Proof.
  induction 1 as [|x ls Hx _ IH]; intros i l Hi; [discriminate|].
  destruct i as [|i].
  - injection Hi as <-. change (take w (x ++ concat ls) = x).
    apply take_app_length'. symmetry. exact Hx.
  - change (take w (drop (w + i * w) (x ++ concat ls)) = l).
    rewrite drop_app_add' by (symmetry; exact Hx). apply IH. exact Hi.
Qed.

Lemma readUInt32LE_head (a b c d : Z) (rest : list Z) :
  readUInt32LE (a :: b :: c :: d :: rest) 0 = a + 256 * b + 65536 * c + 16777216 * d.
Proof. reflexivity. Qed.

Lemma le_bytes_value (w : Z) :
  0 <= w < 2 ^ 32 ->
  w mod 256 + 256 * ((w / 256) mod 256) + 65536 * ((w / 65536) mod 256)
  + 16777216 * ((w / 16777216) mod 256) = w.
Proof.
  intros Hw. change (2 ^ 32) with 4294967296 in Hw.
  change 65536 with (256 * 256). change 16777216 with (256 * 256 * 256).
  rewrite <- !Z.div_div by lia.
  Z.div_mod_to_equations. lia.
Qed.

Lemma readUInt32LE_le_bytes (w : Z) (rest : list Z) :
  0 <= w < 2 ^ 32 -> readUInt32LE (le_bytes w ++ rest) 0 = w.
Proof.
  intros Hw. unfold le_bytes.
  change (readUInt32LE (w mod 256 :: (w / 256) mod 256 :: (w / 65536) mod 256
                        :: (w / 16777216) mod 256 :: rest) 0 = w).
  rewrite readUInt32LE_head. apply le_bytes_value. exact Hw.
Qed.

Lemma readUInt32LE_skip (a b c d : Z) (rest : list Z) (i : nat) :
  readUInt32LE (a :: b :: c :: d :: rest) (S i * 4) = readUInt32LE rest (i * 4).
Proof.
  unfold readUInt32LE, byte_at.
  replace (S i * 4)%nat with (S (S (S (S (i * 4))))) by lia. reflexivity.
Qed.

Lemma readUInt32LE_words (v : list Z) :
  Forall (fun w => 0 <= w < 2 ^ 32) v ->
  forall i w, v !! i = Some w ->
    readUInt32LE (concat (map le_bytes v)) (i * 4) = w.
Proof.
  induction 1 as [|x v Hx _ IH]; intros i w Hi; [discriminate|].
  destruct i as [|i].
  - injection Hi as <-. apply (readUInt32LE_le_bytes x _ Hx).
  - change (concat (map le_bytes (x :: v)))
      with (x mod 256 :: (x / 256) mod 256 :: (x / 65536) mod 256
            :: (x / 16777216) mod 256 :: concat (map le_bytes v)).
    rewrite readUInt32LE_skip. apply IH. exact Hi.
Qed.

Lemma le_bytes_range (v : list Z) :
  Forall (fun b => 0 <= b < 256) (concat (map le_bytes v)).
Proof.
  induction v as [|w v IH]; [constructor|].
  change (concat (map le_bytes (w :: v))) with (le_bytes w ++ concat (map le_bytes v)).
  apply Forall_app. split; [|exact IH].
  unfold le_bytes. repeat constructor; apply Z.mod_pos_bound; lia.
Qed.

Lemma le_bytes_length (v : list Z) :
  length (concat (map le_bytes v)) = (length v * 4)%nat.
Proof.
  induction v as [|w v IH]; [reflexivity|].
  change (concat (map le_bytes (w :: v))) with (le_bytes w ++ concat (map le_bytes v)).
  rewrite length_app, IH. simpl. lia.
Qed.

(** A pattern stays in the range of 32 bits, and a NaN that has passed
    through a Number is quiet: a second passage changes nothing. *)
Lemma through_Number_range (w : Z) :
  0 <= w < 2 ^ 32 -> 0 <= through_Number w < 2 ^ 32.
Proof.
  intros Hw. change (2 ^ 32) with 4294967296 in *.
  unfold through_Number, is_signalling_nan, is_nan_bits.
  destruct (Z.eqb_spec ((w / 0x800000) mod 256) 255) as [He|]; cbn [andb]; [|exact Hw].
  destruct (Z.eqb_spec (w mod 0x800000) 0); cbn [negb andb]; [exact Hw|].
  destruct (Z.ltb_spec (w mod 0x800000) 0x400000); [|exact Hw].
  Z.div_mod_to_equations. lia.
Qed.

Lemma through_Number_quiet (w : Z) : is_signalling_nan (through_Number w) = false.
Proof.
  unfold through_Number. destruct (is_signalling_nan w) eqn:E; [|exact E].
  unfold is_signalling_nan, is_nan_bits in *.
  apply andb_prop in E as [E Hq]. apply andb_prop in E as [He Hm].
  apply Z.eqb_eq in He. apply Z.ltb_lt in Hq.
  apply andb_false_iff. right. apply Z.ltb_ge.
  Z.div_mod_to_equations. lia.
Qed.

Lemma through_Number_idempotent (w : Z) :
  through_Number (through_Number w) = through_Number w.
Proof.
  unfold through_Number at 1. rewrite through_Number_quiet. reflexivity.
Qed.

Lemma through_Number_id (w : Z) : is_signalling_nan w = false -> through_Number w = w.
Proof. intros H. unfold through_Number. rewrite H. reflexivity. Qed.

Lemma vec32ToHex_bytes (v : list Z) :
  length v = 32%nat ->
  vec32ToHex v = Ok (bytesToHex (concat (map le_bytes (map through_Number v)))).
Proof.
  intros Hlen. unfold vec32ToHex. rewrite Hlen. simpl negb. cbv iota.
  f_equal. f_equal.
  rewrite (for_loop_setFloat32LE (fun i => through_Number (default nan_bits (v !! i))) 32 0 []
             (replicate 128 0) eq_refl eq_refl).
  rewrite <- Hlen.
  rewrite (map_seq_lookup (fun o => le_bytes (through_Number (default nan_bits o))) v).
  rewrite map_map. reflexivity.
Qed.

Lemma hex2_chunks (bytes : list Z) :
  Forall (fun b => 0 <= b < 256) bytes ->
  Forall (fun l => length l = 2%nat) (map hex2 bytes)
  /\ forallb is_hex_char (concat (map hex2 bytes)) = true
  /\ length (concat (map hex2 bytes)) = (length bytes * 2)%nat.
Proof.
  induction 1 as [|b bytes Hb _ IH]; [repeat split; constructor|].
  destruct IH as (IH1 & IH2 & IH3). destruct (hex2_spec b Hb) as (_ & H2 & H3).
  change (concat (map hex2 (b :: bytes))) with (hex2 b ++ concat (map hex2 bytes)).
  repeat split.
  - constructor; assumption.
  - rewrite forallb_app, H3, IH2. reflexivity.
  - rewrite length_app, H2, IH3. simpl. lia.
Qed.

(** Decoding the text of [bytesToHex] gives the bytes back. *)
Lemma hexToVec32_bytesToHex (bytes : list Z) :
  length bytes = 128%nat -> Forall (fun b => 0 <= b < 256) bytes ->
  hexToVec32 (bytesToHex bytes)
  = Ok (map (fun i => through_Number (getFloat32LE bytes (i * 4))) (seq 0 32)).
Proof.
  intros Hlen Hrange.
  destruct (hex2_chunks bytes Hrange) as (Hck & Hhex & Hcl).
  pose proof (chars_bytesToHex bytes) as Hchars.
  unfold hexToVec32, HEX_RE_256, hex_re_test.
  rewrite <- chars_length, Hchars, Hcl, Hlen, Hhex. simpl negb. cbv iota.
  f_equal.
  rewrite (for_loop_fill _ 128 (replicate 128 0) eq_refl).
  assert (Hb : map (fun i => ToUint8 (parseInt16
                 (slice (bytesToHex bytes) (i * 2) (i * 2 + 2)))) (seq 0 128) = bytes).
  { transitivity (map (fun i => default 0 (bytes !! i)) (seq 0 128)).
    - apply map_ext_in. intros i Hi. apply in_seq in Hi.
      destruct (lookup_lt_is_Some_2 bytes i ltac:(lia)) as [b Hlk].
      rewrite Hlk. simpl.
      unfold slice. rewrite Hchars.
      replace (i * 2 + 2 - i * 2)%nat with 2%nat by lia.
      rewrite (concat_chunk 2 (map hex2 bytes) Hck i (hex2 b)).
      + assert (Hbr : 0 <= b < 256).
        { rewrite Forall_forall in Hrange. apply Hrange.
          apply list_elem_of_lookup. eauto. }
        destruct (hex2_spec b Hbr) as (Hp & _). rewrite Hp. simpl.
        apply Z.mod_small. exact Hbr.
      + rewrite list_lookup_fmap, Hlk. reflexivity.
    - rewrite <- Hlen, (map_seq_lookup (default 0) bytes). simpl. apply map_id. }
  rewrite Hb.
  apply (for_loop_fill _ 32 (replicate 32 0) eq_refl).
Qed.

(** Decoding the text of a list of words gives the words back as they are
    after their passage through a Number. *)
Lemma hexToVec32_words (v : list Z) :
  length v = 32%nat -> Forall (fun w => 0 <= w < 2 ^ 32) v ->
  hexToVec32 (bytesToHex (concat (map le_bytes v))) = Ok (map through_Number v).
Proof.
  intros Hlen Hrange.
  rewrite hexToVec32_bytesToHex;
    [|rewrite le_bytes_length, Hlen; reflexivity | apply le_bytes_range].
  apply (f_equal Ok). unfold getFloat32LE.
  transitivity (map (fun i => through_Number (default 0 (v !! i))) (seq 0 32)).
  - apply map_ext_in. intros i Hi. apply in_seq in Hi.
    destruct (lookup_lt_is_Some_2 v i ltac:(lia)) as [w Hw].
    rewrite Hw. simpl. f_equal. apply readUInt32LE_words; assumption.
  - rewrite <- Hlen, (map_seq_lookup (fun o => through_Number (default 0 o)) v).
    reflexivity.
Qed.

Lemma through_Number_all_range (v : list Z) :
  Forall (fun w => 0 <= w < 2 ^ 32) v ->
  Forall (fun w => 0 <= w < 2 ^ 32) (map through_Number v).
Proof.
  intros H. induction H as [|w v Hw _ IH]; [constructor|].
  cbn [map]. constructor; [apply through_Number_range; exact Hw | exact IH].
Qed.

Lemma through_Number_all_id (v : list Z) :
  Forall (fun w => is_signalling_nan w = false) v -> map through_Number v = v.
Proof.
  intros H. induction H as [|w v Hw _ IH]; [reflexivity|].
  cbn [map]. rewrite (through_Number_id w Hw), IH. reflexivity.
Qed.

(** C1 (as the code has it).  For every 32-element float vector [v],
    given by the binary32 bit patterns of its components, decoding the
    text that [vec32ToHex] produces returns every component as it is after
    its passage through a Number: bit for bit the same, the sign of a
    zero and the sign and payload of a quiet NaN included, but for a
    signalling NaN, which comes back quiet.  A vector without a signalling
    NaN comes back bit for bit. *)
Theorem hexToVec32_vec32ToHex (v : list Z) :
  length v = 32%nat ->
  Forall (fun w => 0 <= w < 2 ^ 32) v ->
  exists hex,
    vec32ToHex v = Ok hex
    /\ hexToVec32 hex = Ok (map through_Number v)
    /\ (Forall (fun w => is_signalling_nan w = false) v -> hexToVec32 hex = Ok v).
Proof.
  intros Hlen Hrange.
  exists (bytesToHex (concat (map le_bytes (map through_Number v)))).
  assert (Hdec : hexToVec32 (bytesToHex (concat (map le_bytes (map through_Number v))))
                 = Ok (map through_Number v)).
  { rewrite hexToVec32_words.
    - rewrite map_map. apply (f_equal Ok). apply map_ext. intros w.
      apply through_Number_idempotent.
    - rewrite length_map. exact Hlen.
    - apply through_Number_all_range. exact Hrange. }
  split; [apply vec32ToHex_bytes; exact Hlen|].
  split; [exact Hdec|].
  intros Hquiet. rewrite Hdec, (through_Number_all_id v Hquiet). reflexivity.
Qed.

(** The vector of signed zeros, infinities, the largest and the smallest
    numbers and quiet NaNs of either sign with distinct payloads survives
    the round trip. *)
Lemma hexToVec32_vec32ToHex_witness :
  exists hex,
    vec32ToHex ([0x80000000; 0x7FC00001; 0xFFFFFFFF; 0x7F800000; 0xFF800000;
                 0x7F7FFFFF; 0x00000001; 0x7FE12345] ++ replicate 24 0)
    = Ok hex
    /\ hexToVec32 hex
       = Ok ([0x80000000; 0x7FC00001; 0xFFFFFFFF; 0x7F800000; 0xFF800000;
              0x7F7FFFFF; 0x00000001; 0x7FE12345] ++ replicate 24 0).
Proof.
  destruct (hexToVec32_vec32ToHex
              ([0x80000000; 0x7FC00001; 0xFFFFFFFF; 0x7F800000; 0xFF800000;
                0x7F7FFFFF; 0x00000001; 0x7FE12345] ++ replicate 24 0))
    as (hex & Henc & _ & Hdec).
  - reflexivity.
  - repeat constructor; vm_compute; congruence.
  - exists hex. split; [exact Henc|]. apply Hdec.
    repeat constructor.
Defined.

(** A vector that holds the signalling NaN [0x7F800001] (a pattern that
    can be put in a [Float32Array] through its buffer) does not come back
    bit for bit: the component returns as the quiet NaN [0x7FC00001]. *)
Lemma hexToVec32_vec32ToHex_quiets_signalling_nan :
  exists hex,
    vec32ToHex (0x7F800001 :: replicate 31 0) = Ok hex
    /\ hexToVec32 hex = Ok (0x7FC00001 :: replicate 31 0)
    /\ hexToVec32 hex <> Ok (0x7F800001 :: replicate 31 0).
Proof.
  eexists. split; [vm_compute; reflexivity|].
  split; [vm_compute; reflexivity|].
  vm_compute. intros H. discriminate H.
Qed.

(** ** Numbers

    A JavaScript [number] is a binary64 value: Rocq's primitive [float],
    with the one NaN that the language can observe, and with [0] and [-0]
    distinct. *)

Abbreviation number := float (only parsing).

(** The binary32 value nearest to [(-1)^s * m * 2^e] (ties to even). *)
Definition binary32_round (s : bool) (m : positive) (e : Z) : spec_float :=
  binary_round 24 128 s m e.

(** The bit pattern that [view.setFloat32(0, x)] stores for [x]: sign,
    8 bits of biased exponent, 23 bits of fraction; the quiet NaN for NaN. *)
Definition float32_bits (x : number) : Z :=
  let sign_bit (s : bool) := if s then 0x80000000 else 0 in
  match Prim2SF x with
  | S754_nan => nan_bits
  | S754_zero s => sign_bit s
  | S754_infinity s => sign_bit s + 0x7F800000
  | S754_finite s m e =>
      match binary32_round s m e with
      | S754_finite _ m' e' =>
          if Zpos m' <? 0x800000 then sign_bit s + Zpos m'
          else sign_bit s + (e' + 150) * 0x800000 + (Zpos m' - 0x800000)
      | S754_infinity _ => sign_bit s + 0x7F800000
      | S754_zero _ => sign_bit s
      | S754_nan => nan_bits
      end
  end.

(** The number that [view.getFloat32(0)] reads from a bit pattern. *)
Definition float32_of_bits (w : Z) : number :=
  let s := 0x80000000 <=? w in
  let e := (w / 0x800000) mod 256 in
  let m := w mod 0x800000 in
  if e =? 255 then
    if m =? 0 then (if s then neg_infinity else infinity) else nan
  else if e =? 0 then
    match m with
    | Zpos p => SF2Prim (S754_finite s p (-149))
    | _ => if s then neg_zero else zero
    end
  else
    match (m + 0x800000)%Z with
    | Zpos p => SF2Prim (S754_finite s p (e - 150))
    | _ => nan
    end.

(** [Math.fround]: what a [Float32Array] keeps of a number stored in it. *)
Definition fround (x : number) : number := float32_of_bits (float32_bits x).

(** [Number.isFinite(x)] for a number [x]. *)
Definition Number_isFinite (x : number) : bool :=
  negb (is_nan x) && negb (is_infinity x).

(** [Object.is(x, -0)]. *)
Definition is_neg_zero (x : number) : bool := is_zero x && get_sign x.

(** ** Mixer ([src/mixer/math.ts]) *)

(** A [Float32Array] seen through its element reads: a list of numbers.
    [new Float32Array(n)] holds [n] zeros; a store rounds with [fround];
    a read past the end gives [undefined], which arithmetic turns into
    NaN. *)
Abbreviation Float32Array := (list float) (only parsing).

Definition new_Float32Array (n : nat) : Float32Array := replicate n 0%float.

Definition f32_get (vec : Float32Array) (i : nat) : number := default nan (vec !! i).

Definition f32_set (vec : Float32Array) (i : nat) (x : number) : Float32Array :=
  <[i := fround x]> vec.

Definition l2Magnitude (vec : Float32Array) : number :=
  let sum :=
    for_loop 0 (length vec)
      (fun i sum => let v := f32_get vec i in (sum + v * v)%float) 0%float in
  sqrt sum.

Record MixResult : Type := { vector : Float32Array; sumAbs : number }.

(** One turn of the loop over the channels of [mixVectors]: the weight
    joins [sumAbs] and the weighted vector is added into [out], component
    by component. *)
Definition mix_channel (vec : Float32Array) (weight : number)
  (st : Float32Array * number) : Float32Array * number :=
  let '(out, sum) := st in
  let sum := (sum + abs weight)%float in
  let out :=
    for_loop 0 (length out)
      (fun j out => f32_set out j (f32_get out j + f32_get vec j * weight)%float) out in
  (out, sum).

Definition mixVectors (vectors : list Float32Array) (weights : list number)
  : result MixResult :=
  if negb (length vectors =? length weights)%nat then Throw "Weights length mismatch."
  else
    let '(out, sum) :=
      for_loop 0 (length weights)
        (fun i st => mix_channel (default [] (vectors !! i)) (default nan (weights !! i)) st)
        (new_Float32Array 32, 0%float) in
    if (sum =? 0)%float then Ok {| vector := new_Float32Array 32; sumAbs := sum |}
    else
      let out :=
        for_loop 0 (length out) (fun i out => f32_set out i (f32_get out i / sum)%float) out in
      Ok {| vector := out; sumAbs := sum |}.

Definition applyBus (vec : Float32Array) (busPercent : number) : Float32Array :=
  let scale := (busPercent / 100)%float in
  for_loop 0 (length vec) (fun i out => f32_set out i (f32_get vec i * scale)%float)
    (new_Float32Array (length vec)).

Definition setMagnitude (vec : Float32Array) (targetMag : number) : Float32Array :=
  let mag := l2Magnitude vec in
  if (mag =? 0)%float then new_Float32Array (length vec)
  else
    let isNegZero := is_neg_zero targetMag in
    let sign := if (targetMag <? 0)%float || isNegZero then (-1)%float else 1%float in
    let scale := (abs targetMag * sign / mag)%float in
    for_loop 0 (length vec) (fun i out => f32_set out i (f32_get vec i * scale)%float)
      (new_Float32Array (length vec)).

(** The tests of [test/math.test.ts]. *)
Example mixVectors_test :
  mixVectors [1%float :: replicate 31 0%float; 3%float :: replicate 31 0%float]
             [1%float; (-0.5)%float]
  = Ok {| vector := fround (-0.5 / 1.5)%float :: replicate 31 0%float;
          sumAbs := 1.5%float |}.
Proof. vm_compute. reflexivity. Qed.

Example applyBus_test :
  applyBus (2%float :: replicate 31 0%float) 50%float = 1%float :: replicate 31 0%float.
Proof. vm_compute. reflexivity. Qed.

(** *** The mixer in closed form *)

Lemma for_loop_update {A : Type} (d : A) (f : nat -> A -> A) (n : nat) :
  forall (k : nat) (done rest : list A),
    length done = k -> length rest = n ->
    for_loop k n (fun i a => <[i := f i (default d (a !! i))]> a) (done ++ rest)
    = done ++ map (fun i => f i (default d ((done ++ rest) !! i))) (seq k n).
Proof.
  induction n as [|n IH]; intros k done rest Hd Hr.
  - destruct rest; [reflexivity | discriminate].
  - destruct rest as [|x rest]; [discriminate|]. simpl in Hr.
    cbn [for_loop seq map].
    rewrite (list_lookup_middle done rest x k) by (symmetry; exact Hd).
    rewrite insert_app_r_alt by lia.
    replace (k - length done)%nat with 0%nat by lia.
    cbn [insert list_insert from_option]. change (id x) with x.
    rewrite (cons_middle (f k x) done rest), app_assoc.
    rewrite (IH (S k) (done ++ [f k x]) rest) by (rewrite ?length_app; simpl; lia).
    rewrite <- app_assoc. cbn [app]. f_equal. f_equal.
    apply map_ext_in. intros i Hi. apply in_seq in Hi.
    rewrite <- app_assoc. cbn [app].
    rewrite !lookup_app_r by lia.
    replace (i - length done)%nat with (S (i - length done - 1)) by lia.
    reflexivity.
Qed.

Lemma for_loop_zip {A B St : Type} (dA : A) (dB : B) (G : A -> B -> St -> St) :
  forall (la : list A) (lb : list B) (pa : list A) (pb : list B) (s : St),
    length la = length lb -> length pa = length pb ->
    for_loop (length pb) (length lb)
      (fun i st => G (default dA ((pa ++ la) !! i)) (default dB ((pb ++ lb) !! i)) st) s
    = fold_left (fun st '(a, b) => G a b st) (zip la lb) s.
Proof.
  induction la as [|a la IH]; intros [|b lb] pa pb s Hl Hp; try discriminate.
  - reflexivity.
  - cbn [length for_loop zip zip_with fold_left].
    rewrite (list_lookup_middle pa la a (length pb)) by (symmetry; exact Hp).
    rewrite (list_lookup_middle pb lb b (length pb)) by reflexivity.
    cbn [from_option]. change (id a) with a. change (id b) with b.
    rewrite (cons_middle a pa la), (cons_middle b pb lb), !app_assoc.
    replace (S (length pb)) with (length (pb ++ [b])) by (rewrite length_app; simpl; lia).
    apply IH.
    + simpl in Hl. lia.
    + rewrite !length_app. simpl. lia.
Qed.

Lemma f32_get_map_seq (g : nat -> number) (n j : nat) :
  (j < n)%nat -> f32_get (map g (seq 0 n)) j = g j.
Proof.
  intros Hj. unfold f32_get.
  rewrite list_lookup_fmap, lookup_seq_lt by exact Hj. reflexivity.
Qed.

(** The sum of the absolute values of the weights, taken from 0 in the
    order of the weights. *)
Definition sum_abs (weights : list number) : number :=
  fold_left (fun s w => (s + abs w)%float) weights 0%float.

(** The sum over the channels [i] of [vectors[i][j] * weight_i], taken from
    0 in the order of the channels in the float32 element [out[j]]. *)
Definition weighted_sum (j : nat) (vectors : list Float32Array) (weights : list number)
  : number :=
  fold_left (fun acc '(v, w) => fround (acc + f32_get v j * w)%float)
    (zip vectors weights) 0%float.

Lemma mix_channel_closed (vec : list float) (w : float) (out : list float) (sum : float) :
  mix_channel vec w (out, sum)
  = (map (fun j => fround (f32_get out j + f32_get vec j * w)%float) (seq 0 (length out)),
     (sum + abs w)%float).
Proof.
  unfold mix_channel. f_equal.
  apply (for_loop_update nan (fun j x => fround (x + f32_get vec j * w)%float)
           (length out) 0 [] out eq_refl eq_refl).
Qed.

Lemma mix_fold (pairs : list (list float * float)) :
  forall (out : list float) (s : float),
    length out = 32%nat ->
    fold_left (fun st '(v, w) => mix_channel v w st) pairs (out, s)
    = (map (fun j => fold_left (fun acc '(v, w) => fround (acc + f32_get v j * w)%float)
                       pairs (f32_get out j)) (seq 0 32),
       fold_left (fun s '(_, w) => (s + abs w)%float) pairs s).
Proof.
  induction pairs as [|[v w] pairs IH]; intros out s Hlen.
  - simpl fold_left. f_equal. rewrite <- Hlen. unfold f32_get.
    rewrite (map_seq_lookup (default nan) out). simpl. symmetry. apply map_id.
  - cbn [fold_left]. rewrite mix_channel_closed, Hlen.
    rewrite IH by (rewrite length_map, length_seq; reflexivity).
    apply (f_equal2 pair); [|reflexivity]. apply map_ext_in. intros j Hj. apply in_seq in Hj.
    rewrite f32_get_map_seq by lia. reflexivity.
Qed.

Lemma fold_abs_zip (vectors : list (list float)) :
  forall (weights : list float) (s : float),
    length vectors = length weights ->
    fold_left (fun s '(_, w) => (s + abs w)%float) (zip vectors weights) s
    = fold_left (fun s w => (s + abs w)%float) weights s.
Proof.
  induction vectors as [|v vectors IH]; intros [|w weights] s Hlen; try discriminate.
  - reflexivity.
  - simpl. apply IH. simpl in Hlen. lia.
Qed.

(** The channel loop of [mixVectors] in closed form. *)
Lemma mix_loop_closed (vectors : list (list float)) (weights : list float) :
  length vectors = length weights ->
  for_loop 0 (length weights)
    (fun i st => mix_channel (default [] (vectors !! i)) (default nan (weights !! i)) st)
    (new_Float32Array 32, 0%float)
  = (map (fun j => weighted_sum j vectors weights) (seq 0 32), sum_abs weights).
Proof.
  intros Hlen.
  rewrite (for_loop_zip [] nan mix_channel vectors weights [] [] _ Hlen eq_refl).
  rewrite mix_fold by reflexivity.
  rewrite fold_abs_zip by exact Hlen.
  apply (f_equal2 pair); [|reflexivity].
  apply map_ext_in. intros j Hj. apply in_seq in Hj.
  unfold weighted_sum. f_equal.
  unfold f32_get, new_Float32Array. rewrite lookup_replicate_2 by lia. reflexivity.
Qed.

Lemma divide_loop_closed (g : nat -> float) (sum : float) :
  for_loop 0 (length (map g (seq 0 32)))
    (fun i out => f32_set out i (f32_get out i / sum)%float) (map g (seq 0 32))
  = map (fun j => fround (g j / sum)%float) (seq 0 32).
Proof.
  etransitivity.
  { apply (for_loop_update nan (fun _ x => fround (x / sum)%float)
             (length (map g (seq 0 32))) 0 [] (map g (seq 0 32)) eq_refl eq_refl). }
  rewrite length_map, length_seq. cbn [app].
  apply map_ext_in. intros j Hj. apply in_seq in Hj.
  change (fround (f32_get (map g (seq 0 32)) j / sum)%float = fround (g j / sum)%float).
  rewrite f32_get_map_seq by lia. reflexivity.
Qed.

(** C3. [mixVectors] fails when the two sequences differ in length.  On
    sequences of equal length it returns [sumAbs], the sum of the absolute
    values of the weights; when that sum is zero the vector is the
    all-zero 32-vector, otherwise component [j] is the weighted sum over
    the channels divided by [sumAbs] (in the arithmetic of the program:
    binary64 operations, each store into the [Float32Array] rounded to
    binary32).  The empty input and a single zero weight both give the
    all-zero vector with [sumAbs] 0. *)
Theorem mixVectors_weighted_average (vectors : list (list float)) (weights : list float) :
  (length vectors <> length weights ->
   mixVectors vectors weights = Throw "Weights length mismatch.")
  /\ (length vectors = length weights ->
      mixVectors vectors weights
      = Ok {| vector :=
                if (sum_abs weights =? 0)%float then new_Float32Array 32
                else map (fun j => fround (weighted_sum j vectors weights
                                           / sum_abs weights)%float) (seq 0 32);
              sumAbs := sum_abs weights |})
  /\ mixVectors [] [] = Ok {| vector := new_Float32Array 32; sumAbs := 0%float |}
  /\ (forall v : list float,
        mixVectors [v] [0%float]
        = Ok {| vector := new_Float32Array 32; sumAbs := 0%float |}).
Proof.
  assert (Heq : forall vs ws, length vs = length ws ->
      mixVectors vs ws
      = Ok {| vector :=
                if (sum_abs ws =? 0)%float then new_Float32Array 32
                else map (fun j => fround (weighted_sum j vs ws / sum_abs ws)%float)
                       (seq 0 32);
              sumAbs := sum_abs ws |}).
  { intros vs ws Hlen. unfold mixVectors.
    rewrite Hlen, Nat.eqb_refl. cbn [negb].
    rewrite (mix_loop_closed vs ws Hlen).
    destruct (sum_abs ws =? 0)%float; [reflexivity|].
    rewrite divide_loop_closed. reflexivity. }
  split; [|split; [|split]].
  - intros Hne. unfold mixVectors.
    apply Nat.eqb_neq in Hne. rewrite Hne. reflexivity.
  - apply Heq.
  - rewrite (Heq [] [] eq_refl). reflexivity.
  - intros v. rewrite (Heq [v] [0%float] eq_refl). reflexivity.
Qed.

(** The test "mixes using sum of absolute weights": weights 1 and -0.5
    normalise by 1.5, not by 0.5. *)
Lemma mixVectors_weighted_average_witness :
  mixVectors [1%float :: replicate 31 0%float; 3%float :: replicate 31 0%float]
             [1%float; (-0.5)%float]
  = Ok {| vector := fround (-0.5 / 1.5)%float :: replicate 31 0%float;
          sumAbs := 1.5%float |}.
Proof.
  rewrite (proj1 (proj2 (mixVectors_weighted_average
             [1%float :: replicate 31 0%float; 3%float :: replicate 31 0%float]
             [1%float; (-0.5)%float])) eq_refl).
  vm_compute. reflexivity.
Defined.

Lemma for_loop_lookup {A St : Type} (d : A) (G : A -> St -> St) :
  forall (l p : list A) (s : St),
    for_loop (length p) (length l) (fun i st => G (default d ((p ++ l) !! i)) st) s
    = fold_left (fun st a => G a st) l s.
Proof.
  induction l as [|a l IH]; intros p s; [reflexivity|].
  cbn [length for_loop fold_left].
  rewrite (list_lookup_middle p l a (length p)) by reflexivity.
  cbn [from_option]. change (id a) with a.
  rewrite (cons_middle a p l), app_assoc.
  replace (S (length p)) with (length (p ++ [a])) by (rewrite length_app; simpl; lia).
  apply IH.
Qed.

(** The sum of the squares of the components, taken from 0 in order. *)
Definition sum_squares (vec : Float32Array) : number :=
  fold_left (fun s x => (s + x * x)%float) vec 0%float.

Lemma l2Magnitude_closed (vec : list float) : l2Magnitude vec = sqrt (sum_squares vec).
Proof.
  unfold l2Magnitude, sum_squares. f_equal.
  apply (for_loop_lookup nan (fun v sum => (sum + v * v)%float) vec [] 0%float).
Qed.

(** The loop that fills a fresh array with the scaled components. *)
Lemma scale_loop_closed (vec : list float) (scale : float) :
  for_loop 0 (length vec) (fun i out => f32_set out i (f32_get vec i * scale)%float)
    (new_Float32Array (length vec))
  = map (fun x => fround (x * scale)%float) vec.
Proof.
  etransitivity.
  { apply (for_loop_fill (fun i => fround (f32_get vec i * scale)%float) (length vec)).
    apply length_replicate. }
  unfold f32_get.
  rewrite (map_seq_lookup (fun o => fround (default nan o * scale)%float) vec).
  reflexivity.
Qed.

(** The sign that [setMagnitude] gives the scale: -1 exactly when the
    target is below zero or is the negative zero, +1 otherwise. *)
Definition target_sign (targetMag : number) : number :=
  if (targetMag <? 0)%float || is_neg_zero targetMag then (-1)%float else 1%float.

(** [|x - y| < 1e-6], component by component. *)
Definition within_1e6 (xs ys : list float) : bool :=
  (length xs =? length ys)%nat
  && forallb (fun '(x, y) => (abs (x - y) <? 0x1.0c6f7a0b5ed8dp-20)%float) (zip xs ys).

(** C4. [setMagnitude v t] is the all-zero vector when the L2 magnitude
    of [v] (the square root of the sum of its squared components) is zero,
    and otherwise every component of [v] times
    [(|t| * sign) / magnitude v], where [sign] is -1 exactly when [t < 0]
    or [t] is the negative zero, and +1 otherwise.  In particular
    [setMagnitude [3,4,0,...] (-10)] is within 1e-6 of [-6,-8,0,...], and
    on [1,0,...] the target [-0] gives negative zeros where the target [0]
    gives positive ones. *)
Theorem setMagnitude_scales (v : list float) (t : float) :
  l2Magnitude v = sqrt (sum_squares v)
  /\ setMagnitude v t
     = (if (l2Magnitude v =? 0)%float then new_Float32Array (length v)
        else map (fun x => fround (x * (abs t * target_sign t / l2Magnitude v))%float) v)
  /\ (target_sign t = (-1)%float <-> (t <? 0)%float = true \/ is_neg_zero t = true)
  /\ (target_sign t = 1%float <-> ~ ((t <? 0)%float = true \/ is_neg_zero t = true))
  /\ within_1e6 (setMagnitude ([3; 4] ++ replicate 30 0)%float (-10)%float)
       ([-6; -8] ++ replicate 30 0)%float = true
  /\ setMagnitude (1 :: replicate 31 0)%float (-0)%float = replicate 32 (-0)%float
  /\ setMagnitude (1 :: replicate 31 0)%float 0%float = replicate 32 0%float
  /\ map is_neg_zero (setMagnitude (1 :: replicate 31 0)%float (-0)%float)
     <> map is_neg_zero (setMagnitude (1 :: replicate 31 0)%float 0%float).
Proof.
  split; [apply l2Magnitude_closed|].
  split.
  { unfold setMagnitude. destruct (l2Magnitude v =? 0)%float; [reflexivity|].
    apply scale_loop_closed. }
  split.
  { unfold target_sign. destruct ((t <? 0)%float || is_neg_zero t) eqn:E.
    - apply orb_true_iff in E. tauto.
    - apply orb_false_iff in E as [E1 E2]. rewrite E1, E2. split.
      + intros H. discriminate H.
      + intros [H|H]; discriminate H. }
  split.
  { unfold target_sign. destruct ((t <? 0)%float || is_neg_zero t) eqn:E.
    - apply orb_true_iff in E. split.
      + intros H. discriminate H.
      + tauto.
    - apply orb_false_iff in E as [E1 E2]. rewrite E1, E2. split.
      + intros _ [H|H]; discriminate H.
      + reflexivity. }
  split; [vm_compute; reflexivity|].
  split; [vm_compute; reflexivity|].
  split; [vm_compute; reflexivity|].
  vm_compute. intros H. discriminate H.
Qed.

(** ** JavaScript values

    What [JSON.parse] returns, and [undefined] for a missing property.  An
    object is the list of its own properties in [Object.keys] order; the
    keys of the list of a real object are distinct. *)

#[local] Unset Elimination Schemes.
Inductive value : Type :=
| VUndefined
| VNull
| VBool (b : bool)
| VNumber (n : float)
| VString (s : string)
| VArray (items : list value)
| VObject (props : list (string * value)).
#[local] Set Elimination Schemes.

(** Induction on a value, with the hypothesis for every element of an
    array and for every property value of an object. *)
Fixpoint value_ind (P : value -> Prop)
  (Hundefined : P VUndefined) (Hnull : P VNull) (Hbool : forall b, P (VBool b))
  (Hnumber : forall n, P (VNumber n)) (Hstring : forall s, P (VString s))
  (Harray : forall items, Forall P items -> P (VArray items))
  (Hobject : forall props, Forall (fun kv => P (snd kv)) props -> P (VObject props))
  (v : value) {struct v} : P v :=
  let rec := value_ind P Hundefined Hnull Hbool Hnumber Hstring Harray Hobject in
  match v with
  | VUndefined => Hundefined
  | VNull => Hnull
  | VBool b => Hbool b
  | VNumber n => Hnumber n
  | VString s => Hstring s
  | VArray items =>
      Harray items
        ((fix all (l : list value) : Forall P l :=
            match l with
            | [] => @List.Forall_nil _ P
            | x :: l' => @List.Forall_cons _ P x l' (rec x) (all l')
            end) items)
  | VObject props =>
      Hobject props
        ((fix all (l : list (string * value)) : Forall (fun kv => P (snd kv)) l :=
            match l with
            | [] => @List.Forall_nil _ _
            | kv :: l' => @List.Forall_cons _ _ kv l' (rec (snd kv)) (all l')
            end) props)
  end.

Abbreviation object := (list (string * value)) (only parsing).

Definition keys (o : object) : list string := map fst o.

(** [Object.prototype.hasOwnProperty.call(o, k)]. *)
Definition has_own (o : object) (k : string) : bool :=
  existsb (fun kv => String.eqb (fst kv) k) o.

(** [o[k]]: the own property, else [undefined]. *)
Fixpoint obj_get (o : object) (k : string) : value :=
  match o with
  | [] => VUndefined
  | (k', v) :: o' => if String.eqb k' k then v else obj_get o' k
  end.

Fixpoint obj_update (o : object) (k : string) (v : value) : object :=
  match o with
  | [] => []
  | (k', v') :: o' => if String.eqb k' k then (k', v) :: o' else (k', v') :: obj_update o' k v
  end.

(** [o[k] = v] on an object built from [{}]: an own property is
    overwritten in place, a new one is added last; the key [__proto__]
    reaches the setter of [Object.prototype] and adds no own property. *)
Definition obj_set (o : object) (k : string) (v : value) : object :=
  if String.eqb k "__proto__" then o
  else if has_own o k then obj_update o k v
  else o ++ [(k, v)].

Definition Array_isArray (v : value) : bool :=
  match v with VArray _ => true | _ => false end.

(** [!!v && typeof v === "object" && !Array.isArray(v)]. *)
Definition isPlainObject (v : value) : bool :=
  match v with VObject _ => true | _ => false end.

(** ** FieldMigrator ([src/nofs/binary.ts]) *)

(** [buffer.toString("hex")]: two lower-case digits per byte. *)
Definition Buffer_toString_hex (bytes : Uint8Array) : string :=
  str (concat (map (fun b => chars (padStart0 2 (byte_toString16 b))) bytes)).

(** [Buffer.from(s, "hex")]: one byte per pair of digits, up to the first
    pair that is not two hexadecimal digits. *)
Fixpoint Buffer_from_hex_chars (l : list ascii) : Uint8Array :=
  match l with
  | a :: b :: rest =>
      match hex_value a, hex_value b with
      | Some x, Some y => (16 * x + y) :: Buffer_from_hex_chars rest
      | _, _ => []
      end
  | _ => []
  end.

Definition Buffer_from_hex (s : string) : Uint8Array := Buffer_from_hex_chars (chars s).

Definition HEX8_RE : string -> bool := hex_re_test 8.

Definition floatToHexLE (x : number) : string :=
  let buffer := setFloat32LE (replicate 4 0) 0 (float32_bits x) in
  toUpperCase (Buffer_toString_hex buffer).

Definition hexToFloatLE (hex8 : string) : result number :=
  if negb (HEX8_RE hex8) then Throw "Invalid float hex."
  else
    let buffer := Buffer_from_hex hex8 in
    Ok (float32_of_bits (getFloat32LE buffer 0)).

(** [hexToFloatLE] where the caller has tested [HEX8_RE] itself: the call
    returns. *)
Definition hexToFloatLE_tested (hex8 : string) : value :=
  match hexToFloatLE hex8 with
  | Ok n => VNumber n
  | Throw _ => VUndefined
  end.

(** [transformStyleForEncrypt], given the transform of plain values. *)
Definition transformStyleForEncrypt_with (transformValue : value -> value) (v : value)
  : value :=
  match v with
  | VObject record =>
      VObject
        (fold_left
           (fun out '(key, x) =>
              if String.eqb key "extra" then
                match x with
                | VNumber n =>
                    if Number_isFinite n then obj_set out "extra" (VString (floatToHexLE n))
                    else obj_set out "extra" x
                | VString s =>
                    if HEX8_RE s then obj_set out "extra" (VString (toUpperCase s))
                    else obj_set out "extra" x
                | _ => obj_set out "extra" x
                end
              else obj_set out key (transformValue x))
           record [])
  | _ => transformValue v
  end.

Fixpoint transformValueForEncrypt (v : value) : value :=
  match v with
  | VArray items => VArray (map transformValueForEncrypt items)
  | VObject record =>
      let hasPitch := has_own record "pitch_model" in
      VObject
        (fold_left
           (fun out '(key, x) =>
              if String.eqb key "sing_model" then
                if hasPitch then out
                else obj_set out "pitch_model" (transformValueForEncrypt x)
              else
                match String.eqb key "styles", x with
                | true, VArray entries =>
                    obj_set out "styles"
                      (VArray (map (transformStyleForEncrypt_with transformValueForEncrypt)
                                 entries))
                | _, _ => obj_set out key (transformValueForEncrypt x)
                end)
           record [])
  | _ => v
  end.

Definition transformStyleForEncrypt : value -> value :=
  transformStyleForEncrypt_with transformValueForEncrypt.

(** [transformStyleForDecrypt], given the transform of plain values. *)
Definition transformStyleForDecrypt_with (transformValue : value -> value) (v : value)
  : value :=
  match v with
  | VObject record =>
      VObject
        (fold_left
           (fun out '(key, x) =>
              if String.eqb key "extra" then
                match x with
                | VString s =>
                    if HEX8_RE s then obj_set out "extra" (hexToFloatLE_tested s)
                    else obj_set out "extra" (transformValue x)
                | _ => obj_set out "extra" (transformValue x)
                end
              else obj_set out key (transformValue x))
           record [])
  | _ => transformValue v
  end.

Fixpoint transformValueForDecrypt (v : value) : value :=
  match v with
  | VArray items => VArray (map transformValueForDecrypt items)
  | VObject record =>
      let hasSing := has_own record "sing_model" in
      VObject
        (fold_left
           (fun out '(key, x) =>
              if String.eqb key "pitch_model" then
                if hasSing then out
                else obj_set out "sing_model" (transformValueForDecrypt x)
              else
                match String.eqb key "styles", x with
                | true, VArray entries =>
                    obj_set out "styles"
                      (VArray (map (transformStyleForDecrypt_with transformValueForDecrypt)
                                 entries))
                | _, _ => obj_set out key (transformValueForDecrypt x)
                end)
           record [])
  | _ => v
  end.

Definition transformStyleForDecrypt : value -> value :=
  transformStyleForDecrypt_with transformValueForDecrypt.

(** The document of the test "roundtrips json with model and extra
    transforms" (the style data shortened), in its modern and in its legacy
    form. *)
Definition test_document : value :=
  VObject [("name", VString "Test"); ("sing_model", VString "abc123");
           ("styles", VArray [VObject [("name", VString "Style1"); ("data", VString "00");
                                       ("extra", VNumber 0.5)]])].

Definition test_document_legacy : value :=
  VObject [("name", VString "Test"); ("pitch_model", VString "abc123");
           ("styles", VArray [VObject [("name", VString "Style1"); ("data", VString "00");
                                       ("extra", VString "0000003F")]])].

Example transformValueForEncrypt_test :
  transformValueForEncrypt test_document = test_document_legacy.
Proof. vm_compute. reflexivity. Qed.

Example transformValueForDecrypt_test :
  transformValueForDecrypt test_document_legacy = test_document.
Proof. vm_compute. reflexivity. Qed.

(** *** Objects built by a loop of assignments *)

(** The keys of a real object are distinct; an object read by [JSON.parse]
    may own the key [__proto__], which no assignment can copy. *)
Fixpoint distinct_keys (o : object) : bool :=
  match o with
  | [] => true
  | (k, _) :: o' => negb (has_own o' k) && distinct_keys o'
  end.

Definition keys_ok (o : object) : bool :=
  distinct_keys o && negb (has_own o "__proto__").

Lemma has_own_app (a b : list (string * value)) (k : string) :
  has_own (a ++ b) k = has_own a k || has_own b k.
Proof. apply existsb_app. Qed.

Lemma has_own_cons (k0 : string) (v : value) (o : list (string * value)) (k : string) :
  has_own ((k0, v) :: o) k = String.eqb k0 k || has_own o k.
Proof. reflexivity. Qed.

Lemma obj_set_fresh (out : list (string * value)) (k : string) (v : value) :
  String.eqb k "__proto__" = false -> has_own out k = false ->
  obj_set out k v = out ++ [(k, v)].
Proof. intros H1 H2. unfold obj_set. rewrite H1, H2. reflexivity. Qed.

Lemma distinct_keys_middle (out rest : list (string * value)) (k : string) (v : value) :
  distinct_keys (out ++ (k, v) :: rest) = true -> has_own out k = false.
Proof.
  induction out as [|[k0 v0] out IH]; intros H; [reflexivity|].
  simpl in H. apply andb_prop in H as [H1 H2].
  rewrite has_own_cons, (IH H2), orb_false_r.
  destruct (String.eqb_spec k0 k) as [->|]; [|reflexivity].
  rewrite has_own_app, has_own_cons, String.eqb_refl, orb_true_r in H1. discriminate H1.
Qed.

(** A loop that, for every property, either skips it or assigns one
    property of [out], adds the assigned properties in order when their
    keys are distinct and none is [__proto__]. *)
Lemma fold_obj_set (entry : string * value -> option (string * value))
  (body : list (string * value) -> string * value -> list (string * value)) :
  (forall out kv,
      body out kv = match entry kv with Some (k, v) => obj_set out k v | None => out end) ->
  forall (record out : list (string * value)),
    distinct_keys (out ++ omap entry record) = true ->
    has_own (omap entry record) "__proto__" = false ->
    fold_left body record out = out ++ omap entry record.
Proof.
  intros Hbody. induction record as [|kv record IH]; intros out Hd Hp.
  - simpl. rewrite app_nil_r. reflexivity.
  - cbn [fold_left]. rewrite Hbody.
    change (omap entry (kv :: record))
      with (match entry kv with Some y => y :: omap entry record | None => omap entry record end)
      in *.
    destruct (entry kv) as [[k v]|].
    + rewrite has_own_cons in Hp. apply orb_false_elim in Hp as [Hk Hp].
      rewrite obj_set_fresh by eauto using distinct_keys_middle.
      rewrite IH.
      * rewrite <- app_assoc. reflexivity.
      * rewrite <- app_assoc. exact Hd.
      * exact Hp.
    + apply IH; assumption.
Qed.

(** The loop over the properties of an object in [transformValueForEncrypt]
    ([from] is [sing_model], [to] is [pitch_model]) and in
    [transformValueForDecrypt] (the other way round). *)
Definition migrate_props (from to : string) (hasTo : bool) (T S : value -> value)
  (record : object) : object :=
  fold_left
    (fun out '(key, x) =>
       if String.eqb key from then
         if hasTo then out else obj_set out to (T x)
       else
         match String.eqb key "styles", x with
         | true, VArray entries => obj_set out "styles" (VArray (map S entries))
         | _, _ => obj_set out key (T x)
         end)
    record [].

(** What that loop does with one property: [from] is dropped when the
    object has [to] and renamed to [to] otherwise; the entries of an array
    under [styles] go through the style transform [S]; every other value
    goes through [T] under its own key. *)
Definition migrate_prop (from to : string) (hasTo : bool) (T S : value -> value)
  (kv : string * value) : option (string * value) :=
  let '(key, x) := kv in
  if String.eqb key from then
    if hasTo then None else Some (to, T x)
  else
    match String.eqb key "styles", x with
    | true, VArray entries => Some ("styles", VArray (map S entries))
    | _, _ => Some (key, T x)
    end.

Lemma has_own_migrate (from to : string) (hasTo : bool) (T S : value -> value)
  (r : list (string * value)) (k : string) :
  has_own (omap (migrate_prop from to hasTo T S) r) k = true ->
  (has_own r k = true /\ String.eqb k from = false)
  \/ (String.eqb to k = true /\ hasTo = false /\ has_own r from = true).
Proof.
  induction r as [|[k0 x] r IH]; intros H; [discriminate H|].
  change (omap (migrate_prop from to hasTo T S) ((k0, x) :: r))
    with (match migrate_prop from to hasTo T S (k0, x) with
          | Some y => y :: omap (migrate_prop from to hasTo T S) r
          | None => omap (migrate_prop from to hasTo T S) r
          end) in H.
  rewrite !has_own_cons.
  assert (Hrest : has_own (omap (migrate_prop from to hasTo T S) r) k = true ->
      (String.eqb k0 k || has_own r k = true /\ String.eqb k from = false)
      \/ (String.eqb to k = true /\ hasTo = false
          /\ String.eqb k0 from || has_own r from = true)).
  { intros H'. destruct (IH H') as [[-> ->]|(-> & -> & ->)];
      rewrite ?orb_true_r; auto. }
  unfold migrate_prop at 1 in H.
  destruct (String.eqb_spec k0 from) as [->|Hne].
  - destruct hasTo; [auto|].
    rewrite has_own_cons in H. apply orb_true_iff in H as [H|H]; [|auto].
    right. rewrite H. auto.
  - assert (Hk : String.eqb k0 k || has_own (omap (migrate_prop from to hasTo T S) r) k = true).
    { destruct (String.eqb k0 "styles") eqn:Es, x; try exact H.
      apply String.eqb_eq in Es. subst k0. exact H. }
    apply orb_true_iff in Hk as [Hk|Hk]; [|auto].
    left. rewrite Hk. split; [reflexivity|].
    apply String.eqb_eq in Hk. subst k. apply String.eqb_neq. exact Hne.
Qed.

Lemma distinct_migrate (from to : string) (hasTo : bool) (T S : value -> value)
  (r : list (string * value)) :
  distinct_keys r = true -> (hasTo = true \/ has_own r to = false) ->
  distinct_keys (omap (migrate_prop from to hasTo T S) r) = true.
Proof.
  induction r as [|[k0 x] r IH]; intros Hd Hto; [reflexivity|].
  simpl in Hd. apply andb_prop in Hd as [Hk0 Hd]. apply negb_true_iff in Hk0.
  rewrite has_own_cons in Hto.
  assert (Hto' : hasTo = true \/ has_own r to = false).
  { destruct Hto as [?|H]; [auto|]. apply orb_false_elim in H as [_ H]. auto. }
  specialize (IH Hd Hto').
  assert (Hfresh : forall k, (String.eqb k from = false -> has_own r k = false) ->
      (String.eqb to k = true -> hasTo = false -> has_own r from = false) ->
      has_own (omap (migrate_prop from to hasTo T S) r) k = false).
  { intros k H1 H2.
    destruct (has_own (omap (migrate_prop from to hasTo T S) r) k) eqn:E; [|reflexivity].
    destruct (has_own_migrate _ _ _ _ _ _ _ E) as [[Ha Hb]|(Ha & Hb & Hc)].
    - rewrite (H1 Hb) in Ha. discriminate Ha.
    - rewrite (H2 Ha Hb) in Hc. discriminate Hc. }
  change (omap (migrate_prop from to hasTo T S) ((k0, x) :: r))
    with (match migrate_prop from to hasTo T S (k0, x) with
          | Some y => y :: omap (migrate_prop from to hasTo T S) r
          | None => omap (migrate_prop from to hasTo T S) r
          end).
  unfold migrate_prop at 1.
  destruct (String.eqb_spec k0 from) as [->|Hne].
  - destruct hasTo; [exact IH|].
    cbn [distinct_keys]. rewrite IH, andb_true_r. apply negb_true_iff.
    apply Hfresh.
    + intros _. destruct Hto' as [H|H]; [discriminate H | exact H].
    + intros _ _. exact Hk0.
  - assert (Hhead : has_own (omap (migrate_prop from to hasTo T S) r) k0 = false).
    { apply Hfresh.
      - intros _. exact Hk0.
      - intros Heq Hf. apply String.eqb_eq in Heq. subst k0.
        destruct Hto as [H|H]; [congruence|].
        rewrite String.eqb_refl in H. discriminate H. }
    destruct (String.eqb k0 "styles") eqn:Es, x;
      cbn [distinct_keys]; rewrite ?Hhead, ?IH; try reflexivity.
    apply String.eqb_eq in Es. subst k0. rewrite Hhead. reflexivity.
Qed.

Lemma migrate_props_closed (from to : string) (hasTo : bool) (T S : value -> value)
  (r : list (string * value)) :
  keys_ok r = true -> String.eqb to "__proto__" = false ->
  (hasTo = true \/ has_own r to = false) ->
  migrate_props from to hasTo T S r = omap (migrate_prop from to hasTo T S) r
  /\ keys_ok (omap (migrate_prop from to hasTo T S) r) = true.
Proof.
  intros Hok Hproto Hto. unfold keys_ok in Hok. apply andb_prop in Hok as [Hd Hp].
  apply negb_true_iff in Hp.
  assert (Hd' := distinct_migrate from to hasTo T S r Hd Hto).
  assert (Hp' : has_own (omap (migrate_prop from to hasTo T S) r) "__proto__" = false).
  { destruct (has_own (omap (migrate_prop from to hasTo T S) r) "__proto__") eqn:E;
      [|reflexivity].
    destruct (has_own_migrate _ _ _ _ _ _ _ E) as [[Ha _]|(Ha & _)]; congruence. }
  split.
  - unfold migrate_props.
    apply (fold_obj_set (migrate_prop from to hasTo T S)); try assumption.
    intros out [key x]. unfold migrate_prop.
    destruct (String.eqb key from); [destruct hasTo; reflexivity|].
    destruct (String.eqb key "styles"), x; reflexivity.
  - unfold keys_ok. rewrite Hd', Hp'. reflexivity.
Qed.

(** The new value of the [extra] of a style, for the legacy form and for
    the modern form. *)
Definition encrypt_extra (x : value) : value :=
  match x with
  | VNumber n => if Number_isFinite n then VString (floatToHexLE n) else x
  | VString s => if HEX8_RE s then VString (toUpperCase s) else x
  | _ => x
  end.

Definition decrypt_extra (x : value) : value :=
  match x with
  | VString s => if HEX8_RE s then hexToFloatLE_tested s else transformValueForDecrypt x
  | _ => transformValueForDecrypt x
  end.

(** The loop over the properties of a style object: [extra] gets [X] of
    its value, every other value goes through [T]. *)
Definition style_props (X T : value -> value) (record : object) : object :=
  fold_left
    (fun out '(key, x) =>
       if String.eqb key "extra" then obj_set out "extra" (X x)
       else obj_set out key (T x))
    record [].

Definition style_prop (X T : value -> value) (kv : string * value) : string * value :=
  let '(key, x) := kv in
  if String.eqb key "extra" then (key, X x) else (key, T x).

Definition style_with (X T : value -> value) (v : value) : value :=
  match v with
  | VObject record => VObject (style_props X T record)
  | _ => T v
  end.

Lemma fold_left_pointwise {A B : Type} (f g : A -> B -> A) :
  (forall a b, f a b = g a b) -> forall l a, fold_left f l a = fold_left g l a.
Proof.
  intros H l. induction l as [|b l IH]; intros a; [reflexivity|].
  simpl. rewrite H. apply IH.
Qed.

Lemma transformStyleForEncrypt_with_eq (T : value -> value) (v : value) :
  transformStyleForEncrypt_with T v = style_with encrypt_extra T v.
Proof.
  destruct v; try reflexivity. simpl. f_equal. unfold style_props.
  apply fold_left_pointwise. intros out [key x].
  destruct (String.eqb key "extra"); [|reflexivity].
  destruct x as [| | |n|s| |]; simpl; try reflexivity.
  - destruct (Number_isFinite n); reflexivity.
  - destruct (HEX8_RE s); reflexivity.
Qed.

Lemma transformStyleForDecrypt_with_eq (v : value) :
  transformStyleForDecrypt_with transformValueForDecrypt v
  = style_with decrypt_extra transformValueForDecrypt v.
Proof.
  destruct v; try reflexivity. simpl. f_equal. unfold style_props.
  apply fold_left_pointwise. intros out [key x].
  destruct (String.eqb key "extra"); [|reflexivity].
  destruct x as [| | |n|s| |]; simpl; try reflexivity.
  destruct (HEX8_RE s); reflexivity.
Qed.

Lemma transformValueForEncrypt_object (r : list (string * value)) :
  transformValueForEncrypt (VObject r)
  = VObject (migrate_props "sing_model" "pitch_model" (has_own r "pitch_model")
               transformValueForEncrypt (style_with encrypt_extra transformValueForEncrypt) r).
Proof.
  simpl. f_equal. unfold migrate_props.
  apply fold_left_pointwise. intros out [key x].
  destruct (String.eqb key "sing_model"); [reflexivity|].
  destruct (String.eqb key "styles"), x; try reflexivity.
  do 2 f_equal. apply map_ext. intros e. apply transformStyleForEncrypt_with_eq.
Qed.

Lemma transformValueForDecrypt_object (r : list (string * value)) :
  transformValueForDecrypt (VObject r)
  = VObject (migrate_props "pitch_model" "sing_model" (has_own r "sing_model")
               transformValueForDecrypt (style_with decrypt_extra transformValueForDecrypt) r).
Proof.
  simpl. f_equal. unfold migrate_props.
  apply fold_left_pointwise. intros out [key x].
  destruct (String.eqb key "pitch_model"); [reflexivity|].
  destruct (String.eqb key "styles"), x; try reflexivity.
  do 2 f_equal. apply map_ext. intros e. apply transformStyleForDecrypt_with_eq.
Qed.

Lemma omap_Some {A B : Type} (f : A -> B) (l : list A) :
  omap (fun x => Some (f x)) l = map f l.
Proof. induction l as [|x l IH]; [reflexivity|]. cbn. rewrite IH. reflexivity. Qed.

Lemma has_own_style (X T : value -> value) (r : list (string * value)) (k : string) :
  has_own (map (style_prop X T) r) k = has_own r k.
Proof.
  induction r as [|[k0 x] r IH]; [reflexivity|].
  cbn [map]. unfold style_prop at 1.
  destruct (String.eqb k0 "extra"); rewrite !has_own_cons, IH; reflexivity.
Qed.

Lemma keys_ok_style (X T : value -> value) (r : list (string * value)) :
  keys_ok (map (style_prop X T) r) = keys_ok r.
Proof.
  unfold keys_ok. rewrite has_own_style. f_equal.
  induction r as [|[k0 x] r IH]; [reflexivity|].
  cbn [map]. unfold style_prop at 1.
  destruct (String.eqb k0 "extra"); cbn [distinct_keys]; rewrite has_own_style, IH;
    reflexivity.
Qed.

Lemma style_props_closed (X T : value -> value) (r : list (string * value)) :
  keys_ok r = true -> style_props X T r = map (style_prop X T) r.
Proof.
  intros Hok. rewrite <- (keys_ok_style X T) in Hok.
  unfold keys_ok in Hok. apply andb_prop in Hok as [Hd Hp]. apply negb_true_iff in Hp.
  rewrite <- omap_Some in *. unfold style_props.
  apply (fold_obj_set (fun kv => Some (style_prop X T kv))); try assumption.
  intros out [key x]. unfold style_prop.
  destruct (String.eqb_spec key "extra") as [->|]; reflexivity.
Qed.

Lemma has_own_migrate_from (from to : string) (hasTo : bool) (T S : value -> value)
  (r : list (string * value)) :
  String.eqb to from = false ->
  has_own (omap (migrate_prop from to hasTo T S) r) from = false.
Proof.
  intros Hne.
  destruct (has_own (omap (migrate_prop from to hasTo T S) r) from) eqn:E; [|reflexivity].
  destruct (has_own_migrate _ _ _ _ _ _ _ E) as [[_ H]|[H _]].
  - rewrite String.eqb_refl in H. discriminate H.
  - congruence.
Qed.

Lemma obj_get_migrate_renamed (from to : string) (T S : value -> value)
  (r : list (string * value)) :
  has_own r to = false -> has_own r from = true ->
  obj_get (omap (migrate_prop from to false T S) r) to = T (obj_get r from).
Proof.
  induction r as [|[k0 x] r IH]; intros Hto Hfrom; [discriminate Hfrom|].
  rewrite has_own_cons in Hto, Hfrom. apply orb_false_elim in Hto as [Hk0 Hto].
  change (omap (migrate_prop from to false T S) ((k0, x) :: r))
    with (match migrate_prop from to false T S (k0, x) with
          | Some y => y :: omap (migrate_prop from to false T S) r
          | None => omap (migrate_prop from to false T S) r
          end).
  unfold migrate_prop at 1. cbn [obj_get].
  destruct (String.eqb k0 from) eqn:Ef.
  - cbn [obj_get]. rewrite String.eqb_refl. reflexivity.
  - simpl in Hfrom.
    destruct (String.eqb k0 "styles") eqn:Es, x; cbn [obj_get];
      try (rewrite Hk0; apply IH; assumption).
    apply String.eqb_eq in Es. subst k0. rewrite Hk0. apply IH; assumption.
Qed.

Lemma obj_get_migrate_kept (from to : string) (hasTo : bool) (T S : value -> value)
  (r : list (string * value)) (k : string) :
  String.eqb k from = false -> String.eqb k "styles" = false ->
  (hasTo = true \/ String.eqb to k = false) ->
  has_own r k = true ->
  obj_get (omap (migrate_prop from to hasTo T S) r) k = T (obj_get r k).
Proof.
  intros Hkf Hks Hto.
  assert (Hfk : String.eqb from k = false) by (rewrite String.eqb_sym; exact Hkf).
  assert (Hsk : String.eqb "styles" k = false) by (rewrite String.eqb_sym; exact Hks).
  induction r as [|[k0 x] r IH]; intros Hk; [discriminate Hk|].
  rewrite has_own_cons in Hk.
  change (omap (migrate_prop from to hasTo T S) ((k0, x) :: r))
    with (match migrate_prop from to hasTo T S (k0, x) with
          | Some y => y :: omap (migrate_prop from to hasTo T S) r
          | None => omap (migrate_prop from to hasTo T S) r
          end).
  unfold migrate_prop at 1.
  destruct (String.eqb_spec k0 from) as [->|Hne].
  - rewrite Hfk in Hk. simpl in Hk. cbn [obj_get]. rewrite Hfk.
    destruct hasTo; [apply IH; exact Hk|].
    destruct Hto as [H|H]; [discriminate H|].
    cbn [obj_get]. rewrite H. apply IH. exact Hk.
  - destruct (String.eqb k0 k) eqn:Ek.
    + apply String.eqb_eq in Ek. subst k0. rewrite Hks.
      cbn [obj_get]. rewrite String.eqb_refl. reflexivity.
    + simpl in Hk.
      destruct (String.eqb k0 "styles") eqn:Es, x; cbn [obj_get];
        rewrite ?Ek, ?Hsk; apply IH; exact Hk.
Qed.

(** The own properties of an object, none for any other value. *)
Definition props_of (v : value) : object :=
  match v with VObject r => r | _ => [] end.

Lemma omap_cons {A B : Type} (f : A -> option B) (x : A) (l : list A) :
  omap f (x :: l) = match f x with Some y => y :: omap f l | None => omap f l end.
Proof. reflexivity. Qed.

(** The properties that a loop of assignments [out[key] = ...] can copy:
    all but an own [__proto__], which reaches the setter of
    [Object.prototype] and adds no own property. *)
Definition copyable (r : object) : object :=
  List.filter (fun kv => negb (String.eqb (fst kv) "__proto__")) r.

Lemma distinct_keys_remove (a b : list (string * value)) (k : string) (v : value) :
  distinct_keys (a ++ (k, v) :: b) = true -> distinct_keys (a ++ b) = true.
Proof.
  induction a as [|[k0 v0] a IH]; intros H.
  - cbn [app distinct_keys] in H. apply andb_prop in H as [_ H]. exact H.
  - cbn [app distinct_keys] in *. apply andb_prop in H as [H1 H2].
    rewrite (IH H2), andb_true_r.
    apply negb_true_iff in H1. apply negb_true_iff.
    rewrite has_own_app, has_own_cons in H1.
    apply orb_false_elim in H1 as [Ha H1]. apply orb_false_elim in H1 as [_ Hb].
    rewrite has_own_app, Ha, Hb. reflexivity.
Qed.

(** A loop that, for every property, either skips it or assigns one
    property of [out], adds the assigned properties in order when their
    keys are distinct, but for those of key [__proto__]. *)
Lemma fold_obj_set_copyable (entry : string * value -> option (string * value))
  (body : list (string * value) -> string * value -> list (string * value)) :
  (forall out kv,
      body out kv = match entry kv with Some (k, v) => obj_set out k v | None => out end) ->
  forall (record out : list (string * value)),
    distinct_keys (out ++ omap entry record) = true ->
    fold_left body record out = out ++ copyable (omap entry record).
Proof.
  intros Hbody. induction record as [|kv record IH]; intros out Hd.
  - simpl. rewrite app_nil_r. reflexivity.
  - cbn [fold_left]. rewrite Hbody.
    change (omap entry (kv :: record))
      with (match entry kv with Some y => y :: omap entry record | None => omap entry record end)
      in *.
    destruct (entry kv) as [[k v]|]; [|apply IH; exact Hd].
    unfold copyable. cbn [List.filter fst]. fold (copyable (omap entry record)).
    destruct (String.eqb k "__proto__") eqn:Ep; cbn [negb].
    + unfold obj_set. rewrite Ep. apply IH. exact (distinct_keys_remove _ _ _ _ Hd).
    + rewrite obj_set_fresh by eauto using distinct_keys_middle.
      rewrite IH by (rewrite <- app_assoc; exact Hd).
      rewrite <- app_assoc. reflexivity.
Qed.

Lemma has_own_copyable (r : list (string * value)) (k : string) :
  String.eqb k "__proto__" = false -> has_own (copyable r) k = has_own r k.
Proof.
  intros Hk. induction r as [|[k0 v0] r IH]; [reflexivity|].
  unfold copyable. cbn [List.filter fst]. fold (copyable r).
  destruct (String.eqb_spec k0 "__proto__") as [->|Hne]; cbn [negb].
  - rewrite has_own_cons, IH, String.eqb_sym, Hk. reflexivity.
  - rewrite !has_own_cons, IH. reflexivity.
Qed.

Lemma obj_get_copyable (r : list (string * value)) (k : string) :
  String.eqb k "__proto__" = false -> obj_get (copyable r) k = obj_get r k.
Proof.
  intros Hk. induction r as [|[k0 v0] r IH]; [reflexivity|].
  unfold copyable. cbn [List.filter fst]. fold (copyable r).
  destruct (String.eqb_spec k0 "__proto__") as [->|Hne]; cbn [negb obj_get].
  - rewrite IH, String.eqb_sym, Hk. reflexivity.
  - rewrite IH. reflexivity.
Qed.

Lemma migrate_prop_key (from to : string) (hasTo : bool) (T S : value -> value)
  (k : string) (x : value) (k' : string) (v' : value) :
  String.eqb from "__proto__" = false -> String.eqb to "__proto__" = false ->
  migrate_prop from to hasTo T S (k, x) = Some (k', v') ->
  String.eqb k' "__proto__" = String.eqb k "__proto__".
Proof.
  intros Hf Ht. unfold migrate_prop.
  destruct (String.eqb_spec k from) as [->|Hne].
  - destruct hasTo; [discriminate|]. intros [= <- <-]. rewrite Hf, Ht. reflexivity.
  - destruct (String.eqb_spec k "styles") as [->|Hs], x; intros [= <- <-]; reflexivity.
Qed.

Lemma copyable_omap_migrate (from to : string) (hasTo : bool) (T S : value -> value)
  (r : list (string * value)) :
  String.eqb from "__proto__" = false -> String.eqb to "__proto__" = false ->
  copyable (omap (migrate_prop from to hasTo T S) r)
  = omap (migrate_prop from to hasTo T S) (copyable r).
Proof.
  intros Hf Ht. induction r as [|[k x] r IH]; [reflexivity|].
  rewrite omap_cons.
  assert (Hr : copyable ((k, x) :: r)
               = if String.eqb k "__proto__" then copyable r else (k, x) :: copyable r).
  { unfold copyable. cbn [List.filter fst]. destruct (String.eqb k "__proto__"); reflexivity. }
  rewrite Hr.
  destruct (migrate_prop from to hasTo T S (k, x)) as [[k' v']|] eqn:E.
  - pose proof (migrate_prop_key _ _ _ _ _ _ _ _ _ Hf Ht E) as Hk.
    assert (Hl : copyable ((k', v') :: omap (migrate_prop from to hasTo T S) r)
                 = if String.eqb k' "__proto__"
                   then copyable (omap (migrate_prop from to hasTo T S) r)
                   else (k', v') :: copyable (omap (migrate_prop from to hasTo T S) r)).
    { unfold copyable. cbn [List.filter fst]. destruct (String.eqb k' "__proto__"); reflexivity. }
    rewrite Hl, Hk. destruct (String.eqb k "__proto__"); [exact IH|].
    rewrite omap_cons, E, IH. reflexivity.
  - destruct (String.eqb k "__proto__"); [exact IH|].
    rewrite omap_cons, E. exact IH.
Qed.

Lemma distinct_keys_style (X T : value -> value) (r : list (string * value)) :
  distinct_keys (map (style_prop X T) r) = distinct_keys r.
Proof.
  induction r as [|[k0 x] r IH]; [reflexivity|].
  cbn [map]. unfold style_prop at 1.
  destruct (String.eqb k0 "extra"); cbn [distinct_keys]; rewrite has_own_style, IH;
    reflexivity.
Qed.

(** C5 (as the code has it).  [transformValueForEncrypt] maps over the
    elements of an array, and in an object it treats every property by
    [migrate_prop] and keeps of the result all but a property
    [__proto__]: [sing_model] becomes [pitch_model] with the transformed
    value when the object has no [pitch_model] and is dropped when it has
    one; the entries of an array under [styles] go through
    [transformStyleForEncrypt]; every other value is transformed under its
    own key.  An object that is an entry of a [styles] array keeps all its
    keys but [__proto__], [sing_model] among them: its [extra] is
    re-encoded and its other values are transformed.  (The keys of an
    object are distinct.) *)
Theorem transformValueForEncrypt_renames :
  (forall items,
      transformValueForEncrypt (VArray items) = VArray (map transformValueForEncrypt items))
  /\ (forall r, distinct_keys r = true ->
        transformValueForEncrypt (VObject r)
        = VObject (copyable
                     (omap (migrate_prop "sing_model" "pitch_model" (has_own r "pitch_model")
                              transformValueForEncrypt transformStyleForEncrypt) r)))
  /\ (forall r, distinct_keys r = true ->
        has_own r "sing_model" = true -> has_own r "pitch_model" = false ->
        has_own (props_of (transformValueForEncrypt (VObject r))) "sing_model" = false
        /\ obj_get (props_of (transformValueForEncrypt (VObject r))) "pitch_model"
           = transformValueForEncrypt (obj_get r "sing_model"))
  /\ (forall r, distinct_keys r = true -> has_own r "pitch_model" = true ->
        has_own (props_of (transformValueForEncrypt (VObject r))) "sing_model" = false
        /\ obj_get (props_of (transformValueForEncrypt (VObject r))) "pitch_model"
           = transformValueForEncrypt (obj_get r "pitch_model"))
  /\ (forall r, distinct_keys r = true ->
        transformStyleForEncrypt (VObject r)
        = VObject (copyable (map (style_prop encrypt_extra transformValueForEncrypt) r)))
  /\ (forall v, isPlainObject v = false ->
        transformStyleForEncrypt v = transformValueForEncrypt v).
Proof.
  assert (Hobj : forall r, distinct_keys r = true ->
        transformValueForEncrypt (VObject r)
        = VObject (copyable
                     (omap (migrate_prop "sing_model" "pitch_model" (has_own r "pitch_model")
                              transformValueForEncrypt transformStyleForEncrypt) r))).
  { intros r Hd. rewrite transformValueForEncrypt_object. f_equal.
    unfold migrate_props.
    rewrite (fold_obj_set_copyable
               (migrate_prop "sing_model" "pitch_model" (has_own r "pitch_model")
                  transformValueForEncrypt
                  (style_with encrypt_extra transformValueForEncrypt))).
    - cbn [app]. f_equal.
      apply list_omap_ext. apply Forall2_same_length_lookup. split; [reflexivity|].
      intros i kv kv' H1 H2. rewrite H1 in H2. injection H2 as <-.
      destruct kv as [key x]. unfold migrate_prop.
      destruct (String.eqb key "sing_model"); [reflexivity|].
      destruct (String.eqb key "styles"), x; try reflexivity.
      do 3 f_equal. apply map_ext. intros e. symmetry.
      apply transformStyleForEncrypt_with_eq.
    - intros out [key x]. unfold migrate_prop.
      destruct (String.eqb key "sing_model");
        [destruct (has_own r "pitch_model"); reflexivity|].
      destruct (String.eqb key "styles"), x; reflexivity.
    - cbn [app]. apply distinct_migrate; [exact Hd|].
      destruct (has_own r "pitch_model"); auto. }
  assert (Hcopy : forall r hasTo,
        copyable (omap (migrate_prop "sing_model" "pitch_model" hasTo
                          transformValueForEncrypt transformStyleForEncrypt) r)
        = omap (migrate_prop "sing_model" "pitch_model" hasTo
                  transformValueForEncrypt transformStyleForEncrypt) (copyable r)).
  { intros r hasTo. apply copyable_omap_migrate; reflexivity. }
  split; [reflexivity|]. split; [exact Hobj|].
  split; [|split; [|split]].
  - intros r Hd Hs Hp. rewrite (Hobj r Hd), Hp, Hcopy. cbn [props_of]. split.
    + apply has_own_migrate_from. reflexivity.
    + rewrite obj_get_migrate_renamed by (rewrite has_own_copyable by reflexivity; assumption).
      rewrite obj_get_copyable by reflexivity. reflexivity.
  - intros r Hd Hp. rewrite (Hobj r Hd), Hp, Hcopy. cbn [props_of]. split.
    + apply has_own_migrate_from. reflexivity.
    + rewrite obj_get_migrate_kept;
        [rewrite obj_get_copyable by reflexivity; reflexivity
        | reflexivity | reflexivity | auto
        | rewrite has_own_copyable by reflexivity; exact Hp].
  - intros r Hd. unfold transformStyleForEncrypt.
    rewrite transformStyleForEncrypt_with_eq. cbn [style_with]. f_equal.
    unfold style_props.
    rewrite (fold_obj_set_copyable
               (fun kv => Some (style_prop encrypt_extra transformValueForEncrypt kv))).
    + cbn [app]. rewrite omap_Some. reflexivity.
    + intros out [key x]. unfold style_prop.
      destruct (String.eqb_spec key "extra") as [->|]; reflexivity.
    + cbn [app]. rewrite omap_Some, distinct_keys_style. exact Hd.
  - intros v Hv. destruct v; try reflexivity. discriminate Hv.
Qed.

(** On the test document [sing_model] is renamed and the style keeps its
    keys; an own [__proto__] is not copied. *)
Lemma transformValueForEncrypt_renames_witness :
  transformValueForEncrypt test_document
  = VObject (copyable
               (omap (migrate_prop "sing_model" "pitch_model" false
                        transformValueForEncrypt transformStyleForEncrypt)
                  (props_of test_document)))
  /\ transformValueForEncrypt
       (VObject [("__proto__", VObject [("x", VNull)]); ("sing_model", VString "abc123")])
     = VObject [("pitch_model", VString "abc123")].
Proof.
  split.
  - apply (proj1 (proj2 transformValueForEncrypt_renames) (props_of test_document)).
    reflexivity.
  - rewrite (proj1 (proj2 transformValueForEncrypt_renames)
               [("__proto__", VObject [("x", VNull)]); ("sing_model", VString "abc123")]
               eq_refl).
    reflexivity.
Defined.

(** An entry of a [styles] array that has [sing_model] and no
    [pitch_model] comes out unchanged: the key is not renamed there. *)
Lemma transformValueForEncrypt_style_entry_not_renamed :
  transformValueForEncrypt
    (VObject [("styles", VArray [VObject [("sing_model", VString "abc123")]])])
  = VObject [("styles", VArray [VObject [("sing_model", VString "abc123")]])].
Proof. vm_compute. reflexivity. Qed.

(** *** Round trips of the migration *)

(** The style entries that a round trip gives back: an object with
    distinct keys whose [extra] satisfies [extra_ok] and whose other values
    satisfy [ok]; any other value that satisfies [ok]. *)
Definition style_ok_with (extra_ok ok : value -> bool) (v : value) : bool :=
  match v with
  | VObject r =>
      keys_ok r
      && forallb (fun '(k, x) => if String.eqb k "extra" then extra_ok x else ok x) r
  | _ => ok v
  end.

(** The documents that a transform followed by its opposite gives back:
    no object outside the [styles] entries has the key [to] that the first
    transform renames to, keys are distinct and none is [__proto__], and
    the [extra] of every style satisfies [extra_ok]. *)
Fixpoint migrate_ok (to : string) (extra_ok : value -> bool) (v : value) : bool :=
  match v with
  | VArray items => forallb (migrate_ok to extra_ok) items
  | VObject r =>
      keys_ok r && negb (has_own r to)
      && forallb
           (fun '(k, x) =>
              match String.eqb k "styles", x with
              | true, VArray entries =>
                  forallb (style_ok_with extra_ok (migrate_ok to extra_ok)) entries
              | _, _ => migrate_ok to extra_ok x
              end) r
  | _ => true
  end.

Lemma map_round_trip {A : Type} (f g : A -> A) (ok : A -> bool) (l : list A) :
  Forall (fun x => ok x = true -> g (f x) = x) l ->
  forallb ok l = true -> map g (map f l) = l.
Proof.
  induction 1 as [|x l Hx _ IH]; intros Hok; [reflexivity|].
  simpl in Hok. apply andb_prop in Hok as [H1 H2].
  simpl. rewrite (Hx H1), (IH H2). reflexivity.
Qed.

Lemma migrate_prop_from (from to : string) (hasTo : bool) (T S : value -> value) (x : value) :
  migrate_prop from to hasTo T S (from, x) = if hasTo then None else Some (to, T x).
Proof. unfold migrate_prop. rewrite String.eqb_refl. reflexivity. Qed.

Lemma migrate_prop_styles (from to : string) (hasTo : bool) (T S : value -> value)
  (entries : list value) :
  String.eqb from "styles" = false ->
  migrate_prop from to hasTo T S ("styles"%string, VArray entries)
  = Some ("styles"%string, VArray (map S entries)).
Proof.
  intros H. unfold migrate_prop. rewrite String.eqb_sym, H. reflexivity.
Qed.

Lemma migrate_prop_other (from to : string) (hasTo : bool) (T S : value -> value)
  (k : string) (x : value) :
  String.eqb k from = false ->
  (forall entries, String.eqb k "styles" = true -> x <> VArray entries) ->
  migrate_prop from to hasTo T S (k, x) = Some (k, T x).
Proof.
  intros Hk Hna. unfold migrate_prop. rewrite Hk.
  destruct (String.eqb k "styles"); [|reflexivity].
  destruct x; try reflexivity. destruct (Hna _ eq_refl eq_refl).
Qed.

Section Migration.

Variables from to : string.
Variables T1 X1 T2 X2 : value -> value.
Variable extra_ok : value -> bool.

Hypothesis from_to : String.eqb from to = false.
Hypothesis from_proto : String.eqb from "__proto__" = false.
Hypothesis to_proto : String.eqb to "__proto__" = false.
Hypothesis from_styles : String.eqb from "styles" = false.
Hypothesis to_styles : String.eqb to "styles" = false.

Hypothesis T1_array : forall items, T1 (VArray items) = VArray (map T1 items).
Hypothesis T1_object : forall r,
  T1 (VObject r) = VObject (migrate_props from to (has_own r to) T1 (style_with X1 T1) r).
Hypothesis T1_other : forall v,
  Array_isArray v = false -> isPlainObject v = false -> T1 v = v.

Hypothesis T2_array : forall items, T2 (VArray items) = VArray (map T2 items).
Hypothesis T2_object : forall r,
  T2 (VObject r) = VObject (migrate_props to from (has_own r from) T2 (style_with X2 T2) r).
Hypothesis T2_other : forall v,
  Array_isArray v = false -> isPlainObject v = false -> T2 v = v.

Hypothesis X_round_trip : forall x, extra_ok x = true -> X2 (X1 x) = x.

Local Abbreviation S1 := (style_with X1 T1).
Local Abbreviation S2 := (style_with X2 T2).
Local Abbreviation ok := (migrate_ok to extra_ok).
Local Abbreviation style_ok := (style_ok_with extra_ok (migrate_ok to extra_ok)).

(** What the induction carries for a value: the round trip as a plain
    value, as a style entry, and entry by entry as a [styles] array. *)
Definition round_trips (v : value) : Prop :=
  (ok v = true -> T2 (T1 v) = v)
  /\ (style_ok v = true -> S2 (S1 v) = v)
  /\ (forall entries, v = VArray entries ->
        forallb style_ok entries = true -> map S2 (map S1 entries) = entries).

Lemma T1_not_array (x : value) : Array_isArray x = false -> Array_isArray (T1 x) = false.
Proof.
  destruct x; intros H; try discriminate H;
    try (rewrite T1_other by reflexivity; reflexivity).
  rewrite T1_object. reflexivity.
Qed.

Lemma T1_not_object (x : value) : isPlainObject x = false -> isPlainObject (T1 x) = false.
Proof.
  destruct x; intros H; try discriminate H;
    try (rewrite T1_other by reflexivity; reflexivity).
  rewrite T1_array. reflexivity.
Qed.

Lemma props_round_trip (r : list (string * value)) :
  has_own r to = false ->
  Forall (fun kv => round_trips (snd kv)) r ->
  forallb
    (fun '(k, x) =>
       match String.eqb k "styles", x with
       | true, VArray entries => forallb style_ok entries
       | _, _ => ok x
       end) r = true ->
  omap (migrate_prop to from false T2 S2) (omap (migrate_prop from to false T1 S1) r) = r.
Proof.
  intros Hto HF. revert Hto.
  induction HF as [|[k x] r Hx _ IH]; intros Hto Hok; [reflexivity|].
  rewrite has_own_cons in Hto. apply orb_false_elim in Hto as [Hk Hto].
  cbn [forallb] in Hok. apply andb_prop in Hok as [Hokx Hok].
  specialize (IH Hto Hok). cbn [snd] in Hx. destruct Hx as (Hv & _ & Harr).
  assert (Hplain : ok x = true ->
      (forall entries, String.eqb k "styles" = true -> x <> VArray entries) ->
      String.eqb k from = false ->
      omap (migrate_prop to from false T2 S2)
        (omap (migrate_prop from to false T1 S1) ((k, x) :: r)) = (k, x) :: r).
  { intros Hx Hna Hkf.
    rewrite omap_cons, (migrate_prop_other from to false T1 S1 k x Hkf Hna).
    rewrite omap_cons, (migrate_prop_other to from false T2 S2 k (T1 x) Hk).
    - rewrite IH, (Hv Hx). reflexivity.
    - intros entries Hs E1.
      assert (Hf : Array_isArray (T1 x) = false).
      { apply T1_not_array. destruct x; try reflexivity. destruct (Hna _ Hs eq_refl). }
      rewrite E1 in Hf. discriminate Hf. }
  destruct (String.eqb_spec k from) as [->|Hne].
  - rewrite from_styles in Hokx.
    rewrite omap_cons, migrate_prop_from, omap_cons, migrate_prop_from.
    rewrite IH, Hv; [reflexivity|]. destruct x; exact Hokx.
  - apply String.eqb_neq in Hne.
    destruct (String.eqb k "styles") eqn:Es.
    + destruct x as [| | | | |entries|];
        try (apply Hplain; [exact Hokx | intros e _ E; discriminate E | reflexivity]).
      apply String.eqb_eq in Es. subst k.
      rewrite omap_cons, migrate_prop_styles by exact from_styles.
      rewrite omap_cons, migrate_prop_styles by exact to_styles.
      rewrite IH, (Harr entries eq_refl Hokx). reflexivity.
    + apply Hplain; [destruct x; exact Hokx | intros e E; discriminate E | reflexivity].
Qed.

Lemma style_props_round_trip (r : list (string * value)) :
  Forall (fun kv => round_trips (snd kv)) r ->
  forallb (fun '(k, x) => if String.eqb k "extra" then extra_ok x else ok x) r = true ->
  map (style_prop X2 T2) (map (style_prop X1 T1) r) = r.
Proof.
  induction 1 as [|[k x] r Hx _ IH]; intros Hok; [reflexivity|].
  cbn [forallb] in Hok. apply andb_prop in Hok as [Hokx Hok].
  cbn [map]. rewrite (IH Hok). f_equal.
  cbn [snd] in Hx. destruct Hx as (Hv & _).
  unfold style_prop. destruct (String.eqb k "extra") eqn:Ee; rewrite Ee.
  - rewrite (X_round_trip x Hokx). reflexivity.
  - rewrite (Hv Hokx). reflexivity.
Qed.

Lemma round_trips_all (v : value) : round_trips v.
Proof.
  induction v as [| | b | n | s | items IH | r IH] using value_ind;
    try (split; [|split]; [| |intros e E; discriminate E];
         intros _; cbn [style_with]; rewrite T1_other by reflexivity;
         cbn [style_with]; rewrite T2_other by reflexivity; reflexivity).
  - assert (Hmap : forallb ok items = true -> T2 (T1 (VArray items)) = VArray items).
    { intros Hok. rewrite T1_array, T2_array. f_equal.
      apply (map_round_trip T1 T2 ok); [|exact Hok].
      eapply Forall_impl; [exact IH|]. intros x Hx. exact (proj1 Hx). }
    split; [exact Hmap|]. split.
    { intros Hok. cbn [style_with]. rewrite T1_array. cbn [style_with].
      rewrite <- T1_array. exact (Hmap Hok). }
    intros entries [= <-] Hok.
    apply (map_round_trip S1 S2 style_ok); [|exact Hok].
    eapply Forall_impl; [exact IH|]. intros x Hx. exact (proj1 (proj2 Hx)).
  - split; [|split]; [| |intros e E; discriminate E].
    + intros Hok. cbn [migrate_ok] in Hok.
      apply andb_prop in Hok as [Hok Hprops]. apply andb_prop in Hok as [Hkeys Hto].
      apply negb_true_iff in Hto.
      rewrite T1_object, Hto.
      destruct (migrate_props_closed from to false T1 S1 r Hkeys to_proto (or_intror Hto))
        as [-> Hkeys1].
      assert (Hfrom1 : has_own (omap (migrate_prop from to false T1 S1) r) from = false).
      { apply has_own_migrate_from. rewrite String.eqb_sym. exact from_to. }
      rewrite T2_object, Hfrom1.
      destruct (migrate_props_closed to from false T2 S2 _ Hkeys1 from_proto
                  (or_intror Hfrom1)) as [-> _].
      f_equal. apply props_round_trip; assumption.
    + intros Hok. cbn [style_ok_with] in Hok. apply andb_prop in Hok as [Hkeys Hprops].
      cbn [style_with]. rewrite (style_props_closed X1 T1 r Hkeys).
      rewrite style_props_closed by (rewrite keys_ok_style; exact Hkeys).
      f_equal. apply style_props_round_trip; assumption.
Qed.

Lemma migrate_round_trip (v : value) : migrate_ok to extra_ok v = true -> T2 (T1 v) = v.
Proof. exact (proj1 (round_trips_all v)). Qed.

End Migration.

(** *** The documents that do not come back *)

(** A document as [JSON.parse] gives it: the keys of every object are
    distinct. *)
Fixpoint deep_distinct (v : value) : bool :=
  match v with
  | VArray items => forallb deep_distinct items
  | VObject r => distinct_keys r && forallb (fun kv => deep_distinct (snd kv)) r
  | _ => true
  end.

Lemma has_own_obj_update (o : list (string * value)) (k : string) (v : value) (k0 : string) :
  has_own (obj_update o k v) k0 = has_own o k0.
Proof.
  induction o as [|[k' v'] o IH]; [reflexivity|].
  cbn [obj_update]. destruct (String.eqb k' k); rewrite !has_own_cons; [reflexivity|].
  rewrite IH. reflexivity.
Qed.

(** An assignment adds no own property but the one of its key, and none
    at all when the key is [__proto__]. *)
Lemma has_own_obj_set (o : list (string * value)) (k : string) (v : value) (k0 : string) :
  String.eqb k k0 = false \/ String.eqb k "__proto__" = true ->
  has_own (obj_set o k v) k0 = has_own o k0.
Proof.
  intros Hk. unfold obj_set. destruct (String.eqb k "__proto__") eqn:Ep; [reflexivity|].
  destruct Hk as [Hk|Hk]; [|discriminate Hk].
  destruct (has_own o k); [apply has_own_obj_update|].
  rewrite has_own_app, has_own_cons, Hk, orb_false_r. reflexivity.
Qed.

Lemma has_own_obj_set_proto (o : list (string * value)) (k : string) (v : value) :
  has_own (obj_set o k v) "__proto__" = has_own o "__proto__".
Proof.
  apply has_own_obj_set. destruct (String.eqb k "__proto__"); auto.
Qed.

Lemma fold_never_own {A : Type} (body : list (string * value) -> A -> list (string * value))
  (k0 : string) :
  (forall out a, has_own out k0 = false -> has_own (body out a) k0 = false) ->
  forall l out, has_own out k0 = false -> has_own (fold_left body l out) k0 = false.
Proof.
  intros Hbody l. induction l as [|a l IH]; intros out H; [exact H|].
  cbn [fold_left]. apply IH, Hbody, H.
Qed.

(** The result of either loop owns no [__proto__], and no [from]. *)
Lemma migrate_props_no_proto (from to : string) (hasTo : bool) (T S : value -> value)
  (r : list (string * value)) :
  has_own (migrate_props from to hasTo T S r) "__proto__" = false.
Proof.
  unfold migrate_props. apply fold_never_own; [|reflexivity].
  intros out [key x] H.
  destruct (String.eqb key from); [destruct hasTo|];
    [exact H | rewrite has_own_obj_set_proto; exact H |].
  destruct (String.eqb key "styles"), x; rewrite has_own_obj_set_proto; exact H.
Qed.

Lemma migrate_props_no_from (from to : string) (hasTo : bool) (T S : value -> value)
  (r : list (string * value)) :
  String.eqb to from = false -> String.eqb from "styles" = false ->
  has_own (migrate_props from to hasTo T S r) from = false.
Proof.
  intros Hto Hst. unfold migrate_props. apply fold_never_own; [|reflexivity].
  intros out [key x] H.
  destruct (String.eqb_spec key from) as [->|Hne].
  - destruct hasTo; [exact H|]. rewrite has_own_obj_set by auto. exact H.
  - apply String.eqb_neq in Hne.
    destruct (String.eqb_spec key "styles") as [->|Hs], x;
      rewrite has_own_obj_set by auto; exact H.
Qed.

Lemma style_props_no_proto (X T : value -> value) (r : list (string * value)) :
  has_own (style_props X T r) "__proto__" = false.
Proof.
  unfold style_props. apply fold_never_own; [|reflexivity].
  intros out [key x] H.
  destruct (String.eqb key "extra"); rewrite has_own_obj_set_proto; exact H.
Qed.

Lemma map_fixed {A : Type} (f g : A -> A) (l : list A) :
  map g (map f l) = l -> Forall (fun x => g (f x) = x) l.
Proof.
  induction l as [|x l IH]; intros H; [constructor|].
  cbn [map] in H. injection H as H1 H2. constructor; [exact H1 | exact (IH H2)].
Qed.

Section MigrationExact.

Variables from to : string.
Variables T1 X1 T2 X2 : value -> value.
Variable extra_ok : value -> bool.

Hypothesis from_to : String.eqb from to = false.
Hypothesis from_proto : String.eqb from "__proto__" = false.
Hypothesis to_proto : String.eqb to "__proto__" = false.
Hypothesis from_styles : String.eqb from "styles" = false.
Hypothesis to_styles : String.eqb to "styles" = false.

Hypothesis T1_array : forall items, T1 (VArray items) = VArray (map T1 items).
Hypothesis T1_object : forall r,
  T1 (VObject r) = VObject (migrate_props from to (has_own r to) T1 (style_with X1 T1) r).
Hypothesis T1_other : forall v,
  Array_isArray v = false -> isPlainObject v = false -> T1 v = v.

Hypothesis T2_array : forall items, T2 (VArray items) = VArray (map T2 items).
Hypothesis T2_object : forall r,
  T2 (VObject r) = VObject (migrate_props to from (has_own r from) T2 (style_with X2 T2) r).
Hypothesis T2_other : forall v,
  Array_isArray v = false -> isPlainObject v = false -> T2 v = v.

Hypothesis X_exact : forall x, X2 (X1 x) = x -> extra_ok x = true.

Local Abbreviation S1 := (style_with X1 T1).
Local Abbreviation S2 := (style_with X2 T2).
Local Abbreviation ok := (migrate_ok to extra_ok).
Local Abbreviation style_ok := (style_ok_with extra_ok (migrate_ok to extra_ok)).

(** What the induction carries for a value: a value that comes back, as a
    plain value, as a style entry, or entry by entry as a [styles] array,
    is one of the documents of [migrate_ok]. *)
Definition comes_back_ok (v : value) : Prop :=
  (T2 (T1 v) = v -> ok v = true)
  /\ (S2 (S1 v) = v -> style_ok v = true)
  /\ (forall entries, v = VArray entries ->
        map S2 (map S1 entries) = entries -> forallb style_ok entries = true).

Lemma T1_keeps_not_array (x : value) :
  Array_isArray x = false -> Array_isArray (T1 x) = false.
Proof.
  destruct x; intros H; try discriminate H;
    try (rewrite T1_other by reflexivity; reflexivity).
  rewrite T1_object. reflexivity.
Qed.

Lemma props_exact (r : list (string * value)) :
  has_own r to = false ->
  Forall (fun kv => comes_back_ok (snd kv)) r ->
  omap (migrate_prop to from false T2 S2) (omap (migrate_prop from to false T1 S1) r) = r ->
  forallb
    (fun '(k, x) =>
       match String.eqb k "styles", x with
       | true, VArray entries => forallb style_ok entries
       | _, _ => ok x
       end) r = true.
Proof.
  intros Hto HF. revert Hto.
  induction HF as [|[k x] r Hx _ IH]; intros Hto Heq; [reflexivity|].
  rewrite has_own_cons in Hto. apply orb_false_elim in Hto as [Hk Hto].
  cbn [snd] in Hx. destruct Hx as (Hv & _ & Harr).
  cbn [forallb]. apply andb_true_iff.
  assert (Hplain :
      (forall entries, String.eqb k "styles" = true -> x <> VArray entries) ->
      String.eqb k from = false ->
      ok x = true
      /\ omap (migrate_prop to from false T2 S2) (omap (migrate_prop from to false T1 S1) r)
         = r).
  { intros Hna Hkf.
    rewrite omap_cons, (migrate_prop_other from to false T1 S1 k x Hkf Hna) in Heq.
    rewrite omap_cons, (migrate_prop_other to from false T2 S2 k (T1 x) Hk) in Heq.
    - injection Heq as H1 H2. split; [exact (Hv H1) | exact H2].
    - intros entries Hs E1.
      assert (Hf : Array_isArray (T1 x) = false).
      { apply T1_keeps_not_array. destruct x; try reflexivity. destruct (Hna _ Hs eq_refl). }
      rewrite E1 in Hf. discriminate Hf. }
  destruct (String.eqb_spec k from) as [->|Hne].
  - rewrite from_styles.
    rewrite omap_cons, migrate_prop_from, omap_cons, migrate_prop_from in Heq.
    injection Heq as H1 H2. split; [|exact (IH Hto H2)].
    destruct x; exact (Hv H1).
  - apply String.eqb_neq in Hne.
    destruct (String.eqb k "styles") eqn:Es.
    + destruct x as [| | | | |entries|];
        try (destruct Hplain as [H1 H2];
             [intros e _ E; discriminate E | reflexivity |];
             split; [exact H1 | exact (IH Hto H2)]).
      apply String.eqb_eq in Es. subst k.
      rewrite omap_cons, migrate_prop_styles in Heq by exact from_styles.
      rewrite omap_cons, migrate_prop_styles in Heq by exact to_styles.
      injection Heq as H1 H2. split; [exact (Harr entries eq_refl H1) | exact (IH Hto H2)].
    + destruct Hplain as [H1 H2]; [intros e E; discriminate E | reflexivity |].
      split; [destruct x; exact H1 | exact (IH Hto H2)].
Qed.

Lemma style_props_exact (r : list (string * value)) :
  Forall (fun kv => comes_back_ok (snd kv)) r ->
  map (style_prop X2 T2) (map (style_prop X1 T1) r) = r ->
  forallb (fun '(k, x) => if String.eqb k "extra" then extra_ok x else ok x) r = true.
Proof.
  induction 1 as [|[k x] r Hx _ IH]; intros Heq; [reflexivity|].
  cbn [map] in Heq. injection Heq as H1 H2.
  cbn [forallb]. rewrite (IH H2), andb_true_r.
  cbn [snd] in Hx. destruct Hx as (Hv & _).
  unfold style_prop in H1. destruct (String.eqb k "extra") eqn:Ee; rewrite Ee in H1.
  - injection H1 as H1. exact (X_exact x H1).
  - injection H1 as H1. exact (Hv H1).
Qed.

Lemma comes_back_all (v : value) : deep_distinct v = true -> comes_back_ok v.
Proof.
  induction v as [| | b | n | s | items IH | r IH] using value_ind; intros Hwf;
    try (split; [|split]; [reflexivity | reflexivity | intros e E; discriminate E]).
  - cbn [deep_distinct] in Hwf.
    assert (Hall : Forall comes_back_ok items).
    { rewrite forallb_forall in Hwf. apply Forall_forall. intros x Hx.
      rewrite Forall_forall in IH. apply (IH x Hx), Hwf, list_elem_of_In, Hx. }
    assert (Hmap : T2 (T1 (VArray items)) = VArray items -> forallb ok items = true).
    { intros Heq. rewrite T1_array, T2_array in Heq. injection Heq as Heq.
      apply map_fixed in Heq. apply forallb_forall. intros x Hx.
      rewrite Forall_forall in Hall, Heq. apply list_elem_of_In in Hx.
      exact (proj1 (Hall x Hx) (Heq x Hx)). }
    split; [exact Hmap|]. split.
    { intros Heq. cbn [style_with] in Heq. rewrite T1_array in Heq.
      cbn [style_with] in Heq. rewrite <- T1_array in Heq. exact (Hmap Heq). }
    intros entries [= <-] Heq.
    apply map_fixed in Heq. apply forallb_forall. intros x Hx.
    rewrite Forall_forall in Hall, Heq. apply list_elem_of_In in Hx.
    exact (proj1 (proj2 (Hall x Hx)) (Heq x Hx)).
  - cbn [deep_distinct] in Hwf. apply andb_prop in Hwf as [Hd Hwf].
    assert (Hall : Forall (fun kv => comes_back_ok (snd kv)) r).
    { rewrite forallb_forall in Hwf. apply Forall_forall. intros x Hx.
      rewrite Forall_forall in IH. apply (IH x Hx), Hwf, list_elem_of_In, Hx. }
    split; [|split]; [| |intros e E; discriminate E].
    + intros Heq. rewrite T1_object, T2_object in Heq. injection Heq as Heq.
      assert (Hp : has_own r "__proto__" = false).
      { rewrite <- Heq. apply migrate_props_no_proto. }
      assert (Hto : has_own r to = false).
      { rewrite <- Heq. apply migrate_props_no_from; [exact from_to | exact to_styles]. }
      assert (Hkeys : keys_ok r = true) by (unfold keys_ok; rewrite Hd, Hp; reflexivity).
      rewrite Hto in Heq.
      destruct (migrate_props_closed from to false T1 S1 r Hkeys to_proto (or_intror Hto))
        as [E1 Hkeys1].
      rewrite E1 in Heq.
      assert (Hfrom1 : has_own (omap (migrate_prop from to false T1 S1) r) from = false).
      { apply has_own_migrate_from. rewrite String.eqb_sym. exact from_to. }
      rewrite Hfrom1 in Heq.
      destruct (migrate_props_closed to from false T2 S2 _ Hkeys1 from_proto
                  (or_intror Hfrom1)) as [E2 _].
      rewrite E2 in Heq.
      cbn [migrate_ok]. rewrite Hkeys, Hto. cbn [negb andb].
      apply props_exact; assumption.
    + intros Heq. cbn [style_with] in Heq. injection Heq as Heq.
      assert (Hp : has_own r "__proto__" = false).
      { rewrite <- Heq. apply style_props_no_proto. }
      assert (Hkeys : keys_ok r = true) by (unfold keys_ok; rewrite Hd, Hp; reflexivity).
      rewrite (style_props_closed X1 T1 r Hkeys) in Heq.
      rewrite style_props_closed in Heq by (rewrite keys_ok_style; exact Hkeys).
      cbn [style_ok_with]. rewrite Hkeys. cbn [andb].
      apply style_props_exact; assumption.
Qed.

Lemma migrate_exact (v : value) :
  deep_distinct v = true -> T2 (T1 v) = v -> migrate_ok to extra_ok v = true.
Proof. intros Hwf. exact (proj1 (comes_back_all v Hwf)). Qed.

End MigrationExact.

(** *** The two round trips *)

Lemma le_bytes_bytes (w : Z) : Forall (fun b => 0 <= b < 256) (le_bytes w).
Proof. unfold le_bytes. repeat constructor; apply Z.mod_pos_bound; lia. Qed.

Lemma floatToHexLE_chars (x : float) :
  chars (floatToHexLE x) = concat (map hex2 (le_bytes (float32_bits x))).
Proof.
  unfold floatToHexLE, toUpperCase, Buffer_toString_hex, setFloat32LE.
  rewrite !chars_str.
  change (writeUInt32LE (replicate 4 0) 0 (float32_bits x))
    with (le_bytes (float32_bits x)).
  unfold le_bytes. cbn [map concat]. rewrite !map_app. reflexivity.
Qed.

(** [floatToHexLE] always gives eight hexadecimal digits. *)
Lemma HEX8_RE_floatToHexLE (x : float) : HEX8_RE (floatToHexLE x) = true.
Proof.
  unfold HEX8_RE, hex_re_test.
  destruct (hex2_chunks _ (le_bytes_bytes (float32_bits x))) as (_ & Hhex & Hlen).
  rewrite <- chars_length, floatToHexLE_chars, Hlen, Hhex. reflexivity.
Qed.

(** [hexToFloatLE] returns whenever its argument passes [HEX8_RE]. *)
Lemma hexToFloatLE_returns (s : string) :
  HEX8_RE s = true -> exists n, hexToFloatLE s = Ok n.
Proof. intros H. unfold hexToFloatLE. rewrite H. eexists. reflexivity. Qed.

(** Equality of two values, decided: numbers are compared as
    [Object.is] compares them. *)
Fixpoint value_eqb (a b : value) {struct a} : bool :=
  match a, b with
  | VUndefined, VUndefined => true
  | VNull, VNull => true
  | VBool x, VBool y => Bool.eqb x y
  | VNumber x, VNumber y => PrimFloat.Leibniz.eqb x y
  | VString x, VString y => String.eqb x y
  | VArray xs, VArray ys =>
      (fix all (xs ys : list value) {struct xs} : bool :=
         match xs, ys with
         | [], [] => true
         | x :: xs', y :: ys' => value_eqb x y && all xs' ys'
         | _, _ => false
         end) xs ys
  | VObject r, VObject r' =>
      (fix all (r r' : list (string * value)) {struct r} : bool :=
         match r, r' with
         | [], [] => true
         | kv :: r1, kv' :: r1' =>
             String.eqb (fst kv) (fst kv') && value_eqb (snd kv) (snd kv') && all r1 r1'
         | _, _ => false
         end) r r'
  | _, _ => false
  end.

Lemma value_eqb_eq (a : value) : forall b, value_eqb a b = true -> a = b.
Proof.
  induction a as [| | x | x | x | xs IH | r IH] using value_ind;
    intros b H; destruct b as [| | y | y | y | ys | r']; try discriminate H;
    try reflexivity.
  - cbn [value_eqb] in H. apply Bool.eqb_prop in H. congruence.
  - cbn [value_eqb] in H. apply FloatAxioms.Leibniz.eqb_spec in H. congruence.
  - cbn [value_eqb] in H. apply String.eqb_eq in H. congruence.
  - f_equal. cbn [value_eqb] in H. revert ys H.
    induction IH as [|x xs Hx _ IHxs]; intros ys H; destruct ys as [|y ys];
      try discriminate H; [reflexivity|].
    apply andb_prop in H as [H1 H2]. rewrite (Hx y H1), (IHxs ys H2). reflexivity.
  - f_equal. cbn [value_eqb] in H. revert r' H.
    induction IH as [|[k x] r Hx _ IHr]; intros r' H; destruct r' as [|[k' y] r'];
      try discriminate H; [reflexivity|].
    cbn [fst snd] in *.
    apply andb_prop in H as [H H3]. apply andb_prop in H as [H1 H2].
    apply String.eqb_eq in H1. rewrite H1, (Hx y H2), (IHr r' H3). reflexivity.
Qed.

(** The arrays and objects that [transformValueForDecrypt] leaves as they
    are: the only thing that either composition does to an [extra] that is
    an array or an object is to apply [transformValueForDecrypt] to it. *)
Definition decrypt_keeps (x : value) : bool := value_eqb (transformValueForDecrypt x) x.

(** The [extra] of a style in a modern document that the round trip gives
    back: a finite number that is a binary32 value (its encoding decodes to
    it), a number that is not finite, a string that is not eight
    hexadecimal digits, an array or an object that
    [transformValueForDecrypt] leaves as it is, a boolean, [null], or
    none. *)
Definition modern_extra_ok (x : value) : bool :=
  match x with
  | VNumber n =>
      if Number_isFinite n then
        match hexToFloatLE (floatToHexLE n) with
        | Ok m => PrimFloat.Leibniz.eqb m n
        | Throw _ => false
        end
      else true
  | VString s => negb (HEX8_RE s)
  | VArray _ | VObject _ => decrypt_keeps x
  | _ => true
  end.

(** The [extra] of a style in a legacy document that the round trip gives
    back: eight hexadecimal digits that are the upper-case encoding of a
    finite number, a string that is not eight hexadecimal digits, a number
    that is not finite, an array or an object that
    [transformValueForDecrypt] leaves as it is, a boolean, [null], or
    none. *)
Definition legacy_extra_ok (x : value) : bool :=
  match x with
  | VString s =>
      if HEX8_RE s then
        match hexToFloatLE s with
        | Ok n => Number_isFinite n && String.eqb (floatToHexLE n) s
        | Throw _ => false
        end
      else true
  | VNumber n => negb (Number_isFinite n)
  | VArray _ | VObject _ => decrypt_keeps x
  | _ => true
  end.

Definition modern_ok : value -> bool := migrate_ok "pitch_model" modern_extra_ok.
Definition legacy_ok : value -> bool := migrate_ok "sing_model" legacy_extra_ok.

Lemma decrypt_extra_keeps (x : value) :
  Array_isArray x || isPlainObject x = true -> decrypt_keeps x = true ->
  decrypt_extra x = x /\ encrypt_extra x = x.
Proof.
  intros Hshape Hk. apply value_eqb_eq in Hk.
  destruct x; try discriminate Hshape; split; try reflexivity;
    cbn [decrypt_extra]; exact Hk.
Qed.

Lemma decrypt_encrypt_extra (x : value) :
  modern_extra_ok x = true -> decrypt_extra (encrypt_extra x) = x.
Proof.
  destruct x as [| | b | n | s | items | r]; intros Hok; try reflexivity.
  - simpl in *. destruct (Number_isFinite n); [|reflexivity].
    cbn [decrypt_extra]. rewrite HEX8_RE_floatToHexLE. unfold hexToFloatLE_tested.
    destruct (hexToFloatLE (floatToHexLE n)) as [m|]; [|discriminate Hok].
    apply FloatAxioms.Leibniz.eqb_spec in Hok. rewrite Hok. reflexivity.
  - simpl in *. apply negb_true_iff in Hok. rewrite Hok. cbn [decrypt_extra].
    rewrite Hok. reflexivity.
  - cbn [modern_extra_ok] in Hok.
    destruct (decrypt_extra_keeps (VArray items) eq_refl Hok) as [H1 H2].
    rewrite H2. exact H1.
  - cbn [modern_extra_ok] in Hok.
    destruct (decrypt_extra_keeps (VObject r) eq_refl Hok) as [H1 H2].
    rewrite H2. exact H1.
Qed.

Lemma encrypt_decrypt_extra (x : value) :
  legacy_extra_ok x = true -> encrypt_extra (decrypt_extra x) = x.
Proof.
  destruct x as [| | b | n | s | items | r]; intros Hok; try reflexivity.
  - simpl in *. apply negb_true_iff in Hok. rewrite Hok. reflexivity.
  - cbn [legacy_extra_ok decrypt_extra] in *. destruct (HEX8_RE s) eqn:E.
    + unfold hexToFloatLE_tested. destruct (hexToFloatLE s) as [n|]; [|discriminate Hok].
      apply andb_prop in Hok as [Hfin Heq]. apply String.eqb_eq in Heq.
      cbn [encrypt_extra]. rewrite Hfin, Heq. reflexivity.
    + cbn [transformValueForDecrypt encrypt_extra]. rewrite E. reflexivity.
  - cbn [legacy_extra_ok] in Hok.
    destruct (decrypt_extra_keeps (VArray items) eq_refl Hok) as [H1 H2].
    rewrite H1. exact H2.
  - cbn [legacy_extra_ok] in Hok.
    destruct (decrypt_extra_keeps (VObject r) eq_refl Hok) as [H1 H2].
    rewrite H1. exact H2.
Qed.

Lemma transformValueForEncrypt_other (v : value) :
  Array_isArray v = false -> isPlainObject v = false -> transformValueForEncrypt v = v.
Proof. destruct v; intros H1 H2; try reflexivity; discriminate. Qed.

Lemma transformValueForDecrypt_other (v : value) :
  Array_isArray v = false -> isPlainObject v = false -> transformValueForDecrypt v = v.
Proof. destruct v; intros H1 H2; try reflexivity; discriminate. Qed.

Lemma value_eqb_refl (a : value) : value_eqb a a = true.
Proof.
  induction a as [| | x | x | x | xs IH | r IH] using value_ind; try reflexivity.
  - cbn [value_eqb]. destruct x; reflexivity.
  - cbn [value_eqb]. apply FloatAxioms.Leibniz.eqb_spec. reflexivity.
  - cbn [value_eqb]. apply String.eqb_refl.
  - cbn [value_eqb]. induction IH as [|x xs Hx _ IHxs]; [reflexivity|].
    rewrite Hx, IHxs. reflexivity.
  - cbn [value_eqb]. induction IH as [|[k x] r Hx _ IHr]; [reflexivity|].
    cbn [fst snd] in *. rewrite String.eqb_refl, Hx, IHr. reflexivity.
Qed.

(** An [extra] that comes back is one of those of [modern_extra_ok], or of
    [legacy_extra_ok] for the other composition. *)
Lemma decrypt_encrypt_extra_exact (x : value) :
  decrypt_extra (encrypt_extra x) = x -> modern_extra_ok x = true.
Proof.
  destruct x as [| | b | n | s | items | r]; intros H; try reflexivity.
  - cbn [encrypt_extra modern_extra_ok] in *.
    destruct (Number_isFinite n); [|reflexivity].
    cbn [decrypt_extra] in H. rewrite HEX8_RE_floatToHexLE in H.
    unfold hexToFloatLE_tested in H.
    destruct (hexToFloatLE (floatToHexLE n)) as [m|]; [|discriminate H].
    injection H as ->. apply FloatAxioms.Leibniz.eqb_spec. reflexivity.
  - cbn [encrypt_extra modern_extra_ok] in *.
    destruct (HEX8_RE s) eqn:E; [|reflexivity].
    cbn [decrypt_extra] in H.
    assert (Eu : HEX8_RE (toUpperCase s) = true).
    { unfold HEX8_RE. rewrite hex_re_test_upper. exact E. }
    rewrite Eu in H. unfold hexToFloatLE_tested in H.
    destruct (hexToFloatLE (toUpperCase s)); discriminate H.
  - cbn [encrypt_extra decrypt_extra] in H. cbn [modern_extra_ok].
    unfold decrypt_keeps. rewrite H. apply value_eqb_refl.
  - cbn [encrypt_extra decrypt_extra] in H. cbn [modern_extra_ok].
    unfold decrypt_keeps. rewrite H. apply value_eqb_refl.
Qed.

Lemma encrypt_decrypt_extra_exact (x : value) :
  encrypt_extra (decrypt_extra x) = x -> legacy_extra_ok x = true.
Proof.
  destruct x as [| | b | n | s | items | r]; intros H; try reflexivity.
  - cbn [decrypt_extra transformValueForDecrypt encrypt_extra legacy_extra_ok] in *.
    destruct (Number_isFinite n); [discriminate H | reflexivity].
  - cbn [decrypt_extra legacy_extra_ok] in *.
    destruct (HEX8_RE s) eqn:E; [|reflexivity].
    unfold hexToFloatLE_tested in H.
    destruct (hexToFloatLE s) as [n|]; [|discriminate H].
    cbn [encrypt_extra] in H.
    destruct (Number_isFinite n); [|discriminate H].
    injection H as H. rewrite H. cbn [andb]. apply String.eqb_refl.
  - cbn [legacy_extra_ok]. unfold decrypt_keeps.
    cbn [decrypt_extra] in H.
    assert (Hk : transformValueForDecrypt (VArray items) = VArray items).
    { cbn [transformValueForDecrypt] in *. cbn [encrypt_extra] in H. exact H. }
    rewrite Hk. apply value_eqb_refl.
  - cbn [legacy_extra_ok]. unfold decrypt_keeps.
    cbn [decrypt_extra] in H.
    assert (Hk : transformValueForDecrypt (VObject r) = VObject r).
    { cbn [transformValueForDecrypt] in *. cbn [encrypt_extra] in H. exact H. }
    rewrite Hk. apply value_eqb_refl.
Qed.

(** C2 (as the code has it).  Each composition is the identity exactly on
    the documents of its own side: [transformValueForDecrypt] after
    [transformValueForEncrypt] on the modern documents ([modern_ok]: no
    key [__proto__], no [pitch_model] key outside the style entries, every
    style [extra] a binary32 number or a value that neither transform
    changes), and [transformValueForEncrypt] after
    [transformValueForDecrypt] on the legacy documents ([legacy_ok]: the
    same with [sing_model], every style [extra] the upper-case encoding of
    a finite number or a value that neither transform changes).  Any other
    document, its keys distinct in every object as in all that
    [JSON.parse] returns, does not come back. *)
Theorem migration_round_trips :
  (forall d, modern_ok d = true ->
     transformValueForDecrypt (transformValueForEncrypt d) = d)
  /\ (forall d, legacy_ok d = true ->
        transformValueForEncrypt (transformValueForDecrypt d) = d)
  /\ (forall d, deep_distinct d = true ->
        transformValueForDecrypt (transformValueForEncrypt d) = d -> modern_ok d = true)
  /\ (forall d, deep_distinct d = true ->
        transformValueForEncrypt (transformValueForDecrypt d) = d -> legacy_ok d = true).
Proof.
  split; [|split; [|split]].
  - intros d Hd.
    apply (migrate_round_trip "sing_model" "pitch_model"
             transformValueForEncrypt encrypt_extra
             transformValueForDecrypt decrypt_extra modern_extra_ok);
      try reflexivity; try exact Hd.
    + exact transformValueForEncrypt_object.
    + exact transformValueForEncrypt_other.
    + exact transformValueForDecrypt_object.
    + exact transformValueForDecrypt_other.
    + exact decrypt_encrypt_extra.
  - intros d Hd.
    apply (migrate_round_trip "pitch_model" "sing_model"
             transformValueForDecrypt decrypt_extra
             transformValueForEncrypt encrypt_extra legacy_extra_ok);
      try reflexivity; try exact Hd.
    + exact transformValueForDecrypt_object.
    + exact transformValueForDecrypt_other.
    + exact transformValueForEncrypt_object.
    + exact transformValueForEncrypt_other.
    + exact encrypt_decrypt_extra.
  - intros d Hwf Hd.
    apply (migrate_exact "sing_model" "pitch_model"
             transformValueForEncrypt encrypt_extra
             transformValueForDecrypt decrypt_extra modern_extra_ok);
      try reflexivity; try assumption.
    + exact transformValueForEncrypt_object.
    + exact transformValueForEncrypt_other.
    + exact transformValueForDecrypt_object.
    + exact decrypt_encrypt_extra_exact.
  - intros d Hwf Hd.
    apply (migrate_exact "pitch_model" "sing_model"
             transformValueForDecrypt decrypt_extra
             transformValueForEncrypt encrypt_extra legacy_extra_ok);
      try reflexivity; try assumption.
    + exact transformValueForDecrypt_object.
    + exact transformValueForDecrypt_other.
    + exact transformValueForEncrypt_object.
    + exact encrypt_decrypt_extra_exact.
Qed.

(** A modern document whose style has an object for its [extra], and a
    style key [pitch_model] besides. *)
Definition test_document_object_extra : value :=
  VObject [("name", VString "Test"); ("sing_model", VString "abc123");
           ("styles", VArray [VObject [("name", VString "Style1");
                                       ("pitch_model", VString "kept");
                                       ("extra", VObject [("gain", VNumber 0.25);
                                                          ("tags", VArray [VString "a"])])]])].

(** The document of the test, in its modern and in its legacy form, and a
    document with an object for the [extra] of its style. *)
Lemma migration_round_trips_witness :
  transformValueForDecrypt (transformValueForEncrypt test_document) = test_document
  /\ transformValueForEncrypt (transformValueForDecrypt test_document_legacy)
     = test_document_legacy
  /\ transformValueForDecrypt (transformValueForEncrypt test_document_object_extra)
     = test_document_object_extra
  /\ modern_ok test_document = true
  /\ legacy_ok test_document_legacy = true.
Proof.
  split; [|split; [|split; [|split]]].
  - apply (proj1 migration_round_trips). vm_compute. reflexivity.
  - apply (proj1 (proj2 migration_round_trips)). vm_compute. reflexivity.
  - apply (proj1 migration_round_trips). vm_compute. reflexivity.
  - apply (proj1 (proj2 (proj2 migration_round_trips))); vm_compute; reflexivity.
  - apply (proj2 (proj2 (proj2 migration_round_trips))); vm_compute; reflexivity.
Defined.

(** A document with [pitch_model] and no [sing_model] has neither both
    keys nor any style, and comes back with the key renamed. *)
Lemma migration_round_trip_renames_pitch_model :
  transformValueForDecrypt
    (transformValueForEncrypt (VObject [("pitch_model", VString "abc123")]))
  = VObject [("sing_model", VString "abc123")]
  /\ VObject [("sing_model", VString "abc123")]
     <> VObject [("pitch_model", VString "abc123")].
Proof. split; [vm_compute; reflexivity | discriminate]. Qed.

(** ** BinaryCodec ([src/nofs/binary.ts]) *)

(** What the codec takes from Node and from the language: AES-256-CBC of
    the [crypto] module (the decipher throws on bad padding), [JSON.parse]
    (throws on text that is not JSON), [JSON.stringify], and the UTF-8
    conversions of [Buffer].  The sixteen bytes of [crypto.randomBytes] are
    an argument of [encryptJsonToNofs]. *)
Record Platform : Type := {
  aes256cbc_encrypt : list Z -> list Z -> list Z -> list Z;
  aes256cbc_decrypt : list Z -> list Z -> list Z -> result (list Z);
  JSON_parse : string -> result value;
  JSON_stringify : value -> string;
  utf8_encode : string -> list Z;
  utf8_decode : list Z -> string
}.

Definition HEADER_TEMPLATE_HEX : string :=
  "80F500000A0000000000000000000000440000000010E633BABA5400000000000000024C86BE7600000000000000245C5C699500000000000000A03A9696B000000000000000000000000000000000004400000022000000010012002E666561747572655F66305F7669626D6F6400000000220000001F00000001000F002E666561747572655F66305F6F726E000000001F0000001B00000001000B0066306D6F64656C2D646473000000001B00000028100000010004007E7F7F7F14100000".

Definition HEADER_SIZE : nat := 192.

(** [Buffer.from("SVDB", "ascii")]. *)
Definition SVDB_MAGIC : Uint8Array := [83; 86; 68; 66].

Definition KEY : Uint8Array :=
  Buffer_from_hex "9ace85bf9f6e4cde2f5ad2fff38bebcf8e85368749f294e9ef99c1d7542812fe".

(** [buf.subarray(a, b)] for [a <= b]. *)
Definition subarray (buf : Uint8Array) (a b : nat) : Uint8Array :=
  take (b - a) (drop a buf).

(** [a.equals(b)]. *)
Fixpoint Buffer_equals (a b : Uint8Array) : bool :=
  match a, b with
  | [], [] => true
  | x :: a', y :: b' => (x =? y) && Buffer_equals a' b'
  | _, _ => false
  end.

(** [buf.readUInt32LE(off)] and [buf.writeUInt32LE(value, off)] with the
    range checks of Node: the four bytes lie within the buffer and the
    value is a 32-bit unsigned integer. *)
Definition Buffer_readUInt32LE (buf : Uint8Array) (off : nat) : result Z :=
  if (off + 4 <=? length buf)%nat then Ok (readUInt32LE buf off)
  else Throw "ERR_OUT_OF_RANGE".

Definition Buffer_writeUInt32LE (buf : Uint8Array) (value : Z) (off : nat)
  : result Uint8Array :=
  if negb ((0 <=? value) && (value <=? 4294967295)) then Throw "ERR_OUT_OF_RANGE"
  else if (off + 4 <=? length buf)%nat then Ok (writeUInt32LE buf off value)
  else Throw "ERR_OUT_OF_RANGE".

Definition buildHeader (svdbLength : Z) : result Uint8Array :=
  let template := Buffer_from_hex HEADER_TEMPLATE_HEX in
  if negb (length template =? HEADER_SIZE)%nat then Throw "Invalid NOFS header template."
  else
    header <-- Buffer_writeUInt32LE template (svdbLength + 20) 0xb0 ;;
    Buffer_writeUInt32LE header svdbLength 0xbc.

Definition transformJsonForEncrypt (P : Platform) (jsonText : string) : result string :=
  parsed <-- JSON_parse P jsonText ;;
  Ok (JSON_stringify P (transformValueForEncrypt parsed)).

Definition transformJsonForDecrypt (P : Platform) (jsonText : string) : result string :=
  parsed <-- JSON_parse P jsonText ;;
  Ok (JSON_stringify P (transformValueForDecrypt parsed)).

Definition encryptJsonToNofs (P : Platform) (jsonTextUtf8 : string) (iv : Uint8Array)
  : result Uint8Array :=
  transformed <-- transformJsonForEncrypt P jsonTextUtf8 ;;
  let plaintext := utf8_encode P transformed in
  let ciphertext := aes256cbc_encrypt P KEY iv plaintext in
  let svdbLength := 20 + Z.of_nat (length ciphertext) in
  header <-- buildHeader svdbLength ;;
  trailer <-- Buffer_writeUInt32LE (replicate 4 0) (svdbLength + 20) 0 ;;
  Ok (header ++ SVDB_MAGIC ++ iv ++ ciphertext ++ trailer).

(** The parts of a container that follow the magic bytes: the
    initialization vector, and the ciphertext up to the trailer. *)
Definition iv_of (nofsBytes : Uint8Array) : Uint8Array :=
  subarray nofsBytes (HEADER_SIZE + 4) (HEADER_SIZE + 4 + 16).

Definition ciphertext_of (nofsBytes : Uint8Array) : Uint8Array :=
  subarray nofsBytes (HEADER_SIZE + 4 + 16) (length nofsBytes - 4).

Definition decryptNofsToJson (P : Platform) (nofsBytes : Uint8Array) : result string :=
  if (length nofsBytes <? HEADER_SIZE + 4 + 16 + 4)%nat then Throw "Invalid NOFS file size."
  else
    let magic := subarray nofsBytes HEADER_SIZE (HEADER_SIZE + 4) in
    if negb (Buffer_equals magic SVDB_MAGIC) then Throw "Missing SVDB header."
    else
      let ivStart := (HEADER_SIZE + 4)%nat in
      let iv := subarray nofsBytes ivStart (ivStart + 16) in
      let ciphertext := subarray nofsBytes (ivStart + 16) (length nofsBytes - 4) in
      let svdbLength := 20 + Z.of_nat (length ciphertext) in
      headerSvdb <-- Buffer_readUInt32LE nofsBytes 0xbc ;;
      headerTotal <-- Buffer_readUInt32LE nofsBytes 0xb0 ;;
      trailer <-- Buffer_readUInt32LE nofsBytes (length nofsBytes - 4) ;;
      if negb (headerSvdb =? svdbLength) || negb (headerTotal =? svdbLength + 20)
         || negb (trailer =? svdbLength + 20)
      then Throw "NOFS length fields mismatch."
      else
        decrypted <-- aes256cbc_decrypt P KEY iv ciphertext ;;
        let plaintext := utf8_decode P decrypted in
        transformJsonForDecrypt P plaintext.

(** A small platform on which the codec runs: a cipher that pads to the
    next multiple of 16 bytes (PKCS#7) and adds the bytes of the
    initialization vector in turn, and a JSON reader of the one text
    [{}]. *)
Definition pkcs7_pad (data : list Z) : list Z :=
  let n := (16 - length data mod 16)%nat in
  data ++ replicate n (Z.of_nat n).

Definition pkcs7_unpad (data : list Z) : result (list Z) :=
  match last data with
  | Some n =>
      if (1 <=? n) && (n <=? 16) && (Z.to_nat n <=? length data)%nat
      then Ok (take (length data - Z.to_nat n) data)
      else Throw "bad decrypt"
  | None => Throw "wrong final block length"
  end.

Definition add_stream (iv data : list Z) : list Z :=
  imap (fun i b => (b + default 0 (iv !! (i mod 16)%nat)) mod 256) data.

Definition sub_stream (iv data : list Z) : list Z :=
  imap (fun i b => (b - default 0 (iv !! (i mod 16)%nat)) mod 256) data.

Definition demo_platform : Platform :=
  {| aes256cbc_encrypt := fun _ iv data => add_stream iv (pkcs7_pad data);
     aes256cbc_decrypt := fun _ iv data => pkcs7_unpad (sub_stream iv data);
     JSON_parse := fun s =>
       if String.eqb s "{}" then Ok (VObject []) else Throw "Unexpected token";
     JSON_stringify := fun v =>
       match v with VObject [] => "{}"%string | _ => "null"%string end;
     utf8_encode := fun s => map (fun c => Z.of_nat (nat_of_ascii c)) (chars s);
     utf8_decode := fun l => str (map (fun b => ascii_of_nat (Z.to_nat b)) l) |}.

Definition demo_iv : Uint8Array := map Z.of_nat (seq 1 16).

Example buildHeader_template_size :
  length (Buffer_from_hex HEADER_TEMPLATE_HEX) = HEADER_SIZE.
Proof. vm_compute. reflexivity. Qed.

Example demo_round_trip :
  (buf <-- encryptJsonToNofs demo_platform "{}" demo_iv ;;
   decryptNofsToJson demo_platform buf) = Ok "{}"%string.
Proof. vm_compute. reflexivity. Qed.

(** *** Reading and writing 32-bit fields *)

Lemma byte_at_app_l (a b : list Z) (i : nat) :
  (i < length a)%nat -> byte_at (a ++ b) i = byte_at a i.
Proof. intros H. unfold byte_at. rewrite lookup_app_l by exact H. reflexivity. Qed.

Lemma byte_at_app_r (a b : list Z) (i : nat) :
  byte_at (a ++ b) (length a + i) = byte_at b i.
Proof.
  unfold byte_at. rewrite lookup_app_r by lia.
  replace (length a + i - length a)%nat with i by lia. reflexivity.
Qed.

Lemma readUInt32LE_app_l (a b : list Z) (off : nat) :
  (off + 4 <= length a)%nat -> readUInt32LE (a ++ b) off = readUInt32LE a off.
Proof. intros H. unfold readUInt32LE. rewrite !byte_at_app_l by lia. reflexivity. Qed.

Lemma readUInt32LE_app_r (a b : list Z) (off : nat) :
  readUInt32LE (a ++ b) (length a + off) = readUInt32LE b off.
Proof.
  unfold readUInt32LE. rewrite <- !Nat.add_assoc, !byte_at_app_r. reflexivity.
Qed.

Lemma writeUInt32LE_split (buf : list Z) (off : nat) (w : Z) :
  (off + 4 <= length buf)%nat ->
  writeUInt32LE buf off w = take off buf ++ le_bytes w ++ drop (off + 4) buf.
Proof.
  intros H.
  rewrite <- (take_drop off buf) at 1.
  assert (Hl : length (take off buf) = off) by (rewrite length_take; lia).
  assert (Hd : length (drop off buf) = (length buf - off)%nat) by apply length_drop.
  destruct (drop off buf) as [|a [|b [|c [|d rest]]]] eqn:E; simpl in Hd; try lia.
  rewrite <- Hl at 2. rewrite writeUInt32LE_app. do 2 f_equal.
  rewrite <- drop_drop, E. reflexivity.
Qed.

Lemma writeUInt32LE_length (buf : list Z) (off : nat) (w : Z) :
  length (writeUInt32LE buf off w) = length buf.
Proof. unfold writeUInt32LE. rewrite !length_insert. reflexivity. Qed.

Lemma readUInt32LE_write_same (buf : list Z) (off : nat) (w : Z) :
  (off + 4 <= length buf)%nat -> 0 <= w < 2 ^ 32 ->
  readUInt32LE (writeUInt32LE buf off w) off = w.
Proof.
  intros H Hw. rewrite writeUInt32LE_split by exact H.
  pose proof (readUInt32LE_app_r (take off buf) (le_bytes w ++ drop (off + 4) buf) 0) as Hr.
  rewrite length_take, Nat.min_l, Nat.add_0_r in Hr by lia.
  rewrite Hr. apply readUInt32LE_le_bytes. exact Hw.
Qed.

Lemma byte_at_write_other (buf : list Z) (off i : nat) (w : Z) :
  (i < off \/ off + 4 <= i)%nat -> byte_at (writeUInt32LE buf off w) i = byte_at buf i.
Proof.
  intros H. unfold byte_at, writeUInt32LE.
  rewrite !list_lookup_insert_ne by lia. reflexivity.
Qed.

Lemma readUInt32LE_write_other (buf : list Z) (off off' : nat) (w : Z) :
  (off' + 4 <= off \/ off + 4 <= off')%nat ->
  readUInt32LE (writeUInt32LE buf off w) off' = readUInt32LE buf off'.
Proof.
  intros H. unfold readUInt32LE. rewrite !byte_at_write_other by lia. reflexivity.
Qed.

Lemma Buffer_equals_eq (a b : list Z) : Buffer_equals a b = true <-> a = b.
Proof.
  revert b. induction a as [|x a IH]; intros [|y b]; simpl; split; intros H;
    try reflexivity; try discriminate H.
  - apply andb_prop in H as [H1 H2]. apply Z.eqb_eq in H1. apply IH in H2. congruence.
  - injection H as -> ->. rewrite Z.eqb_refl. apply IH. reflexivity.
Qed.

Lemma Buffer_writeUInt32LE_Ok (buf : list Z) (w : Z) (off : nat) (out : list Z) :
  Buffer_writeUInt32LE buf w off = Ok out ->
  0 <= w < 2 ^ 32 /\ (off + 4 <= length buf)%nat /\ out = writeUInt32LE buf off w.
Proof.
  unfold Buffer_writeUInt32LE. intros H.
  destruct ((0 <=? w) && (w <=? 4294967295)) eqn:Er; [|discriminate H].
  destruct (off + 4 <=? length buf)%nat eqn:Eo; [|discriminate H].
  injection H as <-. apply andb_prop in Er as [E1 E2].
  apply Z.leb_le in E1, E2. apply Nat.leb_le in Eo.
  change (2 ^ 32) with 4294967296. split; [lia|]. split; [exact Eo | reflexivity].
Qed.

Lemma Buffer_writeUInt32LE_returns (buf : list Z) (w : Z) (off : nat) :
  0 <= w <= 4294967295 -> (off + 4 <= length buf)%nat ->
  Buffer_writeUInt32LE buf w off = Ok (writeUInt32LE buf off w).
Proof.
  intros Hw Ho. unfold Buffer_writeUInt32LE.
  destruct (Z.leb_spec 0 w); [|lia]. destruct (Z.leb_spec w 4294967295); [|lia].
  destruct (Nat.leb_spec (off + 4) (length buf)); [reflexivity | lia].
Qed.

(** A header that [buildHeader] returns is the template with the two
    length fields patched. *)
Lemma buildHeader_Ok (svdbLength : Z) (header : list Z) :
  buildHeader svdbLength = Ok header ->
  length header = HEADER_SIZE
  /\ readUInt32LE header 0xbc = svdbLength
  /\ readUInt32LE header 0xb0 = svdbLength + 20.
Proof.
  unfold buildHeader. rewrite buildHeader_template_size, Nat.eqb_refl. cbn [negb].
  intros H.
  destruct (Buffer_writeUInt32LE _ (svdbLength + 20) 0xb0) as [h1|] eqn:E1;
    [|discriminate H].
  cbn [rbind] in H.
  apply Buffer_writeUInt32LE_Ok in E1 as (Hw1 & Ho1 & ->).
  apply Buffer_writeUInt32LE_Ok in H as (Hw2 & Ho2 & ->).
  rewrite writeUInt32LE_length in Ho2.
  split; [|split].
  - rewrite !writeUInt32LE_length. apply buildHeader_template_size.
  - apply readUInt32LE_write_same; [rewrite writeUInt32LE_length; exact Ho2 | exact Hw2].
  - rewrite readUInt32LE_write_other by (left; lia).
    apply readUInt32LE_write_same; assumption.
Qed.

Lemma buildHeader_returns (svdbLength : Z) :
  0 <= svdbLength -> svdbLength + 20 <= 4294967295 ->
  exists header, buildHeader svdbLength = Ok header.
Proof.
  intros H0 H1. unfold buildHeader.
  rewrite buildHeader_template_size, Nat.eqb_refl. cbn [negb].
  rewrite Buffer_writeUInt32LE_returns;
    [|lia | rewrite buildHeader_template_size; unfold HEADER_SIZE; lia].
  cbn [rbind]. rewrite Buffer_writeUInt32LE_returns;
    [eexists; reflexivity | lia |].
  rewrite writeUInt32LE_length, buildHeader_template_size. unfold HEADER_SIZE. lia.
Qed.

(** The layout of a container: 192 bytes of header, the magic bytes, the
    16 bytes of the initialization vector, the ciphertext, 4 bytes of
    trailer. *)
Lemma container_layout (header iv ciphertext trailer : list Z) :
  length header = HEADER_SIZE -> length iv = 16%nat -> length trailer = 4%nat ->
  let buf := header ++ SVDB_MAGIC ++ iv ++ ciphertext ++ trailer in
  length buf = (216 + length ciphertext)%nat
  /\ subarray buf HEADER_SIZE (HEADER_SIZE + 4) = SVDB_MAGIC
  /\ iv_of buf = iv
  /\ ciphertext_of buf = ciphertext
  /\ readUInt32LE buf 0xbc = readUInt32LE header 0xbc
  /\ readUInt32LE buf 0xb0 = readUInt32LE header 0xb0
  /\ readUInt32LE buf (length buf - 4) = readUInt32LE trailer 0.
Proof.
  intros Hh Hi Ht buf.
  assert (Hlen : length buf = (216 + length ciphertext)%nat).
  { unfold buf. rewrite !length_app, Hh, Hi, Ht. unfold HEADER_SIZE. simpl. lia. }
  split; [exact Hlen|]. unfold iv_of, ciphertext_of, subarray. rewrite Hlen.
  split; [|split; [|split; [|split; [|split]]]].
  - unfold buf. rewrite drop_app_length' by (symmetry; exact Hh).
    replace (HEADER_SIZE + 4 - HEADER_SIZE)%nat with 4%nat by lia. reflexivity.
  - unfold buf. rewrite (app_assoc header).
    rewrite drop_app_length' by (rewrite length_app, Hh; reflexivity).
    replace (HEADER_SIZE + 4 + 16 - (HEADER_SIZE + 4))%nat with 16%nat by lia.
    apply take_app_length'. symmetry. exact Hi.
  - unfold buf. rewrite (app_assoc header), (app_assoc (header ++ SVDB_MAGIC)).
    rewrite drop_app_length' by (rewrite !length_app, Hh, Hi; reflexivity).
    apply take_app_length'. unfold HEADER_SIZE. lia.
  - apply readUInt32LE_app_l. rewrite Hh. unfold HEADER_SIZE. lia.
  - apply readUInt32LE_app_l. rewrite Hh. unfold HEADER_SIZE. lia.
  - unfold buf.
    rewrite (app_assoc header), (app_assoc (header ++ SVDB_MAGIC)),
      (app_assoc ((header ++ SVDB_MAGIC) ++ iv)).
    pose proof (readUInt32LE_app_r (((header ++ SVDB_MAGIC) ++ iv) ++ ciphertext) trailer 0)
      as Hr.
    rewrite Nat.add_0_r in Hr. rewrite <- Hr. f_equal.
    rewrite !length_app, Hh, Hi. unfold HEADER_SIZE. simpl. lia.
Qed.

(** C7. Every buffer that [encryptJsonToNofs] produces holds, with [n] the
    length of its ciphertext: 20 + n in the little-endian u32 field at
    0xBC, that value plus 20 in the field at 0xB0 and in the final four
    bytes, and the magic bytes "SVDB" at offset 192.  The ciphertext is the
    cipher's output for the legacy form of the parsed text; a buffer is
    produced for every text that parses, as long as the lengths fit a
    u32. *)
Theorem encryptJsonToNofs_length_fields (P : Platform) (jsonTextUtf8 : string)
  (iv : list Z) :
  length iv = 16%nat ->
  (forall buf, encryptJsonToNofs P jsonTextUtf8 iv = Ok buf ->
     let n := Z.of_nat (length (ciphertext_of buf)) in
     (exists d, JSON_parse P jsonTextUtf8 = Ok d
        /\ ciphertext_of buf
           = aes256cbc_encrypt P KEY iv
               (utf8_encode P (JSON_stringify P (transformValueForEncrypt d))))
     /\ Buffer_readUInt32LE buf 0xbc = Ok (20 + n)
     /\ Buffer_readUInt32LE buf 0xb0 = Ok (20 + n + 20)
     /\ Buffer_readUInt32LE buf (length buf - 4) = Ok (20 + n + 20)
     /\ subarray buf HEADER_SIZE (HEADER_SIZE + 4) = SVDB_MAGIC)
  /\ (forall d, JSON_parse P jsonTextUtf8 = Ok d ->
        Z.of_nat (length (aes256cbc_encrypt P KEY iv
                    (utf8_encode P (JSON_stringify P (transformValueForEncrypt d))))) + 40
        <= 4294967295 ->
        exists buf, encryptJsonToNofs P jsonTextUtf8 iv = Ok buf).
Proof.
  intros Hiv. split.
  - intros buf H. unfold encryptJsonToNofs, transformJsonForEncrypt in H.
    destruct (JSON_parse P jsonTextUtf8) as [d|] eqn:Ed; [|discriminate H].
    cbn [rbind] in H.
    set (ct := aes256cbc_encrypt P KEY iv
                 (utf8_encode P (JSON_stringify P (transformValueForEncrypt d)))) in *.
    destruct (buildHeader (20 + Z.of_nat (length ct))) as [header|] eqn:Eh;
      [|discriminate H].
    cbn [rbind] in H.
    destruct (Buffer_writeUInt32LE (replicate 4 0) (20 + Z.of_nat (length ct) + 20) 0)
      as [trailer|] eqn:Et; [|discriminate H].
    cbn [rbind] in H. injection H as <-.
    apply buildHeader_Ok in Eh as (Hh & H1 & H2).
    apply Buffer_writeUInt32LE_Ok in Et as (Hw & _ & ->).
    change (writeUInt32LE (replicate 4 0) 0 (20 + Z.of_nat (length ct) + 20))
      with (le_bytes (20 + Z.of_nat (length ct) + 20)).
    destruct (container_layout header iv ct (le_bytes (20 + Z.of_nat (length ct) + 20))
                Hh Hiv eq_refl) as (Hlen & Hm & _ & Hc & Hr1 & Hr2 & Hr3).
    change (header ++ 83 :: 86 :: 68 :: 66
                      :: iv ++ ct ++ le_bytes (20 + Z.of_nat (length ct) + 20))
      with (header ++ SVDB_MAGIC ++ iv ++ ct ++ le_bytes (20 + Z.of_nat (length ct) + 20)).
    cbv zeta. rewrite Hc. split; [exists d; split; reflexivity|].
    unfold Buffer_readUInt32LE. rewrite Hr1, Hr2, Hr3, Hlen, H1, H2.
    pose proof (readUInt32LE_le_bytes _ [] Hw) as Hrt. rewrite app_nil_r in Hrt.
    rewrite Hrt.
    split; [reflexivity|]. split; [reflexivity|]. split; [|exact Hm].
    destruct (Nat.leb_spec (216 + length ct - 4 + 4) (216 + length ct)); [reflexivity | lia].
  - intros d Hd Hsize. unfold encryptJsonToNofs, transformJsonForEncrypt.
    rewrite Hd. cbn [rbind].
    destruct (buildHeader_returns
                (20 + Z.of_nat (length (aes256cbc_encrypt P KEY iv
                   (utf8_encode P (JSON_stringify P (transformValueForEncrypt d)))))))
      as [header ->]; [lia | lia |].
    cbn [rbind]. rewrite Buffer_writeUInt32LE_returns by (simpl; lia).
    eexists. reflexivity.
Qed.

(** The container of the text [{}] on the demonstration platform. *)
Lemma encryptJsonToNofs_length_fields_witness :
  exists buf,
    encryptJsonToNofs demo_platform "{}" demo_iv = Ok buf
    /\ Buffer_readUInt32LE buf 0xbc = Ok (20 + Z.of_nat (length (ciphertext_of buf)))
    /\ Buffer_readUInt32LE buf (length buf - 4)
       = Ok (20 + Z.of_nat (length (ciphertext_of buf)) + 20).
Proof.
  destruct (proj2 (encryptJsonToNofs_length_fields demo_platform "{}" demo_iv eq_refl)
              (VObject []) eq_refl) as [buf Hbuf].
  - vm_compute. discriminate.
  - exists buf. split; [exact Hbuf|].
    destruct (proj1 (encryptJsonToNofs_length_fields demo_platform "{}" demo_iv eq_refl)
                buf Hbuf) as (_ & H1 & _ & H3 & _).
    split; [exact H1 | exact H3].
Defined.

(** *** What [decryptNofsToJson] rejects and accepts *)

(** The three comparisons of length fields in [decryptNofsToJson]. *)
Inductive length_check : Type := HeaderSvdb | HeaderTotal | Trailer.

(** The comparisons that fail on a buffer of at least 216 bytes. *)
Definition failed_checks (nofsBytes : Uint8Array) : list length_check :=
  let svdbLength := 20 + Z.of_nat (length (ciphertext_of nofsBytes)) in
  (if readUInt32LE nofsBytes 0xbc =? svdbLength then [] else [HeaderSvdb])
  ++ (if readUInt32LE nofsBytes 0xb0 =? svdbLength + 20 then [] else [HeaderTotal])
  ++ (if readUInt32LE nofsBytes (length nofsBytes - 4) =? svdbLength + 20
      then [] else [Trailer]).

Lemma decryptNofsToJson_checked (P : Platform) (nofsBytes : list Z) :
  (216 <= length nofsBytes)%nat ->
  subarray nofsBytes HEADER_SIZE (HEADER_SIZE + 4) = SVDB_MAGIC ->
  decryptNofsToJson P nofsBytes
  = if negb (readUInt32LE nofsBytes 0xbc =? 20 + Z.of_nat (length (ciphertext_of nofsBytes)))
       || negb (readUInt32LE nofsBytes 0xb0
                =? 20 + Z.of_nat (length (ciphertext_of nofsBytes)) + 20)
       || negb (readUInt32LE nofsBytes (length nofsBytes - 4)
                =? 20 + Z.of_nat (length (ciphertext_of nofsBytes)) + 20)
    then Throw "NOFS length fields mismatch."
    else
      decrypted <-- aes256cbc_decrypt P KEY (iv_of nofsBytes) (ciphertext_of nofsBytes) ;;
      transformJsonForDecrypt P (utf8_decode P decrypted).
Proof.
  intros Hlen Hmagic. unfold decryptNofsToJson.
  destruct (Nat.ltb_spec (length nofsBytes) (HEADER_SIZE + 4 + 16 + 4));
    [unfold HEADER_SIZE in *; lia|].
  rewrite Hmagic. cbn [Buffer_equals SVDB_MAGIC Z.eqb Pos.eqb andb negb].
  unfold Buffer_readUInt32LE.
  destruct (Nat.leb_spec (0xbc + 4) (length nofsBytes)); [|lia].
  destruct (Nat.leb_spec (0xb0 + 4) (length nofsBytes)); [|lia].
  destruct (Nat.leb_spec (length nofsBytes - 4 + 4) (length nofsBytes)); [|lia].
  reflexivity.
Qed.

(** C6 (as the code has it).  [decryptNofsToJson] throws, and so returns
    no JSON text, on every buffer shorter than 216 bytes, on every longer
    buffer whose bytes at offset 192 are not "SVDB", and, with [svdbLength]
    20 plus the length of the ciphertext, on every such buffer whose field
    at 0xBC differs from [svdbLength] or whose field at 0xB0 or trailer
    differs from [svdbLength + 20]; one and the same message reports the
    three comparisons. *)
Theorem decryptNofsToJson_rejects (P : Platform) (nofsBytes : list Z) :
  ((length nofsBytes < 216)%nat ->
   decryptNofsToJson P nofsBytes = Throw "Invalid NOFS file size.")
  /\ ((216 <= length nofsBytes)%nat ->
      subarray nofsBytes HEADER_SIZE (HEADER_SIZE + 4) <> SVDB_MAGIC ->
      decryptNofsToJson P nofsBytes = Throw "Missing SVDB header.")
  /\ ((216 <= length nofsBytes)%nat ->
      subarray nofsBytes HEADER_SIZE (HEADER_SIZE + 4) = SVDB_MAGIC ->
      let svdbLength := 20 + Z.of_nat (length (ciphertext_of nofsBytes)) in
      readUInt32LE nofsBytes 0xbc <> svdbLength
      \/ readUInt32LE nofsBytes 0xb0 <> svdbLength + 20
      \/ readUInt32LE nofsBytes (length nofsBytes - 4) <> svdbLength + 20 ->
      decryptNofsToJson P nofsBytes = Throw "NOFS length fields mismatch.").
Proof.
  split; [|split].
  - intros Hlen. unfold decryptNofsToJson.
    destruct (Nat.ltb_spec (length nofsBytes) (HEADER_SIZE + 4 + 16 + 4));
      [reflexivity | unfold HEADER_SIZE in *; lia].
  - intros Hlen Hmagic. unfold decryptNofsToJson.
    destruct (Nat.ltb_spec (length nofsBytes) (HEADER_SIZE + 4 + 16 + 4));
      [unfold HEADER_SIZE in *; lia|].
    destruct (Buffer_equals _ SVDB_MAGIC) eqn:E; [|reflexivity].
    apply Buffer_equals_eq in E. contradiction.
  - intros Hlen Hmagic svdbLength Hbad.
    rewrite decryptNofsToJson_checked by assumption. fold svdbLength.
    destruct (Z.eqb_spec (readUInt32LE nofsBytes 0xbc) svdbLength); [|reflexivity].
    destruct (Z.eqb_spec (readUInt32LE nofsBytes 0xb0) (svdbLength + 20)); [|reflexivity].
    destruct (Z.eqb_spec (readUInt32LE nofsBytes (length nofsBytes - 4)) (svdbLength + 20));
      [|reflexivity].
    tauto.
Qed.

(** The container of [{}] on the demonstration platform, and two copies
    with one byte changed: one in the field at 0xBC, one in the trailer. *)
Definition demo_container : Uint8Array :=
  match encryptJsonToNofs demo_platform "{}" demo_iv with
  | Ok buf => buf
  | Throw _ => []
  end.

Definition demo_bad_header_svdb : Uint8Array := <[188%nat := 255]> demo_container.
Definition demo_bad_trailer : Uint8Array := <[231%nat := 255]> demo_container.

Lemma decryptNofsToJson_rejects_witness :
  decryptNofsToJson demo_platform (take 100 demo_container) = Throw "Invalid NOFS file size."
  /\ decryptNofsToJson demo_platform (<[192%nat := 0]> demo_container)
     = Throw "Missing SVDB header."
  /\ decryptNofsToJson demo_platform demo_bad_trailer = Throw "NOFS length fields mismatch.".
Proof.
  split; [|split].
  - apply (proj1 (decryptNofsToJson_rejects demo_platform (take 100 demo_container))).
    vm_compute. lia.
  - apply (proj1 (proj2 (decryptNofsToJson_rejects demo_platform
                           (<[192%nat := 0]> demo_container)))).
    + vm_compute. lia.
    + vm_compute. discriminate.
  - apply (proj2 (proj2 (decryptNofsToJson_rejects demo_platform demo_bad_trailer))).
    + vm_compute. lia.
    + vm_compute. reflexivity.
    + right. right. vm_compute. discriminate.
Defined.

(** A buffer whose only failing comparison is the field at 0xBC and one
    whose only failing comparison is the trailer are rejected with the same
    error: the message does not name the comparison. *)
Lemma decryptNofsToJson_same_message :
  failed_checks demo_bad_header_svdb = [HeaderSvdb]
  /\ failed_checks demo_bad_trailer = [Trailer]
  /\ decryptNofsToJson demo_platform demo_bad_header_svdb
     = Throw "NOFS length fields mismatch."
  /\ decryptNofsToJson demo_platform demo_bad_trailer
     = Throw "NOFS length fields mismatch.".
Proof. vm_compute. repeat split; reflexivity. Qed.

Lemma subarray_after_header (header rest : list Z) (a b : nat) :
  (length header <= a)%nat ->
  subarray (header ++ rest) a b = subarray rest (a - length header) (b - length header).
Proof.
  intros Ha. unfold subarray. rewrite drop_app_ge by exact Ha.
  f_equal. lia.
Qed.

(** [decryptNofsToJson] reads of the header only its two length fields. *)
Lemma decryptNofsToJson_header_fields (P : Platform) (header header' rest : list Z) :
  length header = HEADER_SIZE -> length header' = HEADER_SIZE ->
  readUInt32LE header 0xb0 = readUInt32LE header' 0xb0 ->
  readUInt32LE header 0xbc = readUInt32LE header' 0xbc ->
  decryptNofsToJson P (header ++ rest) = decryptNofsToJson P (header' ++ rest).
Proof.
  intros Hh Hh' H0 Hc. unfold decryptNofsToJson, Buffer_readUInt32LE.
  rewrite !length_app, Hh, Hh'.
  destruct (Nat.ltb_spec (HEADER_SIZE + length rest) (HEADER_SIZE + 4 + 16 + 4));
    [reflexivity|].
  rewrite !(subarray_after_header header), !(subarray_after_header header')
    by (rewrite ?Hh, ?Hh'; lia).
  rewrite Hh, Hh'.
  rewrite !(readUInt32LE_app_l header), !(readUInt32LE_app_l header')
    by (rewrite ?Hh, ?Hh'; unfold HEADER_SIZE; lia).
  rewrite H0, Hc.
  replace (HEADER_SIZE + length rest - 4)%nat
    with (HEADER_SIZE + (length rest - 4))%nat by (unfold HEADER_SIZE in *; lia).
  assert (Hr : forall h, length h = HEADER_SIZE ->
      readUInt32LE (h ++ rest) (HEADER_SIZE + (length rest - 4))
      = readUInt32LE rest (length rest - 4)).
  { intros h E. rewrite <- E. apply readUInt32LE_app_r. }
  rewrite !Hr by assumption. reflexivity.
Qed.

(** C10 (as the code has it).  A buffer of at least 216 bytes with "SVDB"
    at offset 192, whose three length fields are those that the length of
    its ciphertext gives (the field at 0xBC is 20 plus the length of the
    ciphertext, the field at 0xB0 and the trailer are 20 more), and whose
    ciphertext deciphers to text that parses, is accepted: the result is
    the modern form of the parsed document.  The other 184 bytes of the
    header are never read: two buffers that differ only there get the same
    result, whatever it is. *)
Theorem decryptNofsToJson_ignores_header (P : Platform) :
  (forall nofsBytes decrypted d,
      (216 <= length nofsBytes)%nat ->
      subarray nofsBytes HEADER_SIZE (HEADER_SIZE + 4) = SVDB_MAGIC ->
      readUInt32LE nofsBytes 0xbc = 20 + Z.of_nat (length (ciphertext_of nofsBytes)) ->
      readUInt32LE nofsBytes 0xb0 = 20 + Z.of_nat (length (ciphertext_of nofsBytes)) + 20 ->
      readUInt32LE nofsBytes (length nofsBytes - 4)
      = 20 + Z.of_nat (length (ciphertext_of nofsBytes)) + 20 ->
      aes256cbc_decrypt P KEY (iv_of nofsBytes) (ciphertext_of nofsBytes) = Ok decrypted ->
      JSON_parse P (utf8_decode P decrypted) = Ok d ->
      decryptNofsToJson P nofsBytes = Ok (JSON_stringify P (transformValueForDecrypt d)))
  /\ (forall header header' rest,
        length header = HEADER_SIZE -> length header' = HEADER_SIZE ->
        readUInt32LE header 0xb0 = readUInt32LE header' 0xb0 ->
        readUInt32LE header 0xbc = readUInt32LE header' 0xbc ->
        decryptNofsToJson P (header ++ rest) = decryptNofsToJson P (header' ++ rest)).
Proof.
  split.
  - intros nofsBytes decrypted d Hlen Hmagic H1 H2 H3 Hdec Hparse.
    rewrite decryptNofsToJson_checked by assumption.
    rewrite H1, H2, H3, !Z.eqb_refl. cbn [negb orb].
    rewrite Hdec. cbn [rbind]. unfold transformJsonForDecrypt.
    rewrite Hparse. reflexivity.
  - apply decryptNofsToJson_header_fields.
Qed.

(** The demonstration container with every header byte outside the two
    length fields set to zero is still accepted. *)
Definition demo_blank_header : Uint8Array :=
  replicate 176 0 ++ subarray demo_container 176 180
  ++ replicate 8 0 ++ subarray demo_container 188 192.

Lemma decryptNofsToJson_ignores_header_witness :
  decryptNofsToJson demo_platform (demo_blank_header ++ drop 192 demo_container)
  = Ok "{}"%string.
Proof.
  apply (proj1 (decryptNofsToJson_ignores_header demo_platform)
           (demo_blank_header ++ drop 192 demo_container)
           (utf8_encode demo_platform "{}") (VObject []));
    try (vm_compute; reflexivity).
  vm_compute. lia.
Defined.

(** The demonstration container with 37 at 0xBC and 57 at 0xB0 and in the
    trailer, where 36 and 56 stood. *)
Definition demo_shifted_fields : Uint8Array :=
  <[228%nat := 57]> (<[188%nat := 37]> (<[176%nat := 57]> demo_container)).

(** Length fields that agree with one another are not enough: with the
    field at 0xBC one more than the length of the ciphertext gives, and the
    field at 0xB0 and the trailer 20 more than that field, a buffer of 232
    bytes with "SVDB" at offset 192 whose ciphertext deciphers to [{}] is
    refused. *)
Lemma decryptNofsToJson_refuses_agreeing_fields :
  (216 <= length demo_shifted_fields)%nat
  /\ subarray demo_shifted_fields HEADER_SIZE (HEADER_SIZE + 4) = SVDB_MAGIC
  /\ readUInt32LE demo_shifted_fields 0xb0 = readUInt32LE demo_shifted_fields 0xbc + 20
  /\ readUInt32LE demo_shifted_fields (length demo_shifted_fields - 4)
     = readUInt32LE demo_shifted_fields 0xbc + 20
  /\ aes256cbc_decrypt demo_platform KEY (iv_of demo_shifted_fields)
       (ciphertext_of demo_shifted_fields)
     = Ok (utf8_encode demo_platform "{}")
  /\ JSON_parse demo_platform (utf8_decode demo_platform (utf8_encode demo_platform "{}"))
     = Ok (VObject [])
  /\ decryptNofsToJson demo_platform demo_shifted_fields
     = Throw "NOFS length fields mismatch.".
Proof.
  split; [vm_compute; lia|].
  repeat split; vm_compute; reflexivity.
Qed.

(** ** ConfigValidator ([src/nofs/validate.ts]) *)

Inductive IssueSeverity : Type := SeverityError | SeverityWarning.

Inductive path_item : Type :=
| PathKey (key : string)
| PathIndex (index : nat).

Record ValidationIssue : Type := {
  message : string;
  severity : IssueSeverity;
  path : option (list path_item)
}.

Record ValidationResult : Type := {
  errors : list ValidationIssue;
  warnings : list ValidationIssue
}.

(** A step of the validator: it may push issues on the two arrays, and it
    returns or throws. *)
Definition V (A : Type) : Type := ValidationResult -> result (A * ValidationResult).

Definition vret {A : Type} (a : A) : V A := fun st => Ok (a, st).

Definition vbind {A B : Type} (m : V A) (k : A -> V B) : V B :=
  fun st =>
    match m st with
    | Ok (a, st') => k a st'
    | Throw msg => Throw msg
    end.

Definition vlift {A : Type} (r : result A) : V A :=
  fun st =>
    match r with
    | Ok a => Ok (a, st)
    | Throw msg => Throw msg
    end.

Notation "x <~ m ;; k" := (vbind m (fun x => k))
  (at level 100, m at next level, right associativity).
Notation "m ;;; k" := (vbind m (fun _ => k))
  (at level 100, right associativity).

Definition push_error (msg : string) (p : option (list path_item)) : V unit :=
  fun st =>
    Ok (tt, {| errors := errors st ++ [{| message := msg; severity := SeverityError;
                                          path := p |}];
               warnings := warnings st |}).

Definition push_warning (msg : string) (p : option (list path_item)) : V unit :=
  fun st =>
    Ok (tt, {| errors := errors st;
               warnings := warnings st ++ [{| message := msg; severity := SeverityWarning;
                                              path := p |}] |}).

(** [for (const x of l)] and [l.forEach((x, index) => ...)], the second
    with the state [s] of the variables that the callback updates. *)
Fixpoint for_of {A : Type} (f : A -> V unit) (l : list A) : V unit :=
  match l with
  | [] => vret tt
  | x :: l' => f x ;;; for_of f l'
  end.

Fixpoint forEach {A St : Type} (f : A -> nat -> St -> V St) (l : list A) (index : nat)
  (s : St) : V St :=
  match l with
  | [] => vret s
  | x :: l' => s' <~ f x index s ;; forEach f l' (S index) s'
  end.

(** *** The dynamic types

    The validator receives [unknown] values.  Every use of a value as a
    string, as an array or as an object is one of the three operations
    below, which throw a [TypeError] when the value is of another type
    (JavaScript throws in fewer cases: a property read throws only on
    [undefined] and [null]).  What the validator tests before such a use
    is [typeof], [Array.isArray] and [isObject]. *)

Inductive js_type : Type := TyUndefined | TyObject | TyBoolean | TyNumber | TyString.

Definition typeof (v : value) : js_type :=
  match v with
  | VUndefined => TyUndefined
  | VNull => TyObject
  | VBool _ => TyBoolean
  | VNumber _ => TyNumber
  | VString _ => TyString
  | VArray _ => TyObject
  | VObject _ => TyObject
  end.

Definition js_type_eqb (a b : js_type) : bool :=
  match a, b with
  | TyUndefined, TyUndefined | TyObject, TyObject | TyBoolean, TyBoolean
  | TyNumber, TyNumber | TyString, TyString => true
  | _, _ => false
  end.

Definition is_null (v : value) : bool := match v with VNull => true | _ => false end.
Definition is_undefined (v : value) : bool := match v with VUndefined => true | _ => false end.

(** [typeof value === "object" && value !== null && !Array.isArray(value)]. *)
Definition isObject (v : value) : bool :=
  js_type_eqb (typeof v) TyObject && negb (is_null v) && negb (Array_isArray v).

Definition string_of (v : value) : result string :=
  match v with VString s => Ok s | _ => Throw "TypeError: not a string" end.

Definition array_of (v : value) : result (list value) :=
  match v with VArray items => Ok items | _ => Throw "TypeError: not an array" end.

Definition object_of (v : value) : result object :=
  match v with VObject r => Ok r | _ => Throw "TypeError: not an object" end.

(** [obj[key]] and [Object.keys(obj)]. *)
Definition js_get (obj : value) (key : string) : result value :=
  r <-- object_of obj ;; Ok (obj_get r key).

Definition Object_keys (obj : value) : result (list string) :=
  r <-- object_of obj ;; Ok (keys r).

(** *** The allow-lists *)

Definition ALLOWED_LANGUAGES : list string :=
  ["japanese"; "english"; "mandarin"; "cantonese"; "spanish"]%string.

Definition PHONESET_BY_LANGUAGE : list (string * string) :=
  [("japanese", "romaji"); ("english", "arpabet"); ("mandarin", "xsampa");
   ("cantonese", "xsampa"); ("spanish", "xsampa")]%string.

Definition ALLOWED_SING_MODEL : list string :=
  ["1a83aa71cb09e94bb8171a4f34d22cac"; "2a73920b4208f2d5ba53bced8a528a14";
   "35222088c37134c7629d6873c0386d8d"; "3f649ae6cb04ee4f7e9a7ed72ee29928";
   "4f4bf0c0ae33571c79e21b1c25993e15"; "76d1e71c936b82714d0ead9628903355";
   "92e5ef5b10e68bef3c1fb03c880e6be2"; "b0dbc93ad9636601a8a24425788a884e"]%string.

Definition ALLOWED_BASE_MODEL : list string :=
  ["0cc8e47f4cbc55274c8af9ddd3b99952"; "2c233d8e9b19f1f4dc0276ba3a5542c1";
   "6e5da191faa421a20b529b40c3aa4968"; "a0a5cc5b70b4e3a3fe5eb071ab70c614";
   "a174a445b871f7030c06cbe274c13389"; "bcef8d939a3650f86de9c302b9f4056d";
   "ca6345d21bfd023c1b15203883a431a8"; "dad774b887823741dac345c0d9915628";
   "e6e3e69c5e1adc6d11cf8fae282c2f6b"; "e9d97f23d28c3fd45d7cb8a9671b234d";
   "ef3c4c606a7c4b0668fdd31f493081ee"; "f98eefe8922c4a7adad07e4d152d039b"]%string.

Definition ALLOWED_TIMING_MODEL : list string :=
  ["1537c807a892bb00136c22a8edce6b64"; "23c6a5b548be9b9213b265d7f9f5c03b";
   "301264b6f8f7486759f0148d2b746dd2"; "33d9aff20e1dc7f1e381cf4594a10429";
   "77aa9ba5b60e41fa11b9ad45f2862cb8"; "7b0ea690ada94b4484b50d9d64a21cae";
   "7c291fdb51d0272da213c0fcb22f41f7"; "9c539330eb7536195947ddf988515128";
   "a04629a795e8398ff0ab6baa9ffc04e0"; "b6f4d2a1af8be8fb2b6c1d2ebdb0ce10"]%string.

Definition ALLOWED_F0_MODEL : list string :=
  ["074caf0d79b926635bb8c1c36d2c0a36"; "2c80cc20997ce222724d41faf44d0917";
   "4f6aff3f6430407dd436a88a29121777"; "6316b70ba33c5e2446ec34100a678f98";
   "a4d108b4c61c9ca18f4f8cd297968a90"; "a59fb01761a71d193e4afbd559bc4e6e";
   "a9db2025114e13e294bf89461d8515a7"; "dcee89442f69984189a5b2aedbf9f090";
   "ef62a18bec034f62c75d7428757757bf"; "f3a5378c141a1af88a311055fad488fb"]%string.

Definition TOP_LEVEL_KEYS : list string :=
  ["name"; "version"; "vendor"; "language"; "phoneset"; "support_languages";
   "base_model"; "sing_model"; "timing_model"; "f0_model"; "styles"; "pitch";
   "timing"]%string.

Definition STYLE_KEYS : list string := ["name"; "data"; "extra"]%string.

(** [set.has(x)] and [map.get(x)] on the literals above. *)
Definition Set_has (set : list string) (x : string) : bool := existsb (String.eqb x) set.

Fixpoint Map_get (map : list (string * string)) (x : string) : option string :=
  match map with
  | [] => None
  | (k, v) :: map' => if String.eqb k x then Some v else Map_get map' x
  end.

(** [list.join(sep)]. *)
Fixpoint join (sep : string) (l : list string) : string :=
  match l with
  | [] => ""
  | [x] => x
  | x :: l' => x +:+ sep +:+ join sep l'
  end.

(** A text between double quotes. *)
Definition quoted (s : string) : string :=
  String "034"%char (s +:+ String "034"%char "").

(** *** The rules *)

Definition requireString (obj : value) (key : string) : V unit :=
  value <~ vlift (js_get obj key) ;;
  if negb (js_type_eqb (typeof value) TyString) then
    push_error (quoted key +:+ " must be a string.") (Some [PathKey key])
  else vret tt.

Definition is_digit (c : ascii) : bool :=
  let n := nat_of_ascii c in ((48 <=? n) && (n <=? 57))%nat.

(** The longest prefix of decimal digits, and the rest. *)
Fixpoint span_digits (l : list ascii) : list ascii * list ascii :=
  match l with
  | [] => ([], [])
  | c :: l' =>
      if is_digit c then let '(digits, rest) := span_digits l' in (c :: digits, rest)
      else ([], l)
  end.

(** [/^(\d+)(?:([ab])(\d+))?$/.exec(s)]: the groups 1 and 3 of a match. *)
Definition version_exec (s : string) : option (list ascii * option (list ascii)) :=
  match span_digits (chars s) with
  | ([], _) => None
  | (main, []) => Some (main, None)
  | (main, c :: rest) =>
      if Ascii.eqb c "a" || Ascii.eqb c "b" then
        match span_digits rest with
        | ([], _) => None
        | (branch, []) => Some (main, Some branch)
        | (_, _ :: _) => None
        end
      else None
  end.

(** The number nearest to an integer. *)
Definition Number_of_Z (z : Z) : number := SF2Prim (binary_normalize prec emax z 0 false).

(** [Number.parseInt(digits, 10)] on a text of decimal digits. *)
Definition parseInt10 (digits : list ascii) : number :=
  Number_of_Z (fold_left (fun acc c => 10 * acc + (Z.of_nat (nat_of_ascii c) - 48)) digits 0).

(** [Number.isInteger(x)]. *)
Definition Number_isInteger (x : number) : bool :=
  match Prim2SF x with
  | S754_zero _ => true
  | S754_finite _ m e => if 0 <=? e then true else Zpos m mod 2 ^ (- e) =? 0
  | _ => false
  end.

Definition validateVersion (value : value) : V unit :=
  if negb (js_type_eqb (typeof value) TyString) then
    push_error (quoted "version" +:+ " must be a string.") (Some [PathKey "version"])
  else
    text <~ vlift (string_of value) ;;
    match version_exec text with
    | None =>
        push_error (quoted "version" +:+ " must match <int>[a|b<int>].")
          (Some [PathKey "version"])
    | Some (group1, group3) =>
        let main := parseInt10 group1 in
        let branch := match group3 with Some digits => parseInt10 digits | None => 0%float end in
        if negb (Number_isInteger main) || (main <? 0)%float
           || negb (Number_isInteger branch) || (branch <? 0)%float
        then
          push_error (quoted "version" +:+ " must contain non-negative integers.")
            (Some [PathKey "version"])
        else vret tt
    end.

Definition one_of_languages : string := join ", " ALLOWED_LANGUAGES.

Definition validateLanguage (value : value) (path : list path_item) : V unit :=
  if negb (js_type_eqb (typeof value) TyString) then
    push_error (quoted "language" +:+ " must be a string.") (Some path)
  else
    text <~ vlift (string_of value) ;;
    let normalized := toLowerCase text in
    if negb (Set_has ALLOWED_LANGUAGES normalized) then
      push_error (quoted "language" +:+ " must be one of: " +:+ one_of_languages +:+ ".")
        (Some path)
    else vret tt.

Definition validatePhoneset (language phoneset : value) : V unit :=
  if negb (js_type_eqb (typeof language) TyString) then vret tt
  else
    text <~ vlift (string_of language) ;;
    let normalizedLanguage := toLowerCase text in
    match Map_get PHONESET_BY_LANGUAGE normalizedLanguage with
    | None => vret tt
    | Some expected =>
        if negb (js_type_eqb (typeof phoneset) TyString) then
          push_error (quoted "phoneset" +:+ " must be a string.") (Some [PathKey "phoneset"])
        else
          phonesetText <~ vlift (string_of phoneset) ;;
          if negb (String.eqb (toLowerCase phonesetText) expected) then
            push_error
              (quoted "phoneset" +:+ " must be " +:+ quoted expected
               +:+ " when language is " +:+ quoted normalizedLanguage +:+ ".")
              (Some [PathKey "phoneset"])
          else vret tt
    end.

Definition validateSupportLanguages (value : value) (path : list path_item) : V unit :=
  if negb (Array_isArray value) then
    push_error (quoted "support_languages" +:+ " must be an array.") (Some path)
  else
    items <~ vlift (array_of value) ;;
    forEach
      (fun entry index (_ : unit) =>
         if negb (js_type_eqb (typeof entry) TyString) then
           push_error "support_languages entries must be strings."
             (Some (path ++ [PathIndex index]))
         else
           text <~ vlift (string_of entry) ;;
           let normalized := toLowerCase text in
           if negb (Set_has ALLOWED_LANGUAGES normalized) then
             push_error
               (quoted "support_languages" +:+ " must be one of: " +:+ one_of_languages
                +:+ ".")
               (Some (path ++ [PathIndex index]))
           else vret tt)
      items 0%nat tt.

Definition validateModelId (value : value) (allowed : list string) (key : string)
  : V unit :=
  if negb (js_type_eqb (typeof value) TyString) then
    push_error (quoted key +:+ " must be a string.") (Some [PathKey key])
  else
    text <~ vlift (string_of value) ;;
    if negb (Set_has allowed text) then
      push_error (quoted key +:+ " must be one of the approved IDs.") (Some [PathKey key])
    else vret tt.

(** The decimal text of a length, for the message of [validateHex]. *)
Definition length_text (n : nat) : string := pretty n.

Definition validateHex (value : value) (len : nat) (path : list path_item) : V bool :=
  if negb (js_type_eqb (typeof value) TyString) then
    push_error "Hex value must be a string." (Some path) ;;; vret false
  else
    text <~ vlift (string_of value) ;;
    if negb (hex_re_test len text) then
      push_error ("Hex value must be exactly " +:+ length_text len +:+ " hex characters.")
        (Some path) ;;;
      vret false
    else vret true.

(** [name.includes(" ")]. *)
Definition includes_space (s : string) : bool := existsb (Ascii.eqb " ") (chars s).

(** The callback of [validateStyles]; [seen] is the set of the names met
    so far. *)
Definition validateStyle (entry : value) (index : nat) (seen : gset string)
  : V (gset string) :=
  if negb (isObject entry) then
    push_error "Each style entry must be an object."
      (Some [PathKey "styles"; PathIndex index]) ;;;
    vret seen
  else
    styleKeys <~ vlift (Object_keys entry) ;;
    for_of
      (fun key =>
         if negb (Set_has STYLE_KEYS key) then
           push_warning ("Unknown style key " +:+ quoted key +:+ ".")
             (Some [PathKey "styles"; PathIndex index; PathKey key])
         else vret tt)
      styleKeys ;;;
    name <~ vlift (js_get entry "name") ;;
    seen <~
      (if negb (js_type_eqb (typeof name) TyString) then
         push_error "style.name must be a string."
           (Some [PathKey "styles"; PathIndex index; PathKey "name"]) ;;;
         vret seen
       else
         text <~ vlift (string_of name) ;;
         (if includes_space text then
            push_error "style.name cannot contain spaces."
              (Some [PathKey "styles"; PathIndex index; PathKey "name"])
          else vret tt) ;;;
         (if bool_decide (text ∈ seen) then
            push_error ("Duplicate style name " +:+ quoted text +:+ ".")
              (Some [PathKey "styles"; PathIndex index; PathKey "name"])
          else vret tt) ;;;
         vret ({[text]} ∪ seen)) ;;
    data <~ vlift (js_get entry "data") ;;
    _ <~ validateHex data 256 [PathKey "styles"; PathIndex index; PathKey "data"] ;;
    vret seen.

Definition validateStyles (value : value) : V unit :=
  if negb (Array_isArray value) then
    push_error (quoted "styles" +:+ " must be an array.") (Some [PathKey "styles"])
  else
    items <~ vlift (array_of value) ;;
    _ <~ forEach validateStyle items 0%nat ∅ ;;
    vret tt.

(** The rules that [validateNofsData] applies to a root object. *)
Definition validate_root_object (obj : value) : V unit :=
  topKeys <~ vlift (Object_keys obj) ;;
  for_of
    (fun key =>
       if negb (Set_has TOP_LEVEL_KEYS key) then
         push_warning ("Unknown key " +:+ quoted key +:+ ".") (Some [PathKey key])
       else vret tt)
    topKeys ;;;
  requireString obj "name" ;;;
  requireString obj "vendor" ;;;
  requireString obj "phoneset" ;;;
  version <~ vlift (js_get obj "version") ;;
  validateVersion version ;;;
  language <~ vlift (js_get obj "language") ;;
  validateLanguage language [PathKey "language"] ;;;
  support_languages <~ vlift (js_get obj "support_languages") ;;
  validateSupportLanguages support_languages [PathKey "support_languages"] ;;;
  phoneset <~ vlift (js_get obj "phoneset") ;;
  validatePhoneset language phoneset ;;;
  sing_model <~ vlift (js_get obj "sing_model") ;;
  validateModelId sing_model ALLOWED_SING_MODEL "sing_model" ;;;
  base_model <~ vlift (js_get obj "base_model") ;;
  validateModelId base_model ALLOWED_BASE_MODEL "base_model" ;;;
  timing_model <~ vlift (js_get obj "timing_model") ;;
  validateModelId timing_model ALLOWED_TIMING_MODEL "timing_model" ;;;
  f0_model <~ vlift (js_get obj "f0_model") ;;
  validateModelId f0_model ALLOWED_F0_MODEL "f0_model" ;;;
  styles <~ vlift (js_get obj "styles") ;;
  validateStyles styles ;;;
  pitch <~ vlift (js_get obj "pitch") ;;
  (if is_undefined pitch then
     push_error (quoted "pitch" +:+ " is required.") (Some [PathKey "pitch"])
   else _ <~ validateHex pitch 256 [PathKey "pitch"] ;; vret tt) ;;;
  timing <~ vlift (js_get obj "timing") ;;
  (if is_undefined timing then
     push_error (quoted "timing" +:+ " is required.") (Some [PathKey "timing"])
   else _ <~ validateHex timing 1024 [PathKey "timing"] ;; vret tt).

Definition validateNofsData (data : value) : result ValidationResult :=
  let start := {| errors := []; warnings := [] |} in
  if negb (isObject data) then
    r <-- push_error "Root value must be an object." None start ;; Ok (snd r)
  else
    r <-- validate_root_object data start ;; Ok (snd r).

(** The fixture [validConfig] of [test/nofs.test.ts], with the given
    styles. *)
Definition repeat_char (c : ascii) (n : nat) : string := str (replicate n c).

Definition valid_config_with (styles : list value) : value :=
  VObject
    [("name", VString "Test VB"); ("version", VString "200a0");
     ("vendor", VString "Test Vendor"); ("language", VString "English");
     ("phoneset", VString "arpabet");
     ("support_languages", VArray [VString "english"; VString "spanish"]);
     ("base_model", VString "0cc8e47f4cbc55274c8af9ddd3b99952");
     ("sing_model", VString "1a83aa71cb09e94bb8171a4f34d22cac");
     ("timing_model", VString "1537c807a892bb00136c22a8edce6b64");
     ("f0_model", VString "074caf0d79b926635bb8c1c36d2c0a36");
     ("styles", VArray styles);
     ("pitch", VString (repeat_char "C" 256));
     ("timing", VString (repeat_char "D" 1024))].

Definition style_entry (name : string) (c : ascii) : value :=
  VObject [("name", VString name); ("data", VString (repeat_char c 256))].

Example validateNofsData_accepts_valid_config :
  validateNofsData (valid_config_with [style_entry "Soft" "A"; style_entry "Power" "B"])
  = Ok {| errors := []; warnings := [] |}.
Proof. vm_compute. reflexivity. Qed.

Example validateNofsData_flags_duplicate :
  validateNofsData (valid_config_with [style_entry "Soft" "A"; style_entry "Soft" "B"])
  = Ok {| errors :=
            [{| message := "Duplicate style name " +:+ quoted "Soft" +:+ ".";
                severity := SeverityError;
                path := Some [PathKey "styles"; PathIndex 1; PathKey "name"] |}];
          warnings := [] |}.
Proof. vm_compute. reflexivity. Qed.

Example validateNofsData_rejects_version :
  validateNofsData
    (VObject (<[1%nat := ("version"%string, VString "v2")]>
                (props_of (valid_config_with []))))
  = Ok {| errors :=
            [{| message := quoted "version" +:+ " must match <int>[a|b<int>].";
                severity := SeverityError;
                path := Some [PathKey "version"] |}];
          warnings := [] |}.
Proof. vm_compute. reflexivity. Qed.

Example validateNofsData_root_not_object :
  validateNofsData (VArray [])
  = Ok {| errors := [{| message := "Root value must be an object.";
                        severity := SeverityError; path := None |}];
          warnings := [] |}.
Proof. vm_compute. reflexivity. Qed.

(** *** Steps that return *)

(** [m] returns [a] after pushing the errors [es] and the warnings [ws],
    whatever the arrays hold before. *)
Definition appends {A : Type} (m : V A) (a : A) (es ws : list ValidationIssue) : Prop :=
  forall st,
    m st = Ok (a, {| errors := errors st ++ es; warnings := warnings st ++ ws |}).

(** [m] returns, and every error that it pushes satisfies [Q]. *)
Definition returns_with {A : Type} (Q : ValidationIssue -> Prop) (m : V A) : Prop :=
  exists a es ws, appends m a es ws /\ Forall Q es.

Lemma appends_ret {A : Type} (a : A) : appends (vret a) a [] [].
Proof. intros [es ws]. unfold vret. simpl. rewrite !app_nil_r. reflexivity. Qed.

Lemma appends_lift {A : Type} (r : result A) (a : A) :
  r = Ok a -> appends (vlift r) a [] [].
Proof. intros -> [es ws]. unfold vlift. simpl. rewrite !app_nil_r. reflexivity. Qed.

Lemma appends_push_error (msg : string) (p : option (list path_item)) :
  appends (push_error msg p) tt
    [{| message := msg; severity := SeverityError; path := p |}] [].
Proof. intros [es ws]. unfold push_error. simpl. rewrite app_nil_r. reflexivity. Qed.

Lemma appends_push_warning (msg : string) (p : option (list path_item)) :
  appends (push_warning msg p) tt []
    [{| message := msg; severity := SeverityWarning; path := p |}].
Proof. intros [es ws]. unfold push_warning. simpl. rewrite app_nil_r. reflexivity. Qed.

Lemma appends_bind {A B : Type} (m : V A) (k : A -> V B) (a : A) (b : B)
  (es ws es' ws' : list ValidationIssue) :
  appends m a es ws -> appends (k a) b es' ws' ->
  appends (vbind m k) b (es ++ es') (ws ++ ws').
Proof.
  intros Hm Hk st. unfold vbind. rewrite Hm, Hk. simpl. rewrite !app_assoc. reflexivity.
Qed.

Section Returns.

Variable Q : ValidationIssue -> Prop.

Lemma returns_ret {A : Type} (a : A) : returns_with Q (vret a).
Proof. exists a, [], []. split; [apply appends_ret | constructor]. Qed.

Lemma returns_lift {A : Type} (r : result A) (a : A) :
  r = Ok a -> returns_with Q (vlift r).
Proof. intros H. exists a, [], []. split; [apply appends_lift; exact H | constructor]. Qed.

Lemma returns_push_error (msg : string) (p : option (list path_item)) :
  Q {| message := msg; severity := SeverityError; path := p |} ->
  returns_with Q (push_error msg p).
Proof.
  intros H. eexists tt, _, _. split; [apply appends_push_error|].
  constructor; [exact H | constructor].
Qed.

Lemma returns_push_warning (msg : string) (p : option (list path_item)) :
  returns_with Q (push_warning msg p).
Proof. eexists tt, _, _. split; [apply appends_push_warning | constructor]. Qed.

Lemma returns_bind {A B : Type} (m : V A) (k : A -> V B) :
  returns_with Q m -> (forall a, returns_with Q (k a)) -> returns_with Q (vbind m k).
Proof.
  intros (a & es & ws & Hm & HQ) Hk. destruct (Hk a) as (b & es' & ws' & Hk' & HQ').
  exists b, (es ++ es'), (ws ++ ws'). split.
  - eapply appends_bind; eassumption.
  - apply Forall_app. split; assumption.
Qed.

Lemma returns_for_of {A : Type} (f : A -> V unit) (l : list A) :
  (forall x, returns_with Q (f x)) -> returns_with Q (for_of f l).
Proof.
  intros Hf. induction l as [|x l IH]; simpl.
  - apply returns_ret.
  - apply returns_bind; [apply Hf | intros _; exact IH].
Qed.

Lemma returns_forEach {A St : Type} (f : A -> nat -> St -> V St) (l : list A) :
  (forall x index s, returns_with Q (f x index s)) ->
  forall index s, returns_with Q (forEach f l index s).
Proof.
  intros Hf. induction l as [|x l IH]; intros index s; simpl.
  - apply returns_ret.
  - apply returns_bind; [apply Hf | intros s'; apply IH].
Qed.

End Returns.

(** One step of a proof that a rule returns: the monad's operations, a
    conditional, a downcast that the test before it makes safe. *)
Ltac returns_step :=
  match goal with
  | |- returns_with _ (vret _) => apply returns_ret
  | |- returns_with _ (push_warning _ _) => apply returns_push_warning
  | |- returns_with _ (push_error _ _) => apply returns_push_error; try exact I
  | |- returns_with _ (vlift (Ok _)) => eapply returns_lift; reflexivity
  | |- returns_with _ (vbind _ _) => apply returns_bind; [|intros ?]
  | |- returns_with _ (for_of _ _) => apply returns_for_of; intros ?
  | |- returns_with _ (forEach _ _ _ _) => apply returns_forEach; intros ? ? ?
  | |- returns_with _ (if negb (js_type_eqb (typeof ?v) _) then _ else _) =>
      destruct v; cbn [typeof js_type_eqb negb string_of]
  | |- returns_with _ (if ?b then _ else _) => destruct b
  | |- returns_with _ (match ?o with Some _ => _ | None => _ end) => destruct o
  | |- returns_with _ (let '(_, _) := ?p in _) => destruct p
  end.

Ltac returns_auto := repeat returns_step.

(** An error of a rule other than the rule of the style names: its path
    is absent or has at most two components, or ends in [data]. *)
Definition not_a_style_name (i : ValidationIssue) : Prop :=
  match path i with
  | Some [_; _; PathKey key] => key <> "name"%string
  | _ => True
  end.

Section ReturnsRules.

Variable Q : ValidationIssue -> Prop.
Hypothesis Q_other : forall i, not_a_style_name i -> Q i.

Ltac q_auto := try (apply Q_other; simpl; try exact I; discriminate).

Lemma requireString_returns (r : list (string * value)) (key : string) :
  returns_with Q (requireString (VObject r) key).
Proof.
  unfold requireString, js_get. cbn [object_of rbind].
  returns_auto; q_auto.
Qed.

Lemma validateVersion_returns (v : value) : returns_with Q (validateVersion v).
Proof.
  unfold validateVersion. destruct v; cbn [typeof js_type_eqb negb string_of];
    returns_auto; q_auto.
Qed.

Lemma validateLanguage_returns (v : value) (key : string) :
  returns_with Q (validateLanguage v [PathKey key]).
Proof.
  unfold validateLanguage. destruct v; cbn [typeof js_type_eqb negb string_of];
    returns_auto; q_auto.
Qed.

Lemma validatePhoneset_returns (language phoneset : value) :
  returns_with Q (validatePhoneset language phoneset).
Proof.
  unfold validatePhoneset.
  destruct language; cbn [typeof js_type_eqb negb string_of]; returns_auto; q_auto.
  all: destruct phoneset; cbn [typeof js_type_eqb negb string_of]; returns_auto; q_auto.
Qed.

Lemma validateSupportLanguages_returns (v : value) (key : string) :
  returns_with Q (validateSupportLanguages v [PathKey key]).
Proof.
  unfold validateSupportLanguages.
  destruct v; cbn [Array_isArray negb array_of]; returns_auto; q_auto.
  all: match goal with x : value |- _ =>
         destruct x; cbn [typeof js_type_eqb negb string_of]; returns_auto; q_auto
       end.
Qed.

Lemma validateModelId_returns (v : value) (allowed : list string) (key : string) :
  returns_with Q (validateModelId v allowed key).
Proof.
  unfold validateModelId. destruct v; cbn [typeof js_type_eqb negb string_of];
    returns_auto; q_auto.
Qed.

Lemma validateHex_returns (v : value) (len : nat) (p : list path_item) :
  not_a_style_name {| message := ""; severity := SeverityError; path := Some p |} ->
  returns_with Q (validateHex v len p).
Proof.
  intros Hp. unfold validateHex.
  destruct v; cbn [typeof js_type_eqb negb string_of]; returns_auto;
    apply Q_other; exact Hp.
Qed.

End ReturnsRules.

(** *** The issues of [validateStyles] *)

Definition issue (msg : string) (p : list path_item) : ValidationIssue :=
  {| message := msg; severity := SeverityError; path := Some p |}.

Definition space_issue (index : nat) : ValidationIssue :=
  issue "style.name cannot contain spaces."
    [PathKey "styles"; PathIndex index; PathKey "name"].

Definition duplicate_issue (name : string) (index : nat) : ValidationIssue :=
  issue ("Duplicate style name " +:+ quoted name +:+ ".")
    [PathKey "styles"; PathIndex index; PathKey "name"].

(** The errors of [validateHex]. *)
Definition hex_issues (v : value) (len : nat) (p : list path_item) : list ValidationIssue :=
  match v with
  | VString s =>
      if hex_re_test len s then []
      else [issue ("Hex value must be exactly " +:+ length_text len +:+ " hex characters.") p]
  | _ => [issue "Hex value must be a string." p]
  end.

Definition hex_ok (v : value) (len : nat) : bool :=
  match v with VString s => hex_re_test len s | _ => false end.

(** The errors for the name of a style, and the names met after it. *)
Definition name_issues (name : value) (index : nat) (seen : gset string)
  : list ValidationIssue :=
  match name with
  | VString text =>
      (if includes_space text then [space_issue index] else [])
      ++ (if bool_decide (text ∈ seen) then [duplicate_issue text index] else [])
  | _ => [issue "style.name must be a string."
            [PathKey "styles"; PathIndex index; PathKey "name"]]
  end.

Definition seen_after (entry : value) (seen : gset string) : gset string :=
  match entry with
  | VObject r =>
      match obj_get r "name" with
      | VString text => {[text]} ∪ seen
      | _ => seen
      end
  | _ => seen
  end.

(** The errors and the warnings of one entry of [styles]. *)
Definition style_issues (entry : value) (index : nat) (seen : gset string)
  : list ValidationIssue :=
  match entry with
  | VObject r =>
      name_issues (obj_get r "name") index seen
      ++ hex_issues (obj_get r "data") 256
           [PathKey "styles"; PathIndex index; PathKey "data"]
  | _ => [issue "Each style entry must be an object."
            [PathKey "styles"; PathIndex index]]
  end.

Definition key_warnings (index : nat) (ks : list string) : list ValidationIssue :=
  flat_map
    (fun key =>
       if negb (Set_has STYLE_KEYS key) then
         [{| message := "Unknown style key " +:+ quoted key +:+ ".";
             severity := SeverityWarning;
             path := Some [PathKey "styles"; PathIndex index; PathKey key] |}]
       else [])
    ks.

Definition style_warnings (entry : value) (index : nat) : list ValidationIssue :=
  match entry with
  | VObject r => key_warnings index (keys r)
  | _ => []
  end.

(** The errors and the warnings of the entries from [index] on. *)
Fixpoint styles_issues (items : list value) (index : nat) (seen : gset string)
  : list ValidationIssue :=
  match items with
  | [] => []
  | entry :: items' =>
      style_issues entry index seen
      ++ styles_issues items' (S index) (seen_after entry seen)
  end.

Fixpoint styles_warnings (items : list value) (index : nat) : list ValidationIssue :=
  match items with
  | [] => []
  | entry :: items' => style_warnings entry index ++ styles_warnings items' (S index)
  end.

Lemma appends_eq {A : Type} (m : V A) (a : A) (es ws es' ws' : list ValidationIssue) :
  appends m a es ws -> es = es' -> ws = ws' -> appends m a es' ws'.
Proof. intros H <- <-. exact H. Qed.

Lemma validateHex_appends (v : value) (len : nat) (p : list path_item) :
  appends (validateHex v len p) (hex_ok v len) (hex_issues v len p) [].
Proof.
  intros [es ws]. unfold validateHex, vbind, vlift, push_error, vret.
  destruct v; cbn [typeof js_type_eqb negb string_of hex_issues hex_ok errors warnings];
    rewrite ?app_nil_r; try reflexivity.
  destruct (hex_re_test len s); cbn [negb errors warnings]; rewrite ?app_nil_r; reflexivity.
Qed.

Lemma key_warnings_appends (index : nat) (ks : list string) :
  appends
    (for_of
       (fun key =>
          if negb (Set_has STYLE_KEYS key) then
            push_warning ("Unknown style key " +:+ quoted key +:+ ".")
              (Some [PathKey "styles"; PathIndex index; PathKey key])
          else vret tt) ks)
    tt [] (key_warnings index ks).
Proof.
  induction ks as [|key ks IH]; [apply appends_ret|].
  intros [es ws]. cbn [for_of key_warnings flat_map]. unfold vbind at 1.
  destruct (negb (Set_has STYLE_KEYS key)).
  - unfold push_warning at 1. cbn [errors warnings]. rewrite IH.
    cbn [errors warnings app]. rewrite <- !app_assoc. reflexivity.
  - unfold vret at 1. rewrite IH. reflexivity.
Qed.

Lemma name_appends (name : value) (index : nat) (seen : gset string) :
  appends
    (if negb (js_type_eqb (typeof name) TyString) then
       push_error "style.name must be a string."
         (Some [PathKey "styles"; PathIndex index; PathKey "name"]) ;;;
       vret seen
     else
       text <~ vlift (string_of name) ;;
       (if includes_space text then
          push_error "style.name cannot contain spaces."
            (Some [PathKey "styles"; PathIndex index; PathKey "name"])
        else vret tt) ;;;
       (if bool_decide (text ∈ seen) then
          push_error ("Duplicate style name " +:+ quoted text +:+ ".")
            (Some [PathKey "styles"; PathIndex index; PathKey "name"])
        else vret tt) ;;;
       vret ({[text]} ∪ seen))
    (match name with VString text => {[text]} ∪ seen | _ => seen end)
    (name_issues name index seen) [].
Proof.
  intros [es ws]. unfold vbind, vlift, push_error, vret.
  destruct name; cbn [typeof js_type_eqb negb string_of name_issues errors warnings];
    rewrite ?app_nil_r; try reflexivity.
  destruct (includes_space s), (bool_decide (s ∈ seen));
    cbn [errors warnings app]; rewrite <- ?app_assoc, ?app_nil_r; reflexivity.
Qed.

Lemma validateStyle_appends (entry : value) (index : nat) (seen : gset string) :
  appends (validateStyle entry index seen) (seen_after entry seen)
    (style_issues entry index seen) (style_warnings entry index).
Proof.
  unfold validateStyle.
  destruct entry;
    cbn [isObject typeof js_type_eqb is_null Array_isArray andb negb
         style_issues style_warnings seen_after];
    try (eapply appends_eq;
         [eapply appends_bind; [apply appends_push_error | apply appends_ret]
         | reflexivity | reflexivity]).
  unfold Object_keys, js_get. cbn [object_of rbind].
  eapply appends_eq.
  - eapply appends_bind; [apply appends_lift; reflexivity|].
    eapply appends_bind; [apply key_warnings_appends|].
    eapply appends_bind; [apply appends_lift; reflexivity|].
    eapply appends_bind; [apply name_appends|].
    eapply appends_bind; [apply appends_lift; reflexivity|].
    eapply appends_bind; [apply validateHex_appends | apply appends_ret].
  - cbn [app]. rewrite !app_nil_r. reflexivity.
  - cbn [app]. rewrite !app_nil_r. reflexivity.
Qed.

Lemma forEach_validateStyle_appends (items : list value) :
  forall (index : nat) (seen : gset string),
    exists seen',
      appends (forEach validateStyle items index seen) seen'
        (styles_issues items index seen) (styles_warnings items index).
Proof.
  induction items as [|entry items IH]; intros index seen.
  - exists seen. apply appends_ret.
  - destruct (IH (S index) (seen_after entry seen)) as [seen' H].
    exists seen'. cbn [forEach styles_issues styles_warnings].
    eapply appends_bind; [apply validateStyle_appends | exact H].
Qed.

Lemma validateStyles_appends (items : list value) :
  appends (validateStyles (VArray items)) tt
    (styles_issues items 0 ∅) (styles_warnings items 0).
Proof.
  unfold validateStyles. cbn [Array_isArray negb array_of].
  destruct (forEach_validateStyle_appends items 0%nat ∅) as [seen' H].
  eapply appends_eq.
  - eapply appends_bind; [apply appends_lift; reflexivity|].
    eapply appends_bind; [exact H | apply appends_ret].
  - cbn [app]. rewrite app_nil_r. reflexivity.
  - cbn [app]. rewrite app_nil_r. reflexivity.
Qed.

(** *** The validator never throws *)

Lemma appends_returns {A : Type} (m : V A) (a : A) (es ws : list ValidationIssue) :
  appends m a es ws -> returns_with (fun _ => True) m.
Proof.
  intros H. exists a, es, ws. split; [exact H|].
  apply Forall_forall. intros; exact I.
Qed.

Lemma validateStyles_returns (v : value) : returns_with (fun _ => True) (validateStyles v).
Proof.
  destruct v as [| | b | n | s | items | r];
    try (eapply appends_returns; apply validateStyles_appends);
    unfold validateStyles; cbn [Array_isArray negb]; returns_auto.
Qed.

Lemma validate_root_object_returns (r : list (string * value)) :
  returns_with (fun _ => True) (validate_root_object (VObject r)).
Proof.
  unfold validate_root_object, Object_keys, js_get. cbn [object_of rbind].
  repeat first
    [ apply requireString_returns; intros; exact I
    | apply validateVersion_returns; intros; exact I
    | apply validateLanguage_returns; intros; exact I
    | apply validateSupportLanguages_returns; intros; exact I
    | apply validatePhoneset_returns; intros; exact I
    | apply validateModelId_returns; intros; exact I
    | apply validateStyles_returns
    | apply validateHex_returns; [intros; exact I | exact I]
    | returns_step ].
Qed.

(** *** Where the errors of the style names are *)























(** * The rest of the engine and its callers *)

(** ** More of the vector codec ([src/mixer/math.ts]) *)

(** The byte that [hexToVec32] reads from two hexadecimal digits is
    written back by [bytesToHex] as the same digits in upper case. *)
Definition pair_ok (a b : ascii) : bool :=
  if is_hex_char a && is_hex_char b then
    String.eqb (str (hex2 (ToUint8 (parseInt16 (str [a; b])))))
      (str [upper_char a; upper_char b])
  else true.

Lemma pair_ok_all : forallb (fun a => forallb (pair_ok a) all_ascii) all_ascii = true.
Proof. vm_compute. reflexivity. Qed.

Lemma hex2_parse (a b : ascii) :
  is_hex_char a = true -> is_hex_char b = true ->
  hex2 (ToUint8 (parseInt16 (str [a; b]))) = [upper_char a; upper_char b].
Proof.
  intros Ha Hb.
  pose proof (forall_ascii _ (forall_ascii _ pair_ok_all a) b) as H.
  unfold pair_ok in H. rewrite Ha, Hb in H. apply String.eqb_eq in H.
  apply (f_equal chars) in H. rewrite !chars_str in H. exact H.
Qed.

Lemma ToUint8_range (v : option Z) : 0 <= ToUint8 v < 256.
Proof. destruct v as [n|]; simpl; [apply Z.mod_pos_bound|]; lia. Qed.

Lemma byte_at_range (bytes : list Z) (i : nat) :
  Forall (fun b => 0 <= b < 256) bytes -> 0 <= byte_at bytes i < 256.
Proof.
  intros H. unfold byte_at. destruct (bytes !! i) as [b|] eqn:E; simpl; [|lia].
  rewrite Forall_forall in H. apply H. apply list_elem_of_lookup. eauto.
Qed.

Lemma readUInt32LE_range (bytes : list Z) (off : nat) :
  Forall (fun b => 0 <= b < 256) bytes -> 0 <= readUInt32LE bytes off < 2 ^ 32.
Proof.
  intros H. unfold readUInt32LE.
  pose proof (byte_at_range bytes off H). pose proof (byte_at_range bytes (off + 1) H).
  pose proof (byte_at_range bytes (off + 2) H). pose proof (byte_at_range bytes (off + 3) H).
  change (2 ^ 32) with 4294967296. lia.
Qed.

(** The bytes that [hexToVec32] reads from its text. *)
Definition hex_bytes (hex : string) : list Z :=
  map (fun i => ToUint8 (parseInt16 (slice hex (i * 2) (i * 2 + 2)))) (seq 0 128).

Lemma hex_bytes_range (hex : string) : Forall (fun b => 0 <= b < 256) (hex_bytes hex).
Proof.
  unfold hex_bytes. apply Forall_forall. intros b Hb.
  apply list_elem_of_In, in_map_iff in Hb as (i & <- & _). apply ToUint8_range.
Qed.

(** The 32-bit words that [hexToVec32] reads from these bytes. *)
Definition hex_words (hex : string) : list Z :=
  map (fun i => readUInt32LE (hex_bytes hex) (i * 4)) (seq 0 32).

Lemma hex_words_range (hex : string) : Forall (fun w => 0 <= w < 2 ^ 32) (hex_words hex).
Proof.
  unfold hex_words. apply Forall_forall. intros w Hw.
  apply list_elem_of_In, in_map_iff in Hw as (i & <- & _).
  apply readUInt32LE_range, hex_bytes_range.
Qed.

Lemma hexToVec32_closed (hex : string) :
  HEX_RE_256 hex = true ->
  hexToVec32 hex = Ok (map through_Number (hex_words hex)).
Proof.
  intros H. unfold hexToVec32. rewrite H. cbn [negb]. apply (f_equal Ok).
  rewrite (for_loop_fill _ 128 (replicate 128 0) eq_refl).
  rewrite (for_loop_fill _ 32 (replicate 32 0) eq_refl).
  unfold hex_words. rewrite map_map. reflexivity.
Qed.

(** X1. [hexToVec32] throws [Expected 256 hex characters.] on every text
    that is not 256 hexadecimal digits, and on 256 digits it returns 32
    binary32 patterns. *)
Theorem hexToVec32_domain (hex : string) :
  (HEX_RE_256 hex = false -> hexToVec32 hex = Throw "Expected 256 hex characters.")
  /\ (HEX_RE_256 hex = true ->
      exists v, hexToVec32 hex = Ok v /\ length v = 32%nat
                /\ Forall (fun w => 0 <= w < 2 ^ 32) v).
Proof.
  split; intros H.
  - unfold hexToVec32. rewrite H. reflexivity.
  - eexists. split; [apply hexToVec32_closed; exact H|]. split.
    + unfold hex_words. rewrite !length_map, length_seq. reflexivity.
    + apply through_Number_all_range, hex_words_range.
Qed.

Lemma hexToVec32_domain_witness :
  hexToVec32 "00" = Throw "Expected 256 hex characters."
  /\ exists v, hexToVec32 (str (replicate 256 "a"%char)) = Ok v /\ length v = 32%nat
               /\ Forall (fun w => 0 <= w < 2 ^ 32) v.
Proof.
  split.
  - apply (proj1 (hexToVec32_domain "00")). reflexivity.
  - apply (proj2 (hexToVec32_domain (str (replicate 256 "a"%char)))). reflexivity.
Defined.

(** *** Decoding, then encoding *)

Lemma le_bytes_of_bytes (a b c d : Z) :
  0 <= a < 256 -> 0 <= b < 256 -> 0 <= c < 256 -> 0 <= d < 256 ->
  le_bytes (a + 256 * b + 65536 * c + 16777216 * d) = [a; b; c; d].
Proof.
  intros Ha Hb Hc Hd. unfold le_bytes.
  change 65536 with (256 * 256). change 16777216 with (256 * 256 * 256).
  rewrite <- !Z.div_div by lia.
  repeat f_equal; Z.div_mod_to_equations; lia.
Qed.

Lemma le_bytes_read (n : nat) :
  forall bytes : list Z,
    length bytes = (n * 4)%nat -> Forall (fun b => 0 <= b < 256) bytes ->
    concat (map (fun i => le_bytes (readUInt32LE bytes (i * 4))) (seq 0 n)) = bytes.
Proof.
  induction n as [|n IH]; intros bytes Hlen Hr.
  - destruct bytes; [reflexivity | discriminate Hlen].
  - destruct bytes as [|a [|b [|c [|d rest]]]]; try discriminate Hlen.
    cbn [seq map concat]. rewrite <- seq_shift, map_map.
    change (0 * 4)%nat with 0%nat. rewrite readUInt32LE_head.
    inversion Hr as [|? ? Ha Hr1]; subst. inversion Hr1 as [|? ? Hb Hr2]; subst.
    inversion Hr2 as [|? ? Hc Hr3]; subst. inversion Hr3 as [|? ? Hd Hr4]; subst.
    rewrite le_bytes_of_bytes by assumption. cbn [app]. do 4 f_equal.
    transitivity (concat (map (fun i => le_bytes (readUInt32LE rest (i * 4))) (seq 0 n))).
    + f_equal; apply map_ext; intros i; apply readUInt32LE_skip.
    + apply IH; [simpl in Hlen; lia | exact Hr4].
Qed.

(** A list of even length is the chain of its pairs. *)
Lemma concat_pairs {A : Type} (n : nat) :
  forall l : list A,
    length l = (n * 2)%nat ->
    concat (map (fun i => take 2 (drop (i * 2) l)) (seq 0 n)) = l.
Proof.
  induction n as [|n IH]; intros l Hlen.
  - destruct l; [reflexivity | discriminate Hlen].
  - destruct l as [|a [|b rest]]; try discriminate Hlen.
    cbn [seq map concat]. rewrite <- seq_shift, map_map.
    change (take 2 (drop (0 * 2) (a :: b :: rest))) with [a; b]. cbn [app]. do 2 f_equal.
    transitivity (concat (map (fun i => take 2 (drop (i * 2) rest)) (seq 0 n))).
    + f_equal.
    + apply IH. simpl in Hlen. lia.
Qed.

Lemma forallb_pair (P : ascii -> bool) (l : list ascii) (i : nat) :
  forallb P l = true -> (i * 2 + 2 <= length l)%nat ->
  exists a b, take 2 (drop (i * 2) l) = [a; b] /\ P a = true /\ P b = true.
Proof.
  intros HP Hi.
  destruct (drop (i * 2) l) as [|a [|b rest]] eqn:E.
  - apply (f_equal length) in E. rewrite length_drop in E. simpl in E. lia.
  - apply (f_equal length) in E. rewrite length_drop in E. simpl in E. lia.
  - exists a, b. split; [reflexivity|].
    rewrite forallb_forall in HP.
    assert (Hin : forall x, In x (drop (i * 2) l) -> In x l).
    { intros x Hx. rewrite <- (take_drop (i * 2) l). apply in_or_app. right. exact Hx. }
    split; apply HP, Hin; rewrite E; simpl; auto.
Qed.

Lemma bytesToHex_hex_bytes (hex : string) :
  HEX_RE_256 hex = true -> bytesToHex (hex_bytes hex) = toUpperCase hex.
Proof.
  intros H. unfold HEX_RE_256, hex_re_test in H. apply andb_prop in H as [Hlen Hhex].
  apply Nat.eqb_eq in Hlen. rewrite <- chars_length in Hlen.
  rewrite <- (str_chars (bytesToHex _)), chars_bytesToHex. unfold toUpperCase. f_equal.
  rewrite <- (concat_pairs 128 (chars hex) Hlen) at 1.
  unfold hex_bytes. rewrite concat_map, !map_map. f_equal.
  apply map_ext_in. intros i Hi. apply in_seq in Hi.
  destruct (forallb_pair is_hex_char (chars hex) i Hhex ltac:(lia)) as (a & b & E & Ha & Hb).
  unfold slice. replace (i * 2 + 2 - i * 2)%nat with 2%nat by lia.
  rewrite E. apply hex2_parse; assumption.
Qed.

(** X2. Encoding the vector that [hexToVec32] reads from 256 hexadecimal
    digits gives a text that decodes to the same vector.  When none of the
    32 groups of eight digits is the pattern of a signalling NaN, that text
    is the digits themselves in upper case: nothing but the case of the
    letters is lost. *)
Theorem vec32ToHex_hexToVec32 (hex : string) :
  HEX_RE_256 hex = true ->
  exists v hex',
    hexToVec32 hex = Ok v /\ vec32ToHex v = Ok hex' /\ hexToVec32 hex' = Ok v
    /\ (forallb (fun w => negb (is_signalling_nan w)) (hex_words hex) = true ->
        hex' = toUpperCase hex).
Proof.
  intros H.
  assert (Hlen : length (map through_Number (hex_words hex)) = 32%nat)
    by (unfold hex_words; rewrite !length_map, length_seq; reflexivity).
  assert (Hidem : map through_Number (map through_Number (hex_words hex))
                  = map through_Number (hex_words hex)).
  { rewrite map_map. apply map_ext. intros w. apply through_Number_idempotent. }
  exists (map through_Number (hex_words hex)),
         (bytesToHex (concat (map le_bytes (map through_Number (hex_words hex))))).
  split; [apply hexToVec32_closed; exact H|].
  split; [rewrite (vec32ToHex_bytes _ Hlen), Hidem; reflexivity|].
  split.
  - rewrite hexToVec32_words, Hidem;
      [reflexivity | exact Hlen | apply through_Number_all_range, hex_words_range].
  - intros Hq. rewrite through_Number_all_id.
    + unfold hex_words. rewrite map_map. rewrite (le_bytes_read 32 (hex_bytes hex)).
      * apply bytesToHex_hex_bytes. exact H.
      * unfold hex_bytes. rewrite length_map, length_seq. reflexivity.
      * apply hex_bytes_range.
    + rewrite forallb_forall in Hq. apply Forall_forall. intros w Hw.
      apply negb_true_iff, Hq, list_elem_of_In. exact Hw.
Qed.

Lemma vec32ToHex_hexToVec32_witness :
  exists v, hexToVec32 (str (replicate 256 "c"%char)) = Ok v
            /\ vec32ToHex v = Ok (toUpperCase (str (replicate 256 "c"%char))).
Proof.
  destruct (vec32ToHex_hexToVec32 (str (replicate 256 "c"%char)) eq_refl)
    as (v & hex' & Hdec & Henc & _ & Hsame).
  exists v. split; [exact Hdec|].
  rewrite Henc, Hsame; [reflexivity|]. vm_compute. reflexivity.
Defined.

(** *** The text of [vec32ToHex] and of [bytesToHex] *)

Lemma bytesToHex_re (bytes : list Z) :
  Forall (fun b => 0 <= b < 256) bytes ->
  hex_re_test (length bytes * 2) (bytesToHex bytes) = true.
Proof.
  intros Hr. destruct (hex2_chunks bytes Hr) as (_ & Hhex & Hlen).
  unfold hex_re_test. rewrite <- chars_length, chars_bytesToHex, Hlen, Hhex, Nat.eqb_refl.
  reflexivity.
Qed.

Lemma bytesToHex_upper (bytes : list Z) : toUpperCase (bytesToHex bytes) = bytesToHex bytes.
Proof. unfold bytesToHex. apply toUpperCase_idempotent. Qed.

Lemma vec32ToHex_re (vec : list Z) :
  length vec = 32%nat ->
  exists hex, vec32ToHex vec = Ok hex /\ HEX_RE_256 hex = true /\ toUpperCase hex = hex.
Proof.
  intros H. eexists. split; [apply vec32ToHex_bytes; exact H|].
  split; [|apply bytesToHex_upper].
  pose proof (bytesToHex_re _ (le_bytes_range (map through_Number vec))) as Hre.
  rewrite le_bytes_length, length_map, H in Hre. exact Hre.
Qed.

(** X3. [vec32ToHex] throws [Expected 32 float values.] on every vector
    that has not 32 elements; on 32 elements it returns 256 hexadecimal
    digits with no lower-case letter, a text that [hexToVec32] accepts. *)
Theorem vec32ToHex_text (vec : list Z) :
  (length vec <> 32%nat -> vec32ToHex vec = Throw "Expected 32 float values.")
  /\ (length vec = 32%nat ->
      exists hex, vec32ToHex vec = Ok hex /\ HEX_RE_256 hex = true
                  /\ toUpperCase hex = hex
                  /\ exists v, hexToVec32 hex = Ok v).
Proof.
  split; intros H.
  - unfold vec32ToHex. apply Nat.eqb_neq in H. rewrite H. reflexivity.
  - destruct (vec32ToHex_re vec H) as (hex & E & Hre & Hup).
    exists hex. split; [exact E|]. split; [exact Hre|]. split; [exact Hup|].
    eexists. apply hexToVec32_closed. exact Hre.
Qed.

Lemma vec32ToHex_text_witness :
  vec32ToHex [1; 2; 3] = Throw "Expected 32 float values."
  /\ exists hex, vec32ToHex (replicate 32 0x3F800000) = Ok hex /\ HEX_RE_256 hex = true
                 /\ toUpperCase hex = hex
                 /\ exists v, hexToVec32 hex = Ok v.
Proof.
  split.
  - apply (proj1 (vec32ToHex_text [1; 2; 3])). simpl. lia.
  - apply (proj2 (vec32ToHex_text (replicate 32 0x3F800000))). reflexivity.
Defined.

Lemma hex2_inj (a b : Z) : 0 <= a < 256 -> 0 <= b < 256 -> hex2 a = hex2 b -> a = b.
Proof.
  intros Ha Hb H. destruct (hex2_spec a Ha) as (Pa & _). destruct (hex2_spec b Hb) as (Pb & _).
  rewrite H, Pb in Pa. congruence.
Qed.

(** X4. [bytesToHex] writes two characters for every byte and loses
    nothing: two byte arrays with the same text are the same array. *)
Theorem bytesToHex_injective (a b : list Z) :
  Forall (fun x => 0 <= x < 256) a -> Forall (fun x => 0 <= x < 256) b ->
  String.length (bytesToHex a) = (2 * length a)%nat
  /\ (bytesToHex a = bytesToHex b -> a = b).
Proof.
  intros Ha Hb. split.
  - destruct (hex2_chunks a Ha) as (_ & _ & Hlen).
    rewrite <- chars_length, chars_bytesToHex, Hlen. lia.
  - intros H. apply (f_equal chars) in H. rewrite !chars_bytesToHex in H.
    revert b Hb H. induction Ha as [|x a Hx Ha IH]; intros b Hb H.
    + destruct Hb as [|y b Hy Hb]; [reflexivity|].
      destruct (hex2_spec y Hy) as (_ & Hl & _).
      cbn [map concat] in H. apply (f_equal length) in H. rewrite length_app, Hl in H.
      discriminate H.
    + destruct Hb as [|y b Hy Hb].
      * destruct (hex2_spec x Hx) as (_ & Hl & _).
        cbn [map concat] in H. apply (f_equal length) in H. rewrite length_app, Hl in H.
        discriminate H.
      * cbn [map concat] in H.
        destruct (hex2_spec x Hx) as (_ & Hlx & _). destruct (hex2_spec y Hy) as (_ & Hly & _).
        apply app_inj_1 in H as [H1 H2]; [|congruence].
        f_equal; [apply hex2_inj; assumption | apply IH; assumption].
Qed.

Lemma bytesToHex_injective_witness :
  String.length (bytesToHex [0; 255; 16]) = (2 * length [0; 255; 16])%nat
  /\ (bytesToHex [0; 255; 16] = bytesToHex [0; 255; 16] -> [0; 255; 16] = [0; 255; 16]).
Proof.
  apply (bytesToHex_injective [0; 255; 16] [0; 255; 16]);
    repeat constructor; lia.
Defined.

(** ** More of the mixer ([src/mixer/math.ts]) *)

Lemma mixVectors_closed (vectors : list (list float)) (weights : list float) :
  length vectors = length weights ->
  mixVectors vectors weights
  = Ok {| vector :=
            if (sum_abs weights =? 0)%float then new_Float32Array 32
            else map (fun j => fround (weighted_sum j vectors weights
                                       / sum_abs weights)%float) (seq 0 32);
          sumAbs := sum_abs weights |}.
Proof.
  intros Hlen. unfold mixVectors.
  rewrite Hlen, Nat.eqb_refl. cbn [negb].
  rewrite (mix_loop_closed vectors weights Hlen).
  destruct (sum_abs weights =? 0)%float; [reflexivity|].
  rewrite divide_loop_closed. reflexivity.
Qed.

Lemma f32_get_take (v : list float) (n j : nat) :
  (j < n)%nat -> f32_get (take n v) j = f32_get v j.
Proof. intros H. unfold f32_get. rewrite lookup_take_lt by exact H. reflexivity. Qed.

Lemma weighted_sum_take (j : nat) (vectors : list (list float)) :
  (j < 32)%nat ->
  forall (weights : list float) (acc : float),
    fold_left (fun acc '(v, w) => fround (acc + f32_get v j * w)%float)
      (zip (map (take 32) vectors) weights) acc
    = fold_left (fun acc '(v, w) => fround (acc + f32_get v j * w)%float)
        (zip vectors weights) acc.
Proof.
  intros Hj. induction vectors as [|v vectors IH]; intros [|w weights] acc;
    try reflexivity.
  cbn [map zip zip_with fold_left]. rewrite f32_get_take by exact Hj. apply IH.
Qed.

(** X5. Whatever the lengths of the vectors it is given, [mixVectors]
    returns a vector of 32 components, and it reads the first 32 components
    of each vector only: components from index 32 on never change the
    result. *)
Theorem mixVectors_first_32 (vectors : list (list float)) (weights : list float) :
  length vectors = length weights ->
  (exists r, mixVectors vectors weights = Ok r /\ length (vector r) = 32%nat)
  /\ mixVectors (map (take 32) vectors) weights = mixVectors vectors weights.
Proof.
  intros Hlen. split.
  - eexists. split; [apply mixVectors_closed; exact Hlen|]. cbn [vector].
    destruct (sum_abs weights =? 0)%float.
    + apply length_replicate.
    + rewrite length_map, length_seq. reflexivity.
  - rewrite !mixVectors_closed by (rewrite ?length_map; exact Hlen).
    do 2 f_equal. destruct (sum_abs weights =? 0)%float; [reflexivity|].
    apply map_ext_in. intros j Hj. apply in_seq in Hj.
    unfold weighted_sum. rewrite weighted_sum_take by lia. reflexivity.
Qed.

Lemma mixVectors_first_32_witness :
  (exists r, mixVectors [replicate 40 1%float; [2%float]] [1%float; 3%float] = Ok r
             /\ length (vector r) = 32%nat)
  /\ mixVectors (map (take 32) [replicate 40 1%float; [2%float]]) [1%float; 3%float]
     = mixVectors [replicate 40 1%float; [2%float]] [1%float; 3%float].
Proof.
  apply (mixVectors_first_32 [replicate 40 1%float; [2%float]] [1%float; 3%float]).
  reflexivity.
Defined.

(** *** Magnitudes *)

Lemma Prim2SF_is_zero (x : float) :
  is_zero x = true -> exists s, Prim2SF x = S754_zero s.
Proof.
  unfold is_zero. rewrite FloatAxioms.eqb_spec. unfold SFeqb, SFcompare.
  change (Prim2SF zero) with (S754_zero false).
  destruct (Prim2SF x) as [s| s| |s m e]; [eauto | ..];
    simpl; try destruct s; intros H; discriminate H.
Qed.

Lemma square_zero (x : float) : is_zero x = true -> (x * x)%float = 0%float.
Proof.
  intros H. destruct (Prim2SF_is_zero x H) as [s Hs].
  apply FloatAxioms.Prim2SF_inj. rewrite FloatAxioms.mul_spec, Hs. destruct s; reflexivity.
Qed.

Lemma sum_squares_zero (v : list float) :
  Forall (fun x => is_zero x = true) v -> sum_squares v = 0%float.
Proof.
  unfold sum_squares. induction 1 as [|x v Hx _ IH]; [reflexivity|].
  cbn [fold_left]. rewrite (square_zero x Hx).
  change (0 + 0)%float with 0%float. exact IH.
Qed.

(** X6. A vector whose components are all zero (of either sign) has
    magnitude 0, and [setMagnitude] returns the all-zero vector of the same
    length for every target: no division by the zero magnitude takes
    place and no NaN appears. *)
Theorem setMagnitude_zero_vector (v : list float) (t : float) :
  Forall (fun x => is_zero x = true) v ->
  l2Magnitude v = 0%float /\ setMagnitude v t = replicate (length v) 0%float.
Proof.
  intros H.
  assert (Hm : l2Magnitude v = 0%float).
  { rewrite l2Magnitude_closed, (sum_squares_zero v H). reflexivity. }
  split; [exact Hm|]. unfold setMagnitude. rewrite Hm. reflexivity.
Qed.

Lemma setMagnitude_zero_vector_witness :
  l2Magnitude [0%float; (-0)%float; 0%float] = 0%float
  /\ setMagnitude [0%float; (-0)%float; 0%float] 5%float
     = replicate (length [0%float; (-0)%float; 0%float]) 0%float.
Proof.
  apply (setMagnitude_zero_vector [0%float; (-0)%float; 0%float] 5%float).
  repeat constructor.
Defined.

Lemma square_opp (x : float) : (- x * - x)%float = (x * x)%float.
Proof.
  apply FloatAxioms.Prim2SF_inj. rewrite !FloatAxioms.mul_spec, !FloatAxioms.opp_spec.
  destruct (Prim2SF x) as [s| s| |s m e]; try reflexivity; destruct s; reflexivity.
Qed.

(** X7. The magnitude does not see the signs of the components: a vector
    and the vector of its negated components have the same magnitude, bit
    for bit. *)
Theorem l2Magnitude_opp (v : list float) :
  l2Magnitude (map (fun x => (- x)%float) v) = l2Magnitude v.
Proof.
  rewrite !l2Magnitude_closed. f_equal. unfold sum_squares.
  generalize 0%float. induction v as [|x v IH]; intros acc; [reflexivity|].
  cbn [map fold_left]. rewrite square_opp. apply IH.
Qed.

(** ** More of the container and of the float codec ([src/nofs/binary.ts]) *)

Lemma lower_char_hex_value (c : ascii) : hex_value (lower_char c) = hex_value c.
Proof.
  apply option_Z_eqb_eq.
  apply (forall_ascii (fun c => option_Z_eqb (hex_value (lower_char c)) (hex_value c))).
  vm_compute. reflexivity.
Qed.

(** Such texts are the same to [Buffer.from] too. *)
Lemma Buffer_from_hex_chars_map (f : ascii -> ascii) :
  (forall c, hex_value (f c) = hex_value c) ->
  forall (n : nat) (l : list ascii),
    (length l <= n)%nat ->
    Buffer_from_hex_chars (map f l) = Buffer_from_hex_chars l.
Proof.
  intros Hf. induction n as [|n IH]; intros l Hl.
  - destruct l; [reflexivity | simpl in Hl; lia].
  - destruct l as [|a [|b rest]]; try reflexivity.
    cbn [map Buffer_from_hex_chars]. rewrite !Hf.
    destruct (hex_value a), (hex_value b); try reflexivity.
    f_equal. apply IH. simpl in Hl. lia.
Qed.

Lemma hexToFloatLE_map (f : ascii -> ascii) (s : string) :
  (forall c, hex_value (f c) = hex_value c) ->
  hexToFloatLE (str (map f (chars s))) = hexToFloatLE s.
Proof.
  intros Hf. unfold hexToFloatLE, HEX8_RE, Buffer_from_hex.
  rewrite (hex_re_test_map f 8 s Hf), chars_str.
  rewrite (Buffer_from_hex_chars_map f Hf (length (chars s)) (chars s)) by lia.
  reflexivity.
Qed.

(** X8. [hexToFloatLE] throws [Invalid float hex.] on every text that is
    not eight hexadecimal digits, and on ASCII text it does not see the
    case of the letters: the upper-case and the lower-case form of a text
    decode to the same number, or are refused like the text. *)
Theorem hexToFloatLE_case (hex8 : string) :
  (HEX8_RE hex8 = false -> hexToFloatLE hex8 = Throw "Invalid float hex.")
  /\ (is_ascii_text hex8 = true ->
      hexToFloatLE (toUpperCase hex8) = hexToFloatLE hex8
      /\ hexToFloatLE (toLowerCase hex8) = hexToFloatLE hex8).
Proof.
  split; [|intros _; split].
  - intros H. unfold hexToFloatLE. rewrite H. reflexivity.
  - apply hexToFloatLE_map, hex_value_upper.
  - apply hexToFloatLE_map, lower_char_hex_value.
Qed.

Lemma hexToFloatLE_case_witness :
  hexToFloatLE "0000003" = Throw "Invalid float hex."
  /\ hexToFloatLE (toUpperCase "0000c03f") = hexToFloatLE "0000c03f"
  /\ hexToFloatLE (toLowerCase "0000C03F") = hexToFloatLE "0000C03F".
Proof.
  split; [|split].
  - apply (proj1 (hexToFloatLE_case "0000003")). reflexivity.
  - apply (proj1 (proj2 (hexToFloatLE_case "0000c03f") eq_refl)).
  - apply (proj2 (proj2 (hexToFloatLE_case "0000C03F") eq_refl)).
Defined.

Lemma floatToHexLE_upper (x : float) : toUpperCase (floatToHexLE x) = floatToHexLE x.
Proof. unfold floatToHexLE. cbv zeta. apply toUpperCase_idempotent. Qed.

(** *** The header *)

(** X9. [buildHeader] returns for every length from 0 to 4294967275: a
    header of 192 bytes that holds the length plus 20 at 0xB0 and the
    length at 0xBC and is the template everywhere else.  For any other
    length a write is out of the range of a 32-bit field and the call
    throws; the error [Invalid NOFS header template.] is never thrown. *)
Theorem buildHeader_patches (svdbLength : Z) :
  (0 <= svdbLength <= 4294967275 ->
   exists header,
     buildHeader svdbLength = Ok header /\ length header = 192%nat
     /\ readUInt32LE header 0xb0 = svdbLength + 20
     /\ readUInt32LE header 0xbc = svdbLength
     /\ forall i : nat,
          ~ (0xb0 <= i < 0xb4)%nat -> ~ (0xbc <= i < 0xc0)%nat ->
          header !! i = Buffer_from_hex HEADER_TEMPLATE_HEX !! i)
  /\ (svdbLength < 0 \/ 4294967275 < svdbLength ->
      buildHeader svdbLength = Throw "ERR_OUT_OF_RANGE").
Proof.
  split.
  - intros Hr. unfold buildHeader.
    rewrite buildHeader_template_size, Nat.eqb_refl. cbn [negb].
    rewrite Buffer_writeUInt32LE_returns;
      [|lia | rewrite buildHeader_template_size; unfold HEADER_SIZE; lia].
    cbn [rbind]. rewrite Buffer_writeUInt32LE_returns;
      [|lia | rewrite writeUInt32LE_length, buildHeader_template_size;
              unfold HEADER_SIZE; lia].
    eexists. split; [reflexivity|]. split.
    { rewrite !writeUInt32LE_length. apply buildHeader_template_size. }
    split.
    { rewrite readUInt32LE_write_other by (left; lia).
      apply readUInt32LE_write_same;
        [rewrite buildHeader_template_size; unfold HEADER_SIZE; lia|].
      change (2 ^ 32) with 4294967296. lia. }
    split.
    { apply readUInt32LE_write_same;
        [rewrite writeUInt32LE_length, buildHeader_template_size; unfold HEADER_SIZE; lia|].
      change (2 ^ 32) with 4294967296. lia. }
    intros i H1 H2. unfold writeUInt32LE.
    rewrite !list_lookup_insert_ne by lia. reflexivity.
  - intros Hr. unfold buildHeader.
    rewrite buildHeader_template_size, Nat.eqb_refl. cbn [negb].
    destruct (Buffer_writeUInt32LE (Buffer_from_hex HEADER_TEMPLATE_HEX) (svdbLength + 20) 0xb0)
      as [header|msg] eqn:E1; cbn [rbind].
    + apply Buffer_writeUInt32LE_Ok in E1 as (Hw & _ & _).
      change (2 ^ 32) with 4294967296 in Hw.
      unfold Buffer_writeUInt32LE.
      destruct (Z.leb_spec 0 svdbLength); [lia | reflexivity].
    + unfold Buffer_writeUInt32LE in E1.
      destruct (negb ((0 <=? svdbLength + 20) && (svdbLength + 20 <=? 4294967295)));
        [congruence|].
      destruct (176 + 4 <=? length (Buffer_from_hex HEADER_TEMPLATE_HEX))%nat; congruence.
Qed.

Lemma buildHeader_patches_witness :
  (exists header,
     buildHeader 36 = Ok header /\ length header = 192%nat
     /\ readUInt32LE header 0xb0 = 36 + 20
     /\ readUInt32LE header 0xbc = 36
     /\ forall i : nat,
          ~ (0xb0 <= i < 0xb4)%nat -> ~ (0xbc <= i < 0xc0)%nat ->
          header !! i = Buffer_from_hex HEADER_TEMPLATE_HEX !! i)
  /\ buildHeader 4294967276 = Throw "ERR_OUT_OF_RANGE".
Proof.
  split.
  - apply (proj1 (buildHeader_patches 36)). lia.
  - apply (proj2 (buildHeader_patches 4294967276)). lia.
Defined.

(** *** Encrypting, then decrypting *)

(** The legacy text that [encryptJsonToNofs] enciphers for a document, and
    its ciphertext. *)
Definition legacy_text (P : Platform) (d : value) : string :=
  JSON_stringify P (transformValueForEncrypt d).

Definition container_ciphertext (P : Platform) (iv : Uint8Array) (d : value) : Uint8Array :=
  aes256cbc_encrypt P KEY iv (utf8_encode P (legacy_text P d)).

Lemma encryptJsonToNofs_parts (P : Platform) (jsonTextUtf8 : string) (iv : list Z)
  (d : value) :
  JSON_parse P jsonTextUtf8 = Ok d ->
  Z.of_nat (length (container_ciphertext P iv d)) + 40 <= 4294967295 ->
  exists header,
    length header = HEADER_SIZE
    /\ readUInt32LE header 0xbc = 20 + Z.of_nat (length (container_ciphertext P iv d))
    /\ readUInt32LE header 0xb0 = 20 + Z.of_nat (length (container_ciphertext P iv d)) + 20
    /\ encryptJsonToNofs P jsonTextUtf8 iv
       = Ok (header ++ SVDB_MAGIC ++ iv ++ container_ciphertext P iv d
             ++ le_bytes (20 + Z.of_nat (length (container_ciphertext P iv d)) + 20)).
Proof.
  intros Hd Hsize. unfold encryptJsonToNofs, transformJsonForEncrypt.
  rewrite Hd. cbn [rbind].
  fold (legacy_text P d). fold (container_ciphertext P iv d).
  destruct (buildHeader_returns (20 + Z.of_nat (length (container_ciphertext P iv d))))
    as [header Hh]; [lia | lia |].
  rewrite Hh. cbn [rbind]. rewrite Buffer_writeUInt32LE_returns by (simpl; lia).
  cbn [rbind]. exists header.
  apply buildHeader_Ok in Hh as (H0 & H1 & H2).
  split; [exact H0|]. split; [exact H1|]. split; [exact H2|]. reflexivity.
Qed.

(** X10. Where the cipher deciphers what it enciphered, the UTF-8 decoder
    reads what the encoder wrote and [JSON.parse] reads what
    [JSON.stringify] wrote, [decryptNofsToJson] accepts the container that
    [encryptJsonToNofs] builds for a text, whatever the initialization
    vector: it returns the text of the document taken to its legacy form
    and back, which for a modern document is the text of the document
    itself. *)
Theorem decryptNofsToJson_encryptJsonToNofs (P : Platform) (jsonTextUtf8 : string)
  (iv : list Z) (d : value) :
  length iv = 16%nat ->
  JSON_parse P jsonTextUtf8 = Ok d ->
  Z.of_nat (length (container_ciphertext P iv d)) + 40 <= 4294967295 ->
  aes256cbc_decrypt P KEY iv (container_ciphertext P iv d)
  = Ok (utf8_encode P (legacy_text P d)) ->
  utf8_decode P (utf8_encode P (legacy_text P d)) = legacy_text P d ->
  JSON_parse P (legacy_text P d) = Ok (transformValueForEncrypt d) ->
  exists buf,
    encryptJsonToNofs P jsonTextUtf8 iv = Ok buf
    /\ decryptNofsToJson P buf
       = Ok (JSON_stringify P (transformValueForDecrypt (transformValueForEncrypt d)))
    /\ (modern_ok d = true -> decryptNofsToJson P buf = Ok (JSON_stringify P d)).
Proof.
  intros Hiv Hd Hsize Hdec Hutf Hparse.
  destruct (encryptJsonToNofs_parts P jsonTextUtf8 iv d Hd Hsize)
    as (header & Hh & H1 & H2 & Hbuf).
  eexists. split; [exact Hbuf|].
  set (ct := container_ciphertext P iv d) in *.
  set (trailer := le_bytes (20 + Z.of_nat (length ct) + 20)) in *.
  destruct (container_layout header iv ct trailer Hh Hiv eq_refl)
    as (Hlen & Hm & Hi & Hc & Hr1 & Hr2 & Hr3).
  assert (Hround :
    decryptNofsToJson P (header ++ SVDB_MAGIC ++ iv ++ ct ++ trailer)
    = Ok (JSON_stringify P (transformValueForDecrypt (transformValueForEncrypt d)))).
  { rewrite decryptNofsToJson_checked; [|rewrite Hlen; lia | exact Hm].
    rewrite Hc, Hi, Hr1, Hr2, Hr3, H1, H2.
    assert (Ht : readUInt32LE trailer 0 = 20 + Z.of_nat (length ct) + 20).
    { pose proof (readUInt32LE_le_bytes (20 + Z.of_nat (length ct) + 20) []) as Hrt.
      rewrite app_nil_r in Hrt. apply Hrt. change (2 ^ 32) with 4294967296. lia. }
    rewrite Ht, !Z.eqb_refl. cbn [negb orb].
    rewrite Hdec. cbn [rbind]. rewrite Hutf.
    unfold transformJsonForDecrypt. rewrite Hparse. reflexivity. }
  split; [exact Hround|].
  intros Hok. rewrite Hround. do 2 f_equal.
  apply (migrate_round_trip "sing_model" "pitch_model"
           transformValueForEncrypt encrypt_extra
           transformValueForDecrypt decrypt_extra modern_extra_ok);
    try reflexivity; try exact Hok.
  - exact transformValueForEncrypt_object.
  - exact transformValueForEncrypt_other.
  - exact transformValueForDecrypt_object.
  - exact transformValueForDecrypt_other.
  - exact decrypt_encrypt_extra.
Qed.

Lemma decryptNofsToJson_encryptJsonToNofs_witness :
  exists buf,
    encryptJsonToNofs demo_platform "{}" demo_iv = Ok buf
    /\ decryptNofsToJson demo_platform buf
       = Ok (JSON_stringify demo_platform
               (transformValueForDecrypt (transformValueForEncrypt (VObject []))))
    /\ (modern_ok (VObject []) = true ->
        decryptNofsToJson demo_platform buf = Ok (JSON_stringify demo_platform (VObject []))).
Proof.
  apply (decryptNofsToJson_encryptJsonToNofs demo_platform "{}" demo_iv (VObject []));
    try reflexivity.
  vm_compute. discriminate.
Defined.

(** *** The pattern of a number fits 32 bits *)

Lemma digits2_pos_bound (p : positive) : Zpos p < 2 ^ Zpos (digits2_pos p).
Proof.
  induction p as [p IH|p IH|]; cbn [digits2_pos]; [| |reflexivity];
    rewrite Pos2Z.inj_succ, Z.pow_succ_r by lia; lia.
Qed.

Lemma Zdigits2_bound (m : Z) : 0 <= m -> m < 2 ^ Zdigits2 m.
Proof.
  intros Hm. destruct m as [|p|p]; [reflexivity | apply digits2_pos_bound | lia].
Qed.

Lemma shr_1_m (mrs : shr_record) :
  0 <= shr_m mrs -> shr_m (shr_1 mrs) = shr_m mrs / 2.
Proof.
  destruct mrs as [m r s]. cbn [shr_m]. intros Hm.
  destruct m as [|[p|p|]|p]; cbn [shr_1 shr_m]; try reflexivity; try lia.
  - rewrite Pos2Z.inj_xI.
    apply (Z.div_unique_pos (2 * Zpos p + 1) 2 (Zpos p) 1); lia.
  - rewrite Pos2Z.inj_xO.
    apply (Z.div_unique_pos (2 * Zpos p) 2 (Zpos p) 0); lia.
Qed.

Lemma pow2_xO (p : positive) : 2 ^ Zpos p~0 = 2 ^ Zpos p * 2 ^ Zpos p.
Proof.
  replace (Zpos p~0) with (Zpos p + Zpos p) by lia.
  apply Z.pow_add_r; lia.
Qed.

Lemma pow2_xI (p : positive) : 2 ^ Zpos p~1 = 2 * (2 ^ Zpos p * 2 ^ Zpos p).
Proof.
  replace (Zpos p~1) with (1 + (Zpos p + Zpos p)) by lia.
  rewrite Z.pow_add_r by lia. rewrite (Z.pow_add_r 2 (Zpos p) (Zpos p)) by lia. reflexivity.
Qed.

Lemma iter_shr_1_m (p : positive) :
  forall mrs : shr_record,
    0 <= shr_m mrs -> shr_m (SpecFloat.iter_pos shr_1 p mrs) = shr_m mrs / 2 ^ Zpos p.
Proof.
  induction p as [p IH|p IH|]; intros mrs Hm; cbn [SpecFloat.iter_pos].
  - assert (H1 : 0 <= shr_m (shr_1 mrs)) by (rewrite shr_1_m by exact Hm; apply Z.div_pos; lia).
    assert (H2 : 0 <= shr_m (SpecFloat.iter_pos shr_1 p (shr_1 mrs)))
      by (rewrite IH by exact H1; apply Z.div_pos; lia).
    rewrite IH, IH, shr_1_m by assumption.
    rewrite !Z.div_div by lia. rewrite pow2_xI. reflexivity.
  - assert (H2 : 0 <= shr_m (SpecFloat.iter_pos shr_1 p mrs))
      by (rewrite IH by exact Hm; apply Z.div_pos; lia).
    rewrite IH, IH by assumption.
    rewrite !Z.div_div by lia. rewrite pow2_xO. reflexivity.
  - rewrite shr_1_m by exact Hm. reflexivity.
Qed.

Lemma shr_record_of_loc_m (m : Z) (l : location) : shr_m (shr_record_of_loc m l) = m.
Proof. destruct l as [|[]]; reflexivity. Qed.

(** What [shr_fexp] leaves of a mantissa has at most 24 bits, and the
    exponent is at least -149. *)
Lemma shr_fexp_bound (m e : Z) (l : location) :
  0 <= m ->
  0 <= shr_m (fst (shr_fexp 24 128 m e l)) < 2 ^ 24
  /\ -149 <= snd (shr_fexp 24 128 m e l).
Proof.
  intros Hm. unfold shr_fexp, shr.
  pose proof (Zdigits2_bound m Hm) as Hd.
  assert (Hd0 : 0 <= Zdigits2 m) by (destruct m; simpl; lia).
  unfold fexp, emin.
  destruct (Z.max (Zdigits2 m + e - 24) (3 - 128 - 24) - e) as [|p|p] eqn:En;
    cbn [fst snd]; rewrite ?shr_record_of_loc_m.
  - split; [|lia]. split; [exact Hm|].
    apply Z.lt_le_trans with (1 := Hd). apply Z.pow_le_mono_r; lia.
  - rewrite iter_shr_1_m by (rewrite shr_record_of_loc_m; exact Hm).
    rewrite shr_record_of_loc_m. split; [|lia]. split; [apply Z.div_pos; lia|].
    apply Z.div_lt_upper_bound; [lia|].
    rewrite <- Z.pow_add_r by lia.
    apply Z.lt_le_trans with (1 := Hd). apply Z.pow_le_mono_r; lia.
  - split; [|lia]. split; [exact Hm|].
    apply Z.lt_le_trans with (1 := Hd). apply Z.pow_le_mono_r; lia.
Qed.

Lemma round_nearest_even_nonneg (m : Z) (l : location) :
  0 <= m -> 0 <= round_nearest_even m l.
Proof.
  intros Hm. destruct l as [|[]]; cbn [round_nearest_even]; try lia.
  destruct (Z.even m); lia.
Qed.

Lemma binary32_round_bound (s : bool) (m : positive) (e : Z) (s' : bool) (m' : positive)
  (e' : Z) :
  binary32_round s m e = S754_finite s' m' e' ->
  Zpos m' < 2 ^ 24 /\ -149 <= e' <= 104.
Proof.
  unfold binary32_round, binary_round.
  destruct (shl_align m e (fexp 24 128 (Zpos (digits2_pos m) + e))) as [mz ez].
  unfold binary_round_aux.
  pose proof (shr_fexp_bound (Zpos mz) ez loc_Exact ltac:(lia)) as [[H1 _] _].
  destruct (shr_fexp 24 128 (Zpos mz) ez loc_Exact) as [mrs1 e1]. cbn [fst] in H1.
  pose proof (shr_fexp_bound
                (round_nearest_even (shr_m mrs1) (loc_of_shr_record mrs1)) e1 loc_Exact
                (round_nearest_even_nonneg _ _ H1)) as [[_ H2] H3].
  destruct (shr_fexp 24 128 (round_nearest_even (shr_m mrs1) (loc_of_shr_record mrs1)) e1
              loc_Exact) as [mrs2 e2].
  cbn [fst snd] in H2, H3.
  destruct (shr_m mrs2) as [|p|p]; try discriminate.
  destruct (Z.leb_spec e2 (128 - 24)); [|discriminate].
  intros Hfin. injection Hfin as _ <- <-. lia.
Qed.

Lemma float32_bits_range (x : float) : 0 <= float32_bits x < 2 ^ 32.
Proof.
  unfold float32_bits. change (2 ^ 32) with 4294967296.
  destruct (Prim2SF x) as [s| s| |s m e];
    [destruct s; lia | destruct s; lia | unfold nan_bits; lia |].
  destruct (binary32_round s m e) as [s'| s'| |s' m' e'] eqn:E;
    [destruct s; lia | destruct s; lia | unfold nan_bits; lia |].
  apply binary32_round_bound in E as [Hm He]. change (2 ^ 24) with 16777216 in Hm.
  destruct (Z.ltb_spec (Zpos m') 8388608); destruct s; lia.
Qed.

Lemma Buffer_from_hex_chars_hex2 (bytes : list Z) :
  Forall (fun b => 0 <= b < 256) bytes ->
  Buffer_from_hex_chars (concat (map hex2 bytes)) = bytes.
Proof.
  induction 1 as [|b bytes Hb _ IH]; [reflexivity|].
  cbn [map concat]. destruct (hex2_spec b Hb) as (Hp & Hl & Hh).
  destruct (hex2 b) as [|c1 [|c2 [|c3 rest]]] eqn:E; try discriminate Hl.
  cbn [app Buffer_from_hex_chars].
  cbn [forallb] in Hh. apply andb_prop in Hh as [H1 H2]. apply andb_prop in H2 as [H2 _].
  unfold is_hex_char in H1, H2. unfold parseInt16 in Hp. rewrite chars_str in Hp.
  unfold is_hex_char in Hp. cbn [parseInt16_digits] in Hp.
  destruct (hex_value c1) as [x|]; [|discriminate H1].
  destruct (hex_value c2) as [y|]; [|discriminate H2].
  injection Hp as Hp. rewrite IH. f_equal. lia.
Qed.

Lemma hexToFloatLE_fround (value : float) :
  hexToFloatLE (floatToHexLE value) = Ok (fround value).
Proof.
  unfold hexToFloatLE. rewrite HEX8_RE_floatToHexLE. cbn [negb].
  unfold Buffer_from_hex. rewrite floatToHexLE_chars.
  rewrite Buffer_from_hex_chars_hex2 by apply le_bytes_bytes.
  unfold getFloat32LE, fround.
  pose proof (readUInt32LE_le_bytes (float32_bits value) [] (float32_bits_range value)) as H.
  rewrite app_nil_r in H. rewrite H. reflexivity.
Qed.

(** X11. For every number, NaN and the infinities included, [floatToHexLE]
    returns eight hexadecimal digits with no lower-case letter, and
    [hexToFloatLE] reads from them the number rounded to binary32 (what a
    [Float32Array] would keep of it): the digits carry the 32 bits of the
    pattern and nothing more is lost. *)
Theorem hexToFloatLE_floatToHexLE (value : float) :
  HEX8_RE (floatToHexLE value) = true
  /\ toUpperCase (floatToHexLE value) = floatToHexLE value
  /\ hexToFloatLE (floatToHexLE value) = Ok (fround value).
Proof.
  split; [apply HEX8_RE_floatToHexLE|].
  split; [apply floatToHexLE_upper | apply hexToFloatLE_fround].
Qed.

(** ** More of the field migration ([src/nofs/binary.ts]) *)

(** The documents in which every object, at any depth, has distinct keys
    and none of them is [__proto__]: what [JSON.parse] returns for a text
    without repeated keys. *)
Fixpoint deep_keys_ok (v : value) : bool :=
  match v with
  | VArray items => forallb deep_keys_ok items
  | VObject r => keys_ok r && forallb (fun kv => deep_keys_ok (snd kv)) r
  | _ => true
  end.

Lemma map_idempotent {A : Type} (f : A -> A) (ok : A -> bool) (l : list A) :
  Forall (fun x => ok x = true -> f (f x) = f x) l ->
  forallb ok l = true -> map f (map f l) = map f l.
Proof.
  induction 1 as [|x l Hx _ IH]; intros Hok; [reflexivity|].
  simpl in Hok. apply andb_prop in Hok as [H1 H2].
  simpl. rewrite (Hx H1), (IH H2). reflexivity.
Qed.

Section Idempotence.

Variables from to : string.
Variables T X : value -> value.

Hypothesis to_from : String.eqb to from = false.
Hypothesis to_proto : String.eqb to "__proto__" = false.
Hypothesis from_styles : String.eqb from "styles" = false.
Hypothesis to_styles : String.eqb to "styles" = false.

Hypothesis T_array : forall items, T (VArray items) = VArray (map T items).
Hypothesis T_object : forall r,
  T (VObject r) = VObject (migrate_props from to (has_own r to) T (style_with X T) r).
Hypothesis T_other : forall v,
  Array_isArray v = false -> isPlainObject v = false -> T v = v.
Hypothesis X_idempotent : forall x, T (T x) = T x -> X (X x) = X x.

Local Abbreviation S := (style_with X T).

(** What the induction carries for a value: idempotence as a plain value,
    as a style entry, and entry by entry as a [styles] array. *)
Definition idempotent_on (v : value) : Prop :=
  deep_keys_ok v = true ->
  T (T v) = T v
  /\ S (S v) = S v
  /\ (forall entries, v = VArray entries -> map S (map S entries) = map S entries).

Lemma T_keeps_not_array (x : value) : Array_isArray x = false -> Array_isArray (T x) = false.
Proof.
  destruct x; intros H; try discriminate H;
    try (rewrite T_other by reflexivity; reflexivity).
  rewrite T_object. reflexivity.
Qed.

Lemma props_idempotent (h h' : bool) (r : list (string * value)) :
  Forall (fun kv => idempotent_on (snd kv)) r ->
  forallb (fun kv => deep_keys_ok (snd kv)) r = true ->
  omap (migrate_prop from to h' T S) (omap (migrate_prop from to h T S) r)
  = omap (migrate_prop from to h T S) r.
Proof.
  induction 1 as [|[k x] r Hx _ IH]; intros Hok; [reflexivity|].
  cbn [forallb snd] in Hok. apply andb_prop in Hok as [Hokx Hok].
  specialize (IH Hok). cbn [snd] in Hx. destruct (Hx Hokx) as (Hv & _ & Harr).
  assert (Hplain :
      (forall entries, String.eqb k "styles" = true -> x <> VArray entries) ->
      String.eqb k from = false ->
      omap (migrate_prop from to h' T S)
        (omap (migrate_prop from to h T S) ((k, x) :: r))
      = omap (migrate_prop from to h T S) ((k, x) :: r)).
  { intros Hna Hkf.
    rewrite (omap_cons _ (k, x)), (migrate_prop_other from to h T S k x Hkf Hna).
    rewrite omap_cons, (migrate_prop_other from to h' T S k (T x) Hkf).
    - rewrite IH, Hv. reflexivity.
    - intros entries Hs E1.
      assert (Hf : Array_isArray (T x) = false).
      { apply T_keeps_not_array. destruct x; try reflexivity. destruct (Hna _ Hs eq_refl). }
      rewrite E1 in Hf. discriminate Hf. }
  destruct (String.eqb_spec k from) as [->|Hne].
  - rewrite (omap_cons _ (from, x)), migrate_prop_from. destruct h; [exact IH|].
    rewrite omap_cons, (migrate_prop_other from to h' T S to (T x) to_from).
    + rewrite IH, Hv. reflexivity.
    + intros entries Hs. rewrite to_styles in Hs. discriminate Hs.
  - apply String.eqb_neq in Hne.
    destruct (String.eqb k "styles") eqn:Es.
    + destruct x as [| | | | |entries|];
        try (apply Hplain; [intros e _ E; discriminate E | reflexivity]).
      apply String.eqb_eq in Es. subst k.
      rewrite (omap_cons _ ("styles"%string, VArray entries)),
        migrate_prop_styles by exact from_styles.
      rewrite omap_cons, migrate_prop_styles by exact from_styles.
      rewrite IH, (Harr entries eq_refl). reflexivity.
    + apply Hplain; [intros e E; discriminate E | reflexivity].
Qed.

Lemma style_props_idempotent (r : list (string * value)) :
  Forall (fun kv => idempotent_on (snd kv)) r ->
  forallb (fun kv => deep_keys_ok (snd kv)) r = true ->
  map (style_prop X T) (map (style_prop X T) r) = map (style_prop X T) r.
Proof.
  induction 1 as [|[k x] r Hx _ IH]; intros Hok; [reflexivity|].
  cbn [forallb snd] in Hok. apply andb_prop in Hok as [Hokx Hok].
  cbn [map]. rewrite (IH Hok). f_equal.
  cbn [snd] in Hx. destruct (Hx Hokx) as (Hv & _).
  unfold style_prop. destruct (String.eqb k "extra") eqn:Ee; rewrite Ee.
  - rewrite (X_idempotent x Hv). reflexivity.
  - rewrite Hv. reflexivity.
Qed.

Lemma idempotent_scalar (v : value) :
  Array_isArray v = false -> isPlainObject v = false -> idempotent_on v.
Proof.
  intros Ha Ho _.
  assert (HT : T v = v) by (apply T_other; assumption).
  assert (HS : S v = v) by (destruct v; try discriminate Ho; exact HT).
  split; [|split].
  - rewrite !HT. reflexivity.
  - rewrite !HS. reflexivity.
  - intros entries ->. discriminate Ha.
Qed.

Lemma idempotent_all (v : value) : idempotent_on v.
Proof.
  induction v as [| | b | n | s | items IH | r IH] using value_ind;
    try (apply idempotent_scalar; reflexivity).
  - intros Hok. cbn [deep_keys_ok] in Hok.
    assert (Hmap : T (T (VArray items)) = T (VArray items)).
    { rewrite !T_array. f_equal.
      apply (map_idempotent T deep_keys_ok); [|exact Hok].
      eapply Forall_impl; [exact IH|]. intros x Hx Hd. exact (proj1 (Hx Hd)). }
    split; [exact Hmap|]. split.
    { cbn [style_with]. rewrite T_array. cbn [style_with].
      rewrite <- T_array. exact Hmap. }
    intros entries [= <-].
    apply (map_idempotent S deep_keys_ok); [|exact Hok].
    eapply Forall_impl; [exact IH|]. intros x Hx Hd. exact (proj1 (proj2 (Hx Hd))).
  - intros Hok. cbn [deep_keys_ok] in Hok. apply andb_prop in Hok as [Hkeys Hprops].
    split; [|split]; [| |intros e E; discriminate E].
    + rewrite T_object.
      destruct (migrate_props_closed from to (has_own r to) T S r Hkeys to_proto)
        as [-> Hkeys1]; [destruct (has_own r to); auto|].
      rewrite T_object.
      destruct (migrate_props_closed from to
                  (has_own (omap (migrate_prop from to (has_own r to) T S) r) to) T S
                  _ Hkeys1 to_proto) as [-> _];
        [destruct (has_own (omap (migrate_prop from to (has_own r to) T S) r) to); auto|].
      f_equal. apply props_idempotent; assumption.
    + cbn [style_with]. rewrite (style_props_closed X T r Hkeys).
      rewrite style_props_closed by (rewrite keys_ok_style; exact Hkeys).
      f_equal. apply style_props_idempotent; assumption.
Qed.

Lemma migrate_idempotent (v : value) : deep_keys_ok v = true -> T (T v) = T v.
Proof. intros H. exact (proj1 (idempotent_all v H)). Qed.

End Idempotence.

Lemma encrypt_extra_idempotent (x : value) : encrypt_extra (encrypt_extra x) = encrypt_extra x.
Proof.
  destruct x as [| | b | n | s | items | r]; try reflexivity; cbn [encrypt_extra].
  - destruct (Number_isFinite n) eqn:E; cbn [encrypt_extra]; [|rewrite E; reflexivity].
    rewrite HEX8_RE_floatToHexLE, floatToHexLE_upper. reflexivity.
  - destruct (HEX8_RE s) eqn:E; cbn [encrypt_extra]; [|rewrite E; reflexivity].
    assert (E' : HEX8_RE (toUpperCase s) = true).
    { unfold HEX8_RE, toUpperCase.
      rewrite (hex_re_test_map upper_char 8 s hex_value_upper). exact E. }
    rewrite E', toUpperCase_idempotent. reflexivity.
Qed.

Lemma decrypt_extra_idempotent (x : value) :
  transformValueForDecrypt (transformValueForDecrypt x) = transformValueForDecrypt x ->
  decrypt_extra (decrypt_extra x) = decrypt_extra x.
Proof.
  intros H. destruct x as [| | b | n | s | items | r]; try reflexivity.
  - cbn [decrypt_extra]. destruct (HEX8_RE s) eqn:E.
    + unfold hexToFloatLE_tested. destruct (hexToFloatLE s); reflexivity.
    + cbn [transformValueForDecrypt decrypt_extra]. rewrite E. reflexivity.
  - exact H.
  - cbn [decrypt_extra].
    pose proof (transformValueForDecrypt_object r) as E.
    set (y := transformValueForDecrypt (VObject r)) in *.
    rewrite E in *. exact H.
Qed.

(** X12. The legacy transform is idempotent: on a document whose objects
    have distinct keys, none of them [__proto__], applying
    [transformValueForEncrypt] to its own result changes nothing, so a
    document that is already in the legacy form is enciphered as it is. *)
Theorem transformValueForEncrypt_idempotent (d : value) :
  deep_keys_ok d = true ->
  transformValueForEncrypt (transformValueForEncrypt d) = transformValueForEncrypt d.
Proof.
  apply (migrate_idempotent "sing_model" "pitch_model" transformValueForEncrypt
           encrypt_extra); try reflexivity.
  - exact transformValueForEncrypt_object.
  - exact transformValueForEncrypt_other.
  - intros x _. apply encrypt_extra_idempotent.
Qed.

Lemma transformValueForEncrypt_idempotent_witness :
  transformValueForEncrypt (transformValueForEncrypt test_document)
  = transformValueForEncrypt test_document.
Proof. apply (transformValueForEncrypt_idempotent test_document). reflexivity. Defined.

(** X13. The modern transform is idempotent on the same documents:
    applying [transformValueForDecrypt] to its own result changes
    nothing. *)
Theorem transformValueForDecrypt_idempotent (d : value) :
  deep_keys_ok d = true ->
  transformValueForDecrypt (transformValueForDecrypt d) = transformValueForDecrypt d.
Proof.
  apply (migrate_idempotent "pitch_model" "sing_model" transformValueForDecrypt
           decrypt_extra); try reflexivity.
  - exact transformValueForDecrypt_object.
  - exact transformValueForDecrypt_other.
  - exact decrypt_extra_idempotent.
Qed.

Lemma transformValueForDecrypt_idempotent_witness :
  transformValueForDecrypt (transformValueForDecrypt test_document_legacy)
  = transformValueForDecrypt test_document_legacy.
Proof. apply (transformValueForDecrypt_idempotent test_document_legacy). reflexivity. Defined.

(** *** The modern transform, key by key *)

Lemma keys_migrate (from to : string) (hasTo : bool) (T S : value -> value)
  (r : list (string * value)) :
  keys (omap (migrate_prop from to hasTo T S) r)
  = omap (fun k => if String.eqb k from then (if hasTo then None else Some to) else Some k)
      (keys r).
Proof.
  induction r as [|[k x] r IH]; [reflexivity|].
  unfold keys in *. cbn [map fst]. rewrite !omap_cons. cbn beta.
  unfold migrate_prop at 1.
  destruct (String.eqb k from).
  - destruct hasTo; [exact IH|]. cbn [map fst]. rewrite IH. reflexivity.
  - destruct (String.eqb k "styles") eqn:Es, x; cbn [map fst]; rewrite IH;
      try reflexivity.
    apply String.eqb_eq in Es. subst k. reflexivity.
Qed.

(** X14. On an object with distinct keys, none of them [__proto__],
    [transformValueForDecrypt] leaves no [pitch_model]: the key is renamed
    to [sing_model] in its place when the object has no [sing_model], and
    dropped when it has one, whose transformed value is then kept; the
    other keys stay where they are, in the order of the object. *)
Theorem transformValueForDecrypt_renames (r : list (string * value)) :
  keys_ok r = true ->
  has_own (props_of (transformValueForDecrypt (VObject r))) "pitch_model" = false
  /\ keys (props_of (transformValueForDecrypt (VObject r)))
     = omap (fun k => if String.eqb k "pitch_model"
                      then (if has_own r "sing_model" then None else Some "sing_model"%string)
                      else Some k) (keys r)
  /\ (has_own r "sing_model" = true ->
      obj_get (props_of (transformValueForDecrypt (VObject r))) "sing_model"
      = transformValueForDecrypt (obj_get r "sing_model"))
  /\ (has_own r "sing_model" = false -> has_own r "pitch_model" = true ->
      obj_get (props_of (transformValueForDecrypt (VObject r))) "sing_model"
      = transformValueForDecrypt (obj_get r "pitch_model")).
Proof.
  intros Hok. rewrite transformValueForDecrypt_object. cbn [props_of].
  destruct (migrate_props_closed "pitch_model" "sing_model" (has_own r "sing_model")
              transformValueForDecrypt
              (style_with decrypt_extra transformValueForDecrypt) r Hok eq_refl) as [-> _];
    [destruct (has_own r "sing_model"); auto|].
  split; [apply has_own_migrate_from; reflexivity|].
  split; [apply keys_migrate|]. split.
  - intros Hs. rewrite Hs. apply obj_get_migrate_kept; auto.
  - intros Hs Hp. rewrite Hs. apply obj_get_migrate_renamed; assumption.
Qed.

Lemma transformValueForDecrypt_renames_witness :
  has_own (props_of (transformValueForDecrypt test_document_legacy)) "pitch_model" = false
  /\ keys (props_of (transformValueForDecrypt test_document_legacy))
     = omap (fun k => if String.eqb k "pitch_model"
                      then (if has_own (props_of test_document_legacy) "sing_model"
                            then None else Some "sing_model"%string)
                      else Some k) (keys (props_of test_document_legacy))
  /\ (has_own (props_of test_document_legacy) "sing_model" = true ->
      obj_get (props_of (transformValueForDecrypt test_document_legacy)) "sing_model"
      = transformValueForDecrypt (obj_get (props_of test_document_legacy) "sing_model"))
  /\ (has_own (props_of test_document_legacy) "sing_model" = false ->
      has_own (props_of test_document_legacy) "pitch_model" = true ->
      obj_get (props_of (transformValueForDecrypt test_document_legacy)) "sing_model"
      = transformValueForDecrypt (obj_get (props_of test_document_legacy) "pitch_model")).
Proof.
  apply (transformValueForDecrypt_renames (props_of test_document_legacy)). reflexivity.
Defined.

(** *** The [extra] of a style *)

Lemma obj_get_style_extra (X T : value -> value) (r : list (string * value)) :
  has_own r "extra" = true ->
  obj_get (map (style_prop X T) r) "extra" = X (obj_get r "extra").
Proof.
  induction r as [|[k x] r IH]; intros H; [discriminate H|].
  rewrite has_own_cons in H. cbn [map obj_get]. unfold style_prop at 1.
  destruct (String.eqb k "extra") eqn:E; cbn [obj_get]; rewrite E; [reflexivity|].
  apply IH. exact H.
Qed.

Lemma obj_get_has_own (r : list (string * value)) (k : string) :
  obj_get r k <> VUndefined -> has_own r k = true.
Proof.
  induction r as [|[k0 x] r IH]; intros H; [destruct H; reflexivity|].
  rewrite has_own_cons. cbn [obj_get] in H.
  destruct (String.eqb k0 k); [reflexivity | apply IH; exact H].
Qed.

(** X15. The finite numeric [extra] of a style entry does not survive the
    two transforms unchanged in general: taken to the legacy form and back,
    a style object with [extra] the number [n] has [extra] the number [n]
    rounded to binary32. *)
Theorem style_extra_rounds (r : list (string * value)) (n : float) :
  keys_ok r = true ->
  obj_get r "extra" = VNumber n -> Number_isFinite n = true ->
  obj_get (props_of (transformStyleForDecrypt (transformStyleForEncrypt (VObject r)))) "extra"
  = VNumber (fround n).
Proof.
  intros Hok He Hfin.
  assert (Hown : has_own r "extra" = true) by (apply obj_get_has_own; rewrite He; discriminate).
  unfold transformStyleForEncrypt, transformStyleForDecrypt.
  rewrite transformStyleForEncrypt_with_eq. cbn [style_with].
  rewrite (style_props_closed _ _ r Hok).
  rewrite transformStyleForDecrypt_with_eq. cbn [style_with props_of].
  rewrite style_props_closed by (rewrite keys_ok_style; exact Hok).
  rewrite obj_get_style_extra by (rewrite has_own_style; exact Hown).
  rewrite obj_get_style_extra by exact Hown.
  rewrite He. cbn [encrypt_extra]. rewrite Hfin. cbn [decrypt_extra].
  rewrite HEX8_RE_floatToHexLE. unfold hexToFloatLE_tested.
  rewrite hexToFloatLE_fround. reflexivity.
Qed.

(** The number 0.1, which is no binary32 value. *)
Definition one_tenth : float := 0x1.999999999999ap-4%float.

Lemma style_extra_rounds_witness :
  obj_get
    (props_of (transformStyleForDecrypt
                 (transformStyleForEncrypt
                    (VObject [("name", VString "Soft"); ("extra", VNumber one_tenth)]))))
    "extra"
  = VNumber (fround one_tenth) /\ fround one_tenth <> one_tenth.
Proof.
  split.
  - apply (style_extra_rounds [("name", VString "Soft"); ("extra", VNumber one_tenth)] one_tenth);
      reflexivity.
  - vm_compute. discriminate.
Defined.

(** ** More of the validator ([src/nofs/validate.ts]) *)

(** *** The issues of every rule *)

Definition warning (msg : string) (p : list path_item) : ValidationIssue :=
  {| message := msg; severity := SeverityWarning; path := Some p |}.

Definition root_key_warnings (ks : list string) : list ValidationIssue :=
  flat_map
    (fun key =>
       if negb (Set_has TOP_LEVEL_KEYS key) then
         [warning ("Unknown key " +:+ quoted key +:+ ".") [PathKey key]]
       else [])
    ks.

Definition is_string (v : value) : bool := match v with VString _ => true | _ => false end.

Definition require_issues (r : object) (key : string) : list ValidationIssue :=
  if is_string (obj_get r key) then []
  else [issue (quoted key +:+ " must be a string.") [PathKey key]].

(** The test of the numbers of a version: both are integers and neither
    is negative. *)
Definition version_numbers_ok (group1 : list ascii) (group3 : option (list ascii)) : bool :=
  let main := parseInt10 group1 in
  let branch := match group3 with Some digits => parseInt10 digits | None => 0%float end in
  negb (negb (Number_isInteger main) || (main <? 0)%float
        || negb (Number_isInteger branch) || (branch <? 0)%float).

Definition version_issues (v : value) : list ValidationIssue :=
  match v with
  | VString text =>
      match version_exec text with
      | None =>
          [issue (quoted "version" +:+ " must match <int>[a|b<int>].") [PathKey "version"]]
      | Some (group1, group3) =>
          if version_numbers_ok group1 group3 then []
          else [issue (quoted "version" +:+ " must contain non-negative integers.")
                  [PathKey "version"]]
      end
  | _ => [issue (quoted "version" +:+ " must be a string.") [PathKey "version"]]
  end.

Definition version_ok (v : value) : bool :=
  match v with
  | VString text =>
      match version_exec text with
      | Some (group1, group3) => version_numbers_ok group1 group3
      | None => false
      end
  | _ => false
  end.

Definition language_ok (v : value) : bool :=
  match v with
  | VString text => Set_has ALLOWED_LANGUAGES (toLowerCase text)
  | _ => false
  end.

Definition language_issues (v : value) (kind : string) (p : list path_item)
  : list ValidationIssue :=
  match v with
  | VString text =>
      if Set_has ALLOWED_LANGUAGES (toLowerCase text) then []
      else [issue (quoted kind +:+ " must be one of: " +:+ one_of_languages +:+ ".") p]
  | _ =>
      [issue (if String.eqb kind "language" then quoted "language" +:+ " must be a string."
              else "support_languages entries must be strings.") p]
  end.

Fixpoint support_issues (items : list value) (index : nat) : list ValidationIssue :=
  match items with
  | [] => []
  | entry :: items' =>
      language_issues entry "support_languages"
        ([PathKey "support_languages"] ++ [PathIndex index])
      ++ support_issues items' (S index)
  end.

Definition support_languages_issues (v : value) : list ValidationIssue :=
  match v with
  | VArray items => support_issues items 0
  | _ => [issue (quoted "support_languages" +:+ " must be an array.")
            [PathKey "support_languages"]]
  end.

Definition support_languages_ok (v : value) : bool :=
  match v with
  | VArray items => forallb language_ok items
  | _ => false
  end.

(** The phoneset that a language asks for, if the language is known. *)
Definition expected_phoneset (language : value) : option (string * string) :=
  match language with
  | VString text =>
      match Map_get PHONESET_BY_LANGUAGE (toLowerCase text) with
      | Some expected => Some (toLowerCase text, expected)
      | None => None
      end
  | _ => None
  end.

Definition phoneset_issues (language phoneset : value) : list ValidationIssue :=
  match expected_phoneset language with
  | None => []
  | Some (normalizedLanguage, expected) =>
      match phoneset with
      | VString text =>
          if String.eqb (toLowerCase text) expected then []
          else [issue (quoted "phoneset" +:+ " must be " +:+ quoted expected
                       +:+ " when language is " +:+ quoted normalizedLanguage +:+ ".")
                  [PathKey "phoneset"]]
      | _ => [issue (quoted "phoneset" +:+ " must be a string.") [PathKey "phoneset"]]
      end
  end.

Definition phoneset_ok (language phoneset : value) : bool :=
  match expected_phoneset language with
  | None => true
  | Some (_, expected) =>
      match phoneset with
      | VString text => String.eqb (toLowerCase text) expected
      | _ => false
      end
  end.

Definition model_issues (v : value) (allowed : list string) (key : string)
  : list ValidationIssue :=
  match v with
  | VString text =>
      if Set_has allowed text then []
      else [issue (quoted key +:+ " must be one of the approved IDs.") [PathKey key]]
  | _ => [issue (quoted key +:+ " must be a string.") [PathKey key]]
  end.

Definition model_ok (v : value) (allowed : list string) : bool :=
  match v with VString text => Set_has allowed text | _ => false end.

Definition styles_value_issues (v : value) : list ValidationIssue :=
  match v with
  | VArray items => styles_issues items 0 ∅
  | _ => [issue (quoted "styles" +:+ " must be an array.") [PathKey "styles"]]
  end.

Definition styles_value_warnings (v : value) : list ValidationIssue :=
  match v with
  | VArray items => styles_warnings items 0
  | _ => []
  end.

Definition required_hex_issues (v : value) (key : string) (len : nat)
  : list ValidationIssue :=
  if is_undefined v then [issue (quoted key +:+ " is required.") [PathKey key]]
  else hex_issues v len [PathKey key].

(** All the errors of a root object, rule by rule in the order of the
    calls, and all its warnings. *)
Definition root_issues (r : object) : list ValidationIssue :=
  require_issues r "name" ++ require_issues r "vendor" ++ require_issues r "phoneset"
  ++ version_issues (obj_get r "version")
  ++ language_issues (obj_get r "language") "language" [PathKey "language"]
  ++ support_languages_issues (obj_get r "support_languages")
  ++ phoneset_issues (obj_get r "language") (obj_get r "phoneset")
  ++ model_issues (obj_get r "sing_model") ALLOWED_SING_MODEL "sing_model"
  ++ model_issues (obj_get r "base_model") ALLOWED_BASE_MODEL "base_model"
  ++ model_issues (obj_get r "timing_model") ALLOWED_TIMING_MODEL "timing_model"
  ++ model_issues (obj_get r "f0_model") ALLOWED_F0_MODEL "f0_model"
  ++ styles_value_issues (obj_get r "styles")
  ++ required_hex_issues (obj_get r "pitch") "pitch" 256
  ++ required_hex_issues (obj_get r "timing") "timing" 1024.

Definition root_warnings (r : object) : list ValidationIssue :=
  root_key_warnings (keys r) ++ styles_value_warnings (obj_get r "styles").

Ltac appends_leaf :=
  intros [es ws];
  unfold vbind, vlift, push_error, vret;
  cbn [errors warnings];
  rewrite ?app_nil_r; try reflexivity.

Lemma root_key_warnings_appends (ks : list string) :
  appends
    (for_of
       (fun key =>
          if negb (Set_has TOP_LEVEL_KEYS key) then
            push_warning ("Unknown key " +:+ quoted key +:+ ".") (Some [PathKey key])
          else vret tt) ks)
    tt [] (root_key_warnings ks).
Proof.
  induction ks as [|key ks IH]; [apply appends_ret|].
  intros [es ws]. cbn [for_of root_key_warnings flat_map]. unfold vbind at 1.
  destruct (negb (Set_has TOP_LEVEL_KEYS key)).
  - unfold push_warning at 1. cbn [errors warnings]. rewrite IH.
    cbn [errors warnings app]. rewrite <- !app_assoc. reflexivity.
  - unfold vret at 1. rewrite IH. reflexivity.
Qed.

Lemma requireString_appends (r : list (string * value)) (key : string) :
  appends (requireString (VObject r) key) tt (require_issues r key) [].
Proof.
  unfold requireString, require_issues, js_get. cbn [object_of rbind].
  destruct (obj_get r key); cbn [typeof js_type_eqb negb is_string]; appends_leaf.
Qed.

Lemma validateVersion_appends (v : value) :
  appends (validateVersion v) tt (version_issues v) [].
Proof.
  unfold validateVersion, version_issues, version_numbers_ok.
  destruct v; cbn [typeof js_type_eqb negb string_of]; appends_leaf.
  destruct (version_exec s) as [[group1 group3]|]; [|reflexivity].
  destruct (negb (Number_isInteger (parseInt10 group1)) || (parseInt10 group1 <? 0)%float
            || negb (Number_isInteger
                       match group3 with Some digits => parseInt10 digits | None => 0%float end)
            || (match group3 with Some digits => parseInt10 digits | None => 0%float end
                <? 0)%float);
    cbn [negb errors warnings]; rewrite ?app_nil_r; reflexivity.
Qed.

Lemma validateLanguage_appends (v : value) :
  appends (validateLanguage v [PathKey "language"]) tt
    (language_issues v "language" [PathKey "language"]) [].
Proof.
  unfold validateLanguage, language_issues.
  destruct v; cbn [typeof js_type_eqb negb string_of String.eqb Ascii.eqb Bool.eqb];
    appends_leaf.
  destruct (Set_has ALLOWED_LANGUAGES (toLowerCase s));
    cbn [negb errors warnings]; rewrite ?app_nil_r; reflexivity.
Qed.

Lemma support_entry_appends (entry : value) (index : nat) :
  appends
    (if negb (js_type_eqb (typeof entry) TyString) then
       push_error "support_languages entries must be strings."
         (Some ([PathKey "support_languages"] ++ [PathIndex index]))
     else
       text <~ vlift (string_of entry) ;;
       let normalized := toLowerCase text in
       if negb (Set_has ALLOWED_LANGUAGES normalized) then
         push_error
           (quoted "support_languages" +:+ " must be one of: " +:+ one_of_languages +:+ ".")
           (Some ([PathKey "support_languages"] ++ [PathIndex index]))
       else vret tt)
    tt
    (language_issues entry "support_languages"
       ([PathKey "support_languages"] ++ [PathIndex index])) [].
Proof.
  unfold language_issues.
  destruct entry; cbn [typeof js_type_eqb negb string_of]; appends_leaf.
  cbv zeta. destruct (Set_has ALLOWED_LANGUAGES (toLowerCase s));
    cbn [negb errors warnings]; rewrite ?app_nil_r; reflexivity.
Qed.

Lemma support_forEach_appends (items : list value) :
  forall index : nat,
    appends
      (forEach
         (fun entry index (_ : unit) =>
            if negb (js_type_eqb (typeof entry) TyString) then
              push_error "support_languages entries must be strings."
                (Some ([PathKey "support_languages"] ++ [PathIndex index]))
            else
              text <~ vlift (string_of entry) ;;
              let normalized := toLowerCase text in
              if negb (Set_has ALLOWED_LANGUAGES normalized) then
                push_error
                  (quoted "support_languages" +:+ " must be one of: " +:+ one_of_languages
                   +:+ ".")
                  (Some ([PathKey "support_languages"] ++ [PathIndex index]))
              else vret tt)
         items index tt)
      tt (support_issues items index) [].
Proof.
  induction items as [|entry items IH]; intros index; [apply appends_ret|].
  cbn [forEach support_issues].
  eapply appends_eq.
  - eapply appends_bind; [apply support_entry_appends | apply IH].
  - reflexivity.
  - reflexivity.
Qed.

Lemma validateSupportLanguages_appends (v : value) :
  appends (validateSupportLanguages v [PathKey "support_languages"]) tt
    (support_languages_issues v) [].
Proof.
  unfold validateSupportLanguages, support_languages_issues.
  destruct v; cbn [Array_isArray negb array_of]; try apply appends_push_error.
  eapply appends_eq.
  - eapply appends_bind; [apply appends_lift; reflexivity | apply support_forEach_appends].
  - reflexivity.
  - reflexivity.
Qed.

Lemma validatePhoneset_appends (language phoneset : value) :
  appends (validatePhoneset language phoneset) tt (phoneset_issues language phoneset) [].
Proof.
  unfold validatePhoneset, phoneset_issues, expected_phoneset.
  destruct language; cbn [typeof js_type_eqb negb string_of]; appends_leaf.
  destruct (Map_get PHONESET_BY_LANGUAGE (toLowerCase s)) as [expected|];
    cbn [errors warnings]; rewrite ?app_nil_r; try reflexivity.
  destruct phoneset; cbn [typeof js_type_eqb negb string_of errors warnings];
    rewrite ?app_nil_r; try reflexivity.
  destruct (String.eqb (toLowerCase s0) expected);
    cbn [negb errors warnings]; rewrite ?app_nil_r; reflexivity.
Qed.

Lemma validateModelId_appends (v : value) (allowed : list string) (key : string) :
  appends (validateModelId v allowed key) tt (model_issues v allowed key) [].
Proof.
  unfold validateModelId, model_issues.
  destruct v; cbn [typeof js_type_eqb negb string_of]; appends_leaf.
  destruct (Set_has allowed s); cbn [negb errors warnings]; rewrite ?app_nil_r; reflexivity.
Qed.

Lemma validateStyles_value_appends (v : value) :
  appends (validateStyles v) tt (styles_value_issues v) (styles_value_warnings v).
Proof.
  destruct v; try apply validateStyles_appends;
    unfold validateStyles; cbn [Array_isArray negb]; apply appends_push_error.
Qed.

Lemma required_hex_appends (v : value) (key : string) (len : nat) :
  appends
    (if is_undefined v then
       push_error (quoted key +:+ " is required.") (Some [PathKey key])
     else _ <~ validateHex v len [PathKey key] ;; vret tt)
    tt (required_hex_issues v key len) [].
Proof.
  unfold required_hex_issues. destruct (is_undefined v); [apply appends_push_error|].
  eapply appends_eq.
  - eapply appends_bind; [apply validateHex_appends | apply appends_ret].
  - apply app_nil_r.
  - reflexivity.
Qed.

(** The validator in closed form. *)
Lemma validate_root_object_appends (r : list (string * value)) :
  appends (validate_root_object (VObject r)) tt (root_issues r) (root_warnings r).
Proof.
  unfold validate_root_object, Object_keys, js_get. cbn [object_of rbind].
  eapply appends_eq.
  - eapply appends_bind; [apply appends_lift; reflexivity|].
    eapply appends_bind; [apply root_key_warnings_appends|].
    eapply appends_bind; [apply requireString_appends|].
    eapply appends_bind; [apply requireString_appends|].
    eapply appends_bind; [apply requireString_appends|].
    eapply appends_bind; [apply appends_lift; reflexivity|].
    eapply appends_bind; [apply validateVersion_appends|].
    eapply appends_bind; [apply appends_lift; reflexivity|].
    eapply appends_bind; [apply validateLanguage_appends|].
    eapply appends_bind; [apply appends_lift; reflexivity|].
    eapply appends_bind; [apply validateSupportLanguages_appends|].
    eapply appends_bind; [apply appends_lift; reflexivity|].
    eapply appends_bind; [apply validatePhoneset_appends|].
    eapply appends_bind; [apply appends_lift; reflexivity|].
    eapply appends_bind; [apply validateModelId_appends|].
    eapply appends_bind; [apply appends_lift; reflexivity|].
    eapply appends_bind; [apply validateModelId_appends|].
    eapply appends_bind; [apply appends_lift; reflexivity|].
    eapply appends_bind; [apply validateModelId_appends|].
    eapply appends_bind; [apply appends_lift; reflexivity|].
    eapply appends_bind; [apply validateModelId_appends|].
    eapply appends_bind; [apply appends_lift; reflexivity|].
    eapply appends_bind; [apply validateStyles_value_appends|].
    eapply appends_bind; [apply appends_lift; reflexivity|].
    eapply appends_bind; [apply required_hex_appends|].
    eapply appends_bind; [apply appends_lift; reflexivity|].
    apply required_hex_appends.
  - cbn [app]. unfold root_issues. reflexivity.
  - cbn [app]. unfold root_warnings. rewrite !app_nil_r. reflexivity.
Qed.

Lemma validateNofsData_closed (r : list (string * value)) :
  validateNofsData (VObject r)
  = Ok {| errors := root_issues r; warnings := root_warnings r |}.
Proof.
  unfold validateNofsData. cbn [isObject typeof js_type_eqb is_null Array_isArray andb negb].
  rewrite (validate_root_object_appends r). reflexivity.
Qed.

(** *** Which documents have no error *)

Definition style_entry_ok (entry : value) (seen : gset string) : bool :=
  match entry with
  | VObject r =>
      match obj_get r "name" with
      | VString name => negb (includes_space name) && negb (bool_decide (name ∈ seen))
      | _ => false
      end
      && hex_ok (obj_get r "data") 256
  | _ => false
  end.

Fixpoint styles_ok (items : list value) (seen : gset string) : bool :=
  match items with
  | [] => true
  | entry :: items' => style_entry_ok entry seen && styles_ok items' (seen_after entry seen)
  end.

Definition styles_value_ok (v : value) : bool :=
  match v with VArray items => styles_ok items ∅ | _ => false end.

(** The documents without error: [name], [vendor] and [phoneset] are
    strings; [version] is [<int>] or [<int>a<int>] or [<int>b<int>];
    [language] and every entry of the array [support_languages] are among
    the five languages, whatever the case of their letters; [phoneset] is
    the phoneset of the language; the four model ids are on their lists;
    [styles] is an array of objects with a name without space that no
    earlier entry has and 256 hexadecimal digits of data; [pitch] and
    [timing] are 256 and 1024 hexadecimal digits. *)
Definition config_ok (r : object) : bool :=
  is_string (obj_get r "name") && is_string (obj_get r "vendor")
  && is_string (obj_get r "phoneset")
  && version_ok (obj_get r "version")
  && language_ok (obj_get r "language")
  && support_languages_ok (obj_get r "support_languages")
  && phoneset_ok (obj_get r "language") (obj_get r "phoneset")
  && model_ok (obj_get r "sing_model") ALLOWED_SING_MODEL
  && model_ok (obj_get r "base_model") ALLOWED_BASE_MODEL
  && model_ok (obj_get r "timing_model") ALLOWED_TIMING_MODEL
  && model_ok (obj_get r "f0_model") ALLOWED_F0_MODEL
  && styles_value_ok (obj_get r "styles")
  && hex_ok (obj_get r "pitch") 256
  && hex_ok (obj_get r "timing") 1024.

Lemma app_nil_iff {A : Type} (l1 l2 : list A) (b1 b2 : bool) :
  (l1 = [] <-> b1 = true) -> (l2 = [] <-> b2 = true) ->
  (l1 ++ l2 = [] <-> b1 && b2 = true).
Proof.
  intros H1 H2. rewrite andb_true_iff, <- H1, <- H2. split.
  - apply app_eq_nil.
  - intros [-> ->]. reflexivity.
Qed.

Lemma single_nil_iff {A : Type} (x : A) : [x] = [] <-> false = true.
Proof. split; intros H; discriminate H. Qed.

Lemma nil_nil_iff {A : Type} : @nil A = [] <-> true = true.
Proof. split; reflexivity. Qed.

Ltac issues_ok :=
  repeat match goal with
         | |- context [match ?v with _ => _ end] => destruct v
         end;
  first [apply single_nil_iff | apply nil_nil_iff].

Lemma require_issues_ok (r : list (string * value)) (key : string) :
  require_issues r key = [] <-> is_string (obj_get r key) = true.
Proof. unfold require_issues. destruct (is_string (obj_get r key)); issues_ok. Qed.

Lemma version_issues_ok (v : value) : version_issues v = [] <-> version_ok v = true.
Proof.
  unfold version_issues, version_ok. destruct v; try apply single_nil_iff.
  destruct (version_exec s) as [[group1 group3]|]; [|apply single_nil_iff].
  destruct (version_numbers_ok group1 group3); issues_ok.
Qed.

Lemma language_issues_ok (v : value) (kind : string) (p : list path_item) :
  language_issues v kind p = [] <-> language_ok v = true.
Proof.
  unfold language_issues, language_ok. destruct v; try apply single_nil_iff.
  destruct (Set_has ALLOWED_LANGUAGES (toLowerCase s)); issues_ok.
Qed.

Lemma support_issues_ok (items : list value) :
  forall index, support_issues items index = [] <-> forallb language_ok items = true.
Proof.
  induction items as [|entry items IH]; intros index; [apply nil_nil_iff|].
  cbn [support_issues forallb]. apply app_nil_iff; [apply language_issues_ok | apply IH].
Qed.

Lemma support_languages_issues_ok (v : value) :
  support_languages_issues v = [] <-> support_languages_ok v = true.
Proof. destruct v; try apply single_nil_iff. apply support_issues_ok. Qed.

Lemma phoneset_issues_ok (language phoneset : value) :
  phoneset_issues language phoneset = [] <-> phoneset_ok language phoneset = true.
Proof.
  unfold phoneset_issues, phoneset_ok.
  destruct (expected_phoneset language) as [[normalized expected]|]; [|apply nil_nil_iff].
  destruct phoneset; try apply single_nil_iff.
  destruct (String.eqb (toLowerCase s) expected); issues_ok.
Qed.

Lemma model_issues_ok (v : value) (allowed : list string) (key : string) :
  model_issues v allowed key = [] <-> model_ok v allowed = true.
Proof.
  unfold model_issues, model_ok. destruct v; try apply single_nil_iff.
  destruct (Set_has allowed s); issues_ok.
Qed.

Lemma hex_issues_ok (v : value) (len : nat) (p : list path_item) :
  hex_issues v len p = [] <-> hex_ok v len = true.
Proof.
  unfold hex_issues, hex_ok. destruct v; try apply single_nil_iff.
  destruct (hex_re_test len s); issues_ok.
Qed.

Lemma required_hex_issues_ok (v : value) (key : string) (len : nat) :
  required_hex_issues v key len = [] <-> hex_ok v len = true.
Proof.
  unfold required_hex_issues. destruct v; cbn [is_undefined];
    try apply hex_issues_ok. apply single_nil_iff.
Qed.

Lemma style_issues_ok (entry : value) (index : nat) (seen : gset string) :
  style_issues entry index seen = [] <-> style_entry_ok entry seen = true.
Proof.
  unfold style_issues, style_entry_ok. destruct entry; try apply single_nil_iff.
  apply app_nil_iff; [|apply hex_issues_ok].
  unfold name_issues. destruct (obj_get props "name"); try apply single_nil_iff.
  apply app_nil_iff.
  - destruct (includes_space s); issues_ok.
  - destruct (bool_decide (s ∈ seen)); issues_ok.
Qed.

Lemma styles_issues_ok (items : list value) :
  forall index seen, styles_issues items index seen = [] <-> styles_ok items seen = true.
Proof.
  induction items as [|entry items IH]; intros index seen; [apply nil_nil_iff|].
  cbn [styles_issues styles_ok]. apply app_nil_iff; [apply style_issues_ok | apply IH].
Qed.

Lemma styles_value_issues_ok (v : value) :
  styles_value_issues v = [] <-> styles_value_ok v = true.
Proof. destruct v; try apply single_nil_iff. apply styles_issues_ok. Qed.

Lemma root_issues_ok (r : list (string * value)) : root_issues r = [] <-> config_ok r = true.
Proof.
  unfold root_issues, config_ok. rewrite <- !andb_assoc.
  repeat (apply app_nil_iff;
          [first [ apply require_issues_ok | apply version_issues_ok
                 | apply language_issues_ok | apply support_languages_issues_ok
                 | apply phoneset_issues_ok | apply model_issues_ok
                 | apply styles_value_issues_ok | apply required_hex_issues_ok ]|]).
  apply required_hex_issues_ok.
Qed.



(** X16. [validateNofsData] reports no error on a root object exactly when
    the object is a correct configuration in the sense of [config_ok]: the
    thirteen properties are present and of the right form; nothing else
    in the document makes an error or hides one. *)
Theorem validateNofsData_no_error (r : list (string * value)) :
  exists res,
    validateNofsData (VObject r) = Ok res
    /\ (errors res = [] <-> config_ok r = true).
Proof.
  eexists. split; [apply validateNofsData_closed|]. cbn [errors]. apply root_issues_ok.
Qed.

(** X17. The errors of a root object depend on the values of the thirteen
    known properties only: two objects that agree on them have the same
    errors, whatever the order of their properties and whatever other
    properties they own. *)
Theorem validateNofsData_known_properties (r r' : list (string * value)) :
  (forall key, In key TOP_LEVEL_KEYS -> obj_get r key = obj_get r' key) ->
  exists res res',
    validateNofsData (VObject r) = Ok res /\ validateNofsData (VObject r') = Ok res'
    /\ errors res = errors res'.
Proof.
  intros H. eexists _, _. split; [apply validateNofsData_closed|].
  split; [apply validateNofsData_closed|]. cbn [errors]. unfold root_issues, require_issues.
  rewrite !(H "name"%string), !(H "vendor"%string), !(H "phoneset"%string),
    !(H "version"%string), !(H "language"%string), !(H "support_languages"%string),
    !(H "sing_model"%string), !(H "base_model"%string), !(H "timing_model"%string),
    !(H "f0_model"%string), !(H "styles"%string), !(H "pitch"%string),
    !(H "timing"%string) by (unfold TOP_LEVEL_KEYS; simpl; tauto).
  reflexivity.
Qed.

Lemma validateNofsData_known_properties_witness :
  exists res res',
    validateNofsData (valid_config_with []) = Ok res
    /\ validateNofsData
         (VObject (("comment", VString "x") :: rev (props_of (valid_config_with []))))
       = Ok res'
    /\ errors res = errors res'.
Proof.
  apply (validateNofsData_known_properties
           (props_of (valid_config_with []))
           (("comment"%string, VString "x") :: rev (props_of (valid_config_with [])))).
  intros key Hkey. unfold TOP_LEVEL_KEYS in Hkey.
  repeat (destruct Hkey as [<-|Hkey]; [reflexivity|]). destruct Hkey.
Defined.

Ltac first_issue :=
  first [ left; reflexivity
        | apply in_or_app; first [left; solve [first_issue] | right; first_issue] ].

(** X18. Each of the thirteen top-level properties is required: on an
    object that lacks one of them, [validateNofsData] reports an error
    whose path is that property. *)
Theorem validateNofsData_required (r : list (string * value)) (key : string) :
  In key TOP_LEVEL_KEYS -> obj_get r key = VUndefined ->
  exists res,
    validateNofsData (VObject r) = Ok res
    /\ exists i, In i (errors res) /\ path i = Some [PathKey key].
Proof.
  intros Hkey Hmissing. eexists. split; [apply validateNofsData_closed|]. cbn [errors].
  unfold TOP_LEVEL_KEYS in Hkey. unfold root_issues, require_issues.
  repeat (destruct Hkey as [<-|Hkey];
          [rewrite !Hmissing; eexists; split; [first_issue | reflexivity]|]).
  destruct Hkey.
Qed.

Lemma validateNofsData_required_witness :
  exists res,
    validateNofsData (VObject [("name", VString "Test VB")]) = Ok res
    /\ exists i, In i (errors res) /\ path i = Some [PathKey "timing"].
Proof.
  apply (validateNofsData_required [("name"%string, VString "Test VB")] "timing").
  - unfold TOP_LEVEL_KEYS. simpl. tauto.
  - reflexivity.
Defined.

(** *** The shape of the issues *)

(** An error that points into one of the thirteen known properties. *)
Definition error_in_known_property (i : ValidationIssue) : Prop :=
  severity i = SeverityError
  /\ exists key rest, path i = Some (PathKey key :: rest) /\ In key TOP_LEVEL_KEYS.

Definition warning_with_path (i : ValidationIssue) : Prop :=
  severity i = SeverityWarning /\ exists p, path i = Some p.

Ltac known_error :=
  split; [reflexivity | eexists _, _; split; [reflexivity | simpl; tauto]].

Ltac known_errors :=
  repeat match goal with
         | |- Forall _ (match ?v with _ => _ end) => destruct v
         | |- Forall _ (if ?b then _ else _) => destruct b
         | |- Forall _ [] => constructor
         | |- Forall _ (_ :: _) => constructor; [known_error|]
         end.

Lemma support_issues_known (items : list value) :
  forall index, Forall error_in_known_property (support_issues items index).
Proof.
  induction items as [|entry items IH]; intros index; [constructor|].
  cbn [support_issues]. apply Forall_app. split; [|apply IH].
  unfold language_issues. known_errors.
Qed.

Lemma styles_issues_known (items : list value) :
  forall index seen, Forall error_in_known_property (styles_issues items index seen).
Proof.
  induction items as [|entry items IH]; intros index seen; [constructor|].
  cbn [styles_issues]. apply Forall_app. split; [|apply IH].
  unfold style_issues. destruct entry; try (known_errors; fail).
  apply Forall_app. split.
  - unfold name_issues. destruct (obj_get props "name"); try (known_errors; fail).
    apply Forall_app. split; unfold space_issue, duplicate_issue; known_errors.
  - unfold hex_issues. known_errors.
Qed.

Lemma root_issues_known (r : list (string * value)) :
  Forall error_in_known_property (root_issues r).
Proof.
  unfold root_issues.
  repeat (apply Forall_app; split);
    try (unfold require_issues, version_issues, language_issues, phoneset_issues,
           model_issues, required_hex_issues, hex_issues; known_errors; fail).
  - unfold support_languages_issues. destruct (obj_get r "support_languages");
      try (known_errors; fail). apply support_issues_known.
  - unfold styles_value_issues. destruct (obj_get r "styles");
      try (known_errors; fail). apply styles_issues_known.
Qed.

Lemma key_warnings_shape (index : nat) (ks : list string) :
  Forall warning_with_path (key_warnings index ks).
Proof.
  induction ks as [|key ks IH]; [constructor|].
  cbn [key_warnings flat_map]. apply Forall_app. split; [|exact IH].
  destruct (negb (Set_has STYLE_KEYS key)); repeat constructor. eexists. reflexivity.
Qed.

Lemma styles_warnings_shape (items : list value) :
  forall index, Forall warning_with_path (styles_warnings items index).
Proof.
  induction items as [|entry items IH]; intros index; [constructor|].
  cbn [styles_warnings]. apply Forall_app. split; [|apply IH].
  destruct entry; try constructor. apply key_warnings_shape.
Qed.

Lemma root_key_warnings_shape (ks : list string) :
  Forall warning_with_path (root_key_warnings ks).
Proof.
  induction ks as [|key ks IH]; [constructor|].
  cbn [root_key_warnings flat_map]. apply Forall_app. split; [|exact IH].
  destruct (negb (Set_has TOP_LEVEL_KEYS key)); repeat constructor. eexists. reflexivity.
Qed.

(** X19. On a root object every error has the severity [error] and a path
    that starts with one of the thirteen known properties, and every
    warning has the severity [warning] and a path: the issue without a
    path, which the caller shows at the start of the document, is reserved
    to a root that is not an object. *)
Theorem validateNofsData_issue_shape (r : list (string * value)) :
  exists res,
    validateNofsData (VObject r) = Ok res
    /\ Forall error_in_known_property (errors res)
    /\ Forall warning_with_path (warnings res).
Proof.
  eexists. split; [apply validateNofsData_closed|]. cbn [errors warnings].
  split; [apply root_issues_known|].
  unfold root_warnings. apply Forall_app. split; [apply root_key_warnings_shape|].
  destruct (obj_get r "styles"); try constructor. apply styles_warnings_shape.
Qed.

(** *** The warnings *)

Definition unknown_key_warning (key : string) : ValidationIssue :=
  warning ("Unknown key " +:+ quoted key +:+ ".") [PathKey key].

Lemma In_root_key_warnings (key : string) (ks : list string) :
  In (unknown_key_warning key) (root_key_warnings ks)
  <-> In key ks /\ Set_has TOP_LEVEL_KEYS key = false.
Proof.
  unfold root_key_warnings. rewrite in_flat_map. split.
  - intros (k & Hk & Hin). destruct (Set_has TOP_LEVEL_KEYS k) eqn:E; [destruct Hin|].
    destruct Hin as [Heq|[]]. unfold unknown_key_warning, warning in Heq.
    injection Heq as _ ->. auto.
  - intros [Hk Hu]. exists key. split; [exact Hk|]. rewrite Hu. left. reflexivity.
Qed.

Lemma not_In_styles_warnings (key : string) (items : list value) :
  forall index, ~ In (unknown_key_warning key) (styles_warnings items index).
Proof.
  induction items as [|entry items IH]; intros index Hin; [destruct Hin|].
  cbn [styles_warnings] in Hin. apply in_app_or in Hin as [Hin|Hin]; [|exact (IH _ Hin)].
  destruct entry; try destruct Hin. unfold style_warnings, key_warnings in Hin.
  apply in_flat_map in Hin as (k & _ & Hin).
  destruct (negb (Set_has STYLE_KEYS k)); [|destruct Hin].
  destruct Hin as [Heq|[]]. discriminate Heq.
Qed.

(** X20. A property of the root object gets the warning [Unknown key]
    exactly when its key is none of the thirteen known ones: the known
    properties never get it, and no unknown one escapes it. *)
Theorem validateNofsData_unknown_keys (r : list (string * value)) (key : string) :
  exists res,
    validateNofsData (VObject r) = Ok res
    /\ (In (unknown_key_warning key) (warnings res)
        <-> In key (keys r) /\ Set_has TOP_LEVEL_KEYS key = false).
Proof.
  eexists. split; [apply validateNofsData_closed|]. cbn [warnings].
  unfold root_warnings. rewrite in_app_iff, In_root_key_warnings. split; [|auto].
  intros [H|H]; [exact H|].
  destruct (obj_get r "styles"); try destruct H.
  destruct (not_In_styles_warnings key items 0%nat H).
Qed.

(** ** The normalizer ([normalizeNofsConfig], [src/nofs/validate.ts]) *)

(** A property of an object literal after a spread: the own property is
    overwritten in place, a new one is added last. *)
Definition define_prop (o : object) (k : string) (v : value) : object :=
  if has_own o k then obj_update o k v else o ++ [(k, v)].

(** The truth value of a value in a condition. *)
Definition ToBoolean (v : value) : bool :=
  match v with
  | VUndefined | VNull => false
  | VBool b => b
  | VNumber n => negb (is_zero n || is_nan n)
  | VString s => negb (String.eqb s "")
  | VArray _ | VObject _ => true
  end.

(** [l.map(f)] for a callback that can throw. *)
Fixpoint map_result {A B : Type} (f : A -> result B) (l : list A) : result (list B) :=
  match l with
  | [] => Ok []
  | x :: l' => y <-- f x ;; ys <-- map_result f l' ;; Ok (y :: ys)
  end.

(** [v ? v.toUpperCase() : undefined]. *)
Definition upper_or_undefined (v : value) : result value :=
  if ToBoolean v then s <-- string_of v ;; Ok (VString (toUpperCase s))
  else Ok VUndefined.

Definition normalize_language (lang : value) : result value :=
  s <-- string_of lang ;; Ok (VString (toLowerCase s)).

Definition normalize_style (style : value) : result value :=
  rs <-- object_of style ;;
  data <-- string_of (obj_get rs "data") ;;
  Ok (VObject (define_prop rs "data" (VString (toUpperCase data)))).

Definition normalizeNofsConfig (config : value) : result value :=
  r <-- object_of config ;;
  language <-- string_of (obj_get r "language") ;;
  let normalizedLanguage := toLowerCase language in
  let expectedPhoneset := Map_get PHONESET_BY_LANGUAGE normalizedLanguage in
  langs <-- array_of (obj_get r "support_languages") ;;
  support_languages <-- map_result normalize_language langs ;;
  let phoneset :=
    match expectedPhoneset with
    | Some expected => VString expected
    | None => obj_get r "phoneset"
    end in
  entries <-- array_of (obj_get r "styles") ;;
  styles <-- map_result normalize_style entries ;;
  pitch <-- upper_or_undefined (obj_get r "pitch") ;;
  timing <-- upper_or_undefined (obj_get r "timing") ;;
  Ok (VObject
        (define_prop
           (define_prop
              (define_prop
                 (define_prop
                    (define_prop
                       (define_prop r "language" (VString normalizedLanguage))
                       "support_languages" (VArray support_languages))
                    "phoneset" phoneset)
                 "styles" (VArray styles))
              "pitch" pitch)
           "timing" timing)).

Example normalizeNofsConfig_test :
  normalizeNofsConfig
    (VObject [("language", VString "English"); ("phoneset", VString "xsampa");
              ("support_languages", VArray [VString "ENGLISH"]);
              ("styles", VArray [VObject [("name", VString "Soft"); ("data", VString "ab")]]);
              ("pitch", VString "")])
  = Ok (VObject [("language", VString "english"); ("phoneset", VString "arpabet");
                 ("support_languages", VArray [VString "english"]);
                 ("styles", VArray [VObject [("name", VString "Soft"); ("data", VString "AB")]]);
                 ("pitch", VUndefined); ("timing", VUndefined)]).
Proof. vm_compute. reflexivity. Qed.

Lemma obj_get_update (o : list (string * value)) (k k' : string) (v : value) :
  has_own o k = true ->
  obj_get (obj_update o k v) k' = if String.eqb k k' then v else obj_get o k'.
Proof.
  induction o as [|[k0 x] o IH]; intros H; [discriminate H|].
  rewrite has_own_cons in H. cbn [obj_update].
  destruct (String.eqb_spec k0 k) as [->|Hne]; cbn [obj_get].
  - destruct (String.eqb k k'); reflexivity.
  - destruct (String.eqb_spec k0 k') as [->|Hne'].
    + destruct (String.eqb_spec k k') as [->|]; [destruct Hne; reflexivity | reflexivity].
    + apply IH. exact H.
Qed.

Lemma obj_get_app_fresh (o : list (string * value)) (k k' : string) (v : value) :
  has_own o k = false ->
  obj_get (o ++ [(k, v)]) k' = if String.eqb k k' then v else obj_get o k'.
Proof.
  induction o as [|[k0 x] o IH]; intros H.
  - cbn [app obj_get]. destruct (String.eqb k k'); reflexivity.
  - rewrite has_own_cons in H. apply orb_false_elim in H as [H0 H].
    cbn [app obj_get]. destruct (String.eqb_spec k0 k') as [->|Hne].
    + rewrite String.eqb_sym, H0. reflexivity.
    + apply IH. exact H.
Qed.

(** Reading an object after [define_prop]. *)
Lemma obj_get_define (o : list (string * value)) (k k' : string) (v : value) :
  obj_get (define_prop o k v) k' = if String.eqb k k' then v else obj_get o k'.
Proof.
  unfold define_prop. destruct (has_own o k) eqn:E.
  - apply obj_get_update. exact E.
  - apply obj_get_app_fresh. exact E.
Qed.

Lemma lower_char_idempotent (c : ascii) : lower_char (lower_char c) = lower_char c.
Proof.
  apply Ascii.eqb_eq.
  apply (forall_ascii (fun c => Ascii.eqb (lower_char (lower_char c)) (lower_char c))).
  vm_compute. reflexivity.
Qed.

Lemma toLowerCase_idempotent (s : string) : toLowerCase (toLowerCase s) = toLowerCase s.
Proof.
  unfold toLowerCase. rewrite chars_str, map_map. f_equal.
  apply map_ext. intros c. apply lower_char_idempotent.
Qed.

(** Every language of the list has a phoneset, written in lower case. *)
Lemma allowed_language_phoneset (l : string) :
  Set_has ALLOWED_LANGUAGES l = true ->
  exists expected,
    Map_get PHONESET_BY_LANGUAGE l = Some expected /\ toLowerCase expected = expected.
Proof.
  unfold Set_has, ALLOWED_LANGUAGES. cbn [existsb]. intros H.
  repeat (apply orb_true_iff in H as [H|H];
          [apply String.eqb_eq in H; subst l; eexists; split; reflexivity|]).
  discriminate H.
Qed.

Lemma map_result_languages (items : list value) :
  forallb language_ok items = true ->
  exists items',
    map_result normalize_language items = Ok items'
    /\ forallb language_ok items' = true.
Proof.
  induction items as [|x items IH]; intros H; [exists []; split; reflexivity|].
  cbn [forallb] in H. apply andb_prop in H as [Hx H].
  destruct (IH H) as (items' & E & Hok).
  destruct x; try discriminate Hx.
  exists (VString (toLowerCase s) :: items'). split.
  - cbn [map_result normalize_language string_of rbind]. rewrite E. reflexivity.
  - cbn [forallb language_ok]. rewrite toLowerCase_idempotent. cbn [language_ok] in Hx.
    rewrite Hx, Hok. reflexivity.
Qed.

Lemma hex_ok_upper (s : string) (len : nat) :
  hex_ok (VString (toUpperCase s)) len = hex_ok (VString s) len.
Proof. cbn [hex_ok]. unfold toUpperCase. apply hex_re_test_map, hex_value_upper. Qed.

Lemma map_result_styles (items : list value) :
  forall seen,
    styles_ok items seen = true ->
    exists items',
      map_result normalize_style items = Ok items'
      /\ styles_ok items' seen = true.
Proof.
  induction items as [|entry items IH]; intros seen H; [exists []; split; reflexivity|].
  cbn [styles_ok] in H. apply andb_prop in H as [He H].
  destruct entry as [| | | | | |rs]; try discriminate He.
  cbn [style_entry_ok] in He. apply andb_prop in He as [Hname Hdata].
  destruct (obj_get rs "data") as [| | | |data| |] eqn:Ed; try discriminate Hdata.
  destruct (IH _ H) as (items' & E & Hok).
  exists (VObject (define_prop rs "data" (VString (toUpperCase data))) :: items'). split.
  - cbn [map_result normalize_style object_of rbind]. rewrite Ed.
    cbn [string_of rbind]. rewrite E. reflexivity.
  - cbn [styles_ok style_entry_ok seen_after].
    rewrite !obj_get_define. cbn [String.eqb Ascii.eqb Bool.eqb].
    rewrite hex_ok_upper, Hdata, andb_true_r, Hname. exact Hok.
Qed.

Lemma upper_or_undefined_hex (v : value) (len : nat) :
  hex_ok v len = true -> (0 < len)%nat ->
  exists s, v = VString s /\ upper_or_undefined v = Ok (VString (toUpperCase s)).
Proof.
  intros H Hlen. destruct v; try discriminate H. exists s. split; [reflexivity|].
  unfold upper_or_undefined. cbn [ToBoolean].
  destruct (String.eqb_spec s "") as [->|]; [|reflexivity].
  cbn [hex_ok] in H. unfold hex_re_test in H. apply andb_prop in H as [H _].
  apply Nat.eqb_eq in H. simpl in H. lia.
Qed.

(** X21. [normalizeNofsConfig] returns on every configuration that
    [validateNofsData] finds without error, and what it returns is again
    without error: lower-casing the languages, replacing the phoneset by
    the one of the language and upper-casing the hexadecimal data keep a
    correct configuration correct. *)
Theorem normalizeNofsConfig_keeps_valid (r : list (string * value)) :
  config_ok r = true ->
  exists r' res,
    normalizeNofsConfig (VObject r) = Ok (VObject r')
    /\ validateNofsData (VObject r') = Ok res /\ errors res = [].
Proof.
  intros H. unfold config_ok in H.
  repeat (apply andb_prop in H as [H ?]).
  destruct (obj_get r "language") as [| | | |language| |] eqn:El; try discriminate.
  destruct (obj_get r "support_languages") as [| | | | |langs|] eqn:Es; try discriminate.
  destruct (obj_get r "styles") as [| | | | |entries|] eqn:Est; try discriminate.
  match goal with Hl : language_ok _ = true |- _ =>
    cbn [language_ok] in Hl; destruct (allowed_language_phoneset _ Hl) as (expected & Hm & Hlow)
  end.
  match goal with Hs : support_languages_ok _ = true |- _ =>
    destruct (map_result_languages langs Hs) as (langs' & Elangs & Hlangs')
  end.
  match goal with Hs : styles_value_ok _ = true |- _ =>
    destruct (map_result_styles entries ∅ Hs) as (entries' & Eentries & Hentries')
  end.
  match goal with Hp : hex_ok (obj_get r "pitch") 256 = true |- _ =>
    destruct (upper_or_undefined_hex _ 256 Hp ltac:(lia)) as (pitch & Ep & Epitch)
  end.
  match goal with Ht : hex_ok (obj_get r "timing") 1024 = true |- _ =>
    destruct (upper_or_undefined_hex _ 1024 Ht ltac:(lia)) as (timing & Et & Etiming)
  end.
  eexists _, _. split; [|split; [apply validateNofsData_closed|]].
  - unfold normalizeNofsConfig. cbn [object_of rbind]. rewrite El, Es, Est.
    cbn [string_of array_of rbind]. rewrite Elangs. cbn [rbind]. rewrite Eentries.
    cbn [rbind]. rewrite Epitch. cbn [rbind]. rewrite Etiming. cbn [rbind]. rewrite Hm.
    reflexivity.
  - cbn [errors]. apply root_issues_ok. unfold config_ok.
    rewrite !obj_get_define. cbn [String.eqb Ascii.eqb Bool.eqb].
    cbn [is_string language_ok support_languages_ok styles_value_ok].
    rewrite toLowerCase_idempotent, Hlangs', Hentries', !hex_ok_upper.
    rewrite <- Ep, <- Et.
    unfold phoneset_ok, expected_phoneset. rewrite toLowerCase_idempotent, Hm, Hlow.
    rewrite String.eqb_refl.
    repeat match goal with Hx : _ = true |- _ => rewrite Hx; clear Hx end.
    reflexivity.
Qed.

Lemma normalizeNofsConfig_keeps_valid_witness :
  exists r' res,
    normalizeNofsConfig (valid_config_with [style_entry "Soft" "a"]) = Ok (VObject r')
    /\ validateNofsData (VObject r') = Ok res /\ errors res = [].
Proof.
  apply (normalizeNofsConfig_keeps_valid
           (props_of (valid_config_with [style_entry "Soft" "a"]))).
  vm_compute. reflexivity.
Defined.

Lemma phoneset_lower (l expected : string) :
  Map_get PHONESET_BY_LANGUAGE l = Some expected -> toLowerCase expected = expected.
Proof.
  unfold PHONESET_BY_LANGUAGE. cbn [Map_get]. intros H.
  repeat match type of H with
         | (if ?b then _ else _) = _ => destruct b; [injection H as <-; reflexivity|]
         end.
  discriminate H.
Qed.

(** X22. Whatever configuration it is given, when [normalizeNofsConfig]
    returns, the language of the result is in lower case and
    [validatePhoneset] has nothing to report on the result: the phoneset of
    a known language has been replaced by the phoneset of that language. *)
Theorem normalizeNofsConfig_phoneset (config : value) (r' : list (string * value)) :
  normalizeNofsConfig config = Ok (VObject r') ->
  (exists language, obj_get r' "language" = VString language
                    /\ toLowerCase language = language)
  /\ forall st, validatePhoneset (obj_get r' "language") (obj_get r' "phoneset") st
                = Ok (tt, st).
Proof.
  intros H. unfold normalizeNofsConfig in H.
  destruct config as [| | | | | |r]; try discriminate H. cbn [object_of rbind] in H.
  destruct (obj_get r "language") as [| | | |language| |] eqn:El; try discriminate H.
  cbn [string_of rbind] in H.
  destruct (array_of (obj_get r "support_languages")) as [langs|]; [|discriminate H].
  cbn [rbind] in H.
  destruct (map_result normalize_language langs) as [langs'|]; [|discriminate H].
  cbn [rbind] in H.
  destruct (array_of (obj_get r "styles")) as [entries|]; [|discriminate H].
  cbn [rbind] in H.
  destruct (map_result normalize_style entries) as [entries'|]; [|discriminate H].
  cbn [rbind] in H.
  destruct (upper_or_undefined (obj_get r "pitch")) as [pitch|]; [|discriminate H].
  cbn [rbind] in H.
  destruct (upper_or_undefined (obj_get r "timing")) as [timing|]; [|discriminate H].
  cbn [rbind] in H. injection H as <-.
  rewrite !obj_get_define. cbn [String.eqb Ascii.eqb Bool.eqb].
  split; [eexists; split; [reflexivity | apply toLowerCase_idempotent]|].
  assert (Hok : phoneset_issues (VString (toLowerCase language))
                  match Map_get PHONESET_BY_LANGUAGE (toLowerCase language) with
                  | Some expected => VString expected
                  | None => obj_get r "phoneset"
                  end = []).
  { apply phoneset_issues_ok. unfold phoneset_ok, expected_phoneset.
    rewrite toLowerCase_idempotent.
    destruct (Map_get PHONESET_BY_LANGUAGE (toLowerCase language)) as [expected|] eqn:Em;
      [|reflexivity].
    rewrite (phoneset_lower _ _ Em). apply String.eqb_refl. }
  intros [es ws].
  pose proof (validatePhoneset_appends (VString (toLowerCase language))
                match Map_get PHONESET_BY_LANGUAGE (toLowerCase language) with
                | Some expected => VString expected
                | None => obj_get r "phoneset"
                end {| errors := es; warnings := ws |}) as Ha.
  rewrite Hok in Ha. cbn [errors warnings] in Ha. rewrite !app_nil_r in Ha. exact Ha.
Qed.

Lemma normalizeNofsConfig_phoneset_witness :
  (exists language,
      obj_get [("language", VString "english"); ("phoneset", VString "arpabet");
               ("support_languages", VArray []); ("styles", VArray []);
               ("pitch", VUndefined); ("timing", VUndefined)] "language"
      = VString language
      /\ toLowerCase language = language)
  /\ forall st,
       validatePhoneset
         (obj_get [("language", VString "english"); ("phoneset", VString "arpabet");
                   ("support_languages", VArray []); ("styles", VArray []);
                   ("pitch", VUndefined); ("timing", VUndefined)] "language")
         (obj_get [("language", VString "english"); ("phoneset", VString "arpabet");
                   ("support_languages", VArray []); ("styles", VArray []);
                   ("pitch", VUndefined); ("timing", VUndefined)] "phoneset") st
       = Ok (tt, st).
Proof.
  apply (normalizeNofsConfig_phoneset
           (VObject [("language", VString "English"); ("phoneset", VString "xsampa");
                     ("support_languages", VArray []); ("styles", VArray [])])).
  vm_compute. reflexivity.
Defined.

(** ** The callers of the codec and of the mixer *)

(** A [Float32Array] passes from the view of its elements as numbers to
    their bit patterns by [float32_bits], and back by [float32_of_bits].
    The numbers of this development have one NaN, whose pattern is the
    quiet NaN [0x7FC00000]: where an engine keeps another payload in a NaN
    that it computes with, the patterns differ in those bits.  What is
    stated through [patterns_of] is about lengths, formats and numbers,
    never about the payload of a NaN. *)
Definition patterns_of (vec : Float32Array) : Float32Bits := map float32_bits vec.
Definition numbers_of (bits : Float32Bits) : Float32Array := map float32_of_bits bits.

Lemma patterns_of_range (vec : list float) :
  Forall (fun w => 0 <= w < 2 ^ 32) (patterns_of vec).
Proof.
  unfold patterns_of. apply Forall_forall. intros w Hw.
  apply list_elem_of_In, in_map_iff in Hw as (x & <- & _). apply float32_bits_range.
Qed.

(** The number that a pattern stands for is the same before and after its
    passage through a Number. *)
Lemma float32_of_bits_through_Number (w : Z) :
  float32_of_bits (through_Number w) = float32_of_bits w.
Proof.
  unfold through_Number. destruct (is_signalling_nan w) eqn:E; [|reflexivity].
  unfold is_signalling_nan, is_nan_bits in E.
  apply andb_prop in E as [E Hq]. apply andb_prop in E as [He Hm].
  apply Z.eqb_eq in He. apply negb_true_iff, Z.eqb_neq in Hm. apply Z.ltb_lt in Hq.
  assert (He' : ((w + 0x400000) / 0x800000) mod 256 = 255)
    by (Z.div_mod_to_equations; lia).
  assert (Hm' : (w + 0x400000) mod 0x800000 <> 0)
    by (Z.div_mod_to_equations; lia).
  unfold float32_of_bits. cbv zeta. rewrite He, He'. cbn [Z.eqb Pos.eqb].
  apply Z.eqb_neq in Hm, Hm'. rewrite Hm, Hm'. reflexivity.
Qed.

(** X23. For every vector of 32 numbers, whatever they are, [vec32ToHex]
    returns a text from which [hexToVec32] reads the same vector: each
    component comes back as the number rounded to binary32, which is what
    the [Float32Array] held. *)
Theorem hexToVec32_vec32ToHex_numbers (vec : list float) :
  length vec = 32%nat ->
  exists hex bits,
    vec32ToHex (patterns_of vec) = Ok hex
    /\ hexToVec32 hex = Ok bits
    /\ numbers_of bits = map fround vec.
Proof.
  intros Hlen.
  assert (Hl : length (patterns_of vec) = 32%nat)
    by (unfold patterns_of; rewrite length_map; exact Hlen).
  eexists _, _. split; [apply vec32ToHex_bytes; exact Hl|].
  split.
  - apply hexToVec32_words; [rewrite length_map; exact Hl|].
    apply through_Number_all_range, patterns_of_range.
  - unfold numbers_of, patterns_of. rewrite !map_map. apply map_ext. intros x.
    rewrite !float32_of_bits_through_Number. reflexivity.
Qed.

Lemma hexToVec32_vec32ToHex_numbers_witness :
  exists hex bits,
    vec32ToHex (patterns_of (replicate 32 one_tenth)) = Ok hex
    /\ hexToVec32 hex = Ok bits
    /\ numbers_of bits = map fround (replicate 32 one_tenth).
Proof. apply (hexToVec32_vec32ToHex_numbers (replicate 32 one_tenth)). reflexivity. Defined.

Lemma hexToVec32_domain_parts (hex : string) :
  HEX_RE_256 hex = true -> exists bits, hexToVec32 hex = Ok bits /\ length bits = 32%nat.
Proof.
  intros H. eexists. split; [apply hexToVec32_closed; exact H|].
  unfold hex_words. rewrite !length_map, length_seq. reflexivity.
Qed.

(** *** Setting the magnitude of the data under the cursor
    ([setMagnitudeAtCursor], [src/extension.ts]) *)

Lemma setMagnitude_length (vec : list float) (t : float) :
  length (setMagnitude vec t) = length vec.
Proof.
  unfold setMagnitude. destruct (l2Magnitude vec =? 0)%float.
  - apply length_replicate.
  - rewrite scale_loop_closed. apply length_map.
Qed.

(** The text that replaces the 256 digits [hex] of the line: the digits of
    the vector that [setMagnitude] makes of the vector of [hex]. *)
Definition setMagnitudeAtCursor_nextHex (hex : string) (target : number) : result string :=
  bits <-- hexToVec32 hex ;;
  let vec := numbers_of bits in
  let next := setMagnitude vec target in
  vec32ToHex (patterns_of next).

(** X24. On the 256 hexadecimal digits that its pattern finds on the line,
    [setMagnitudeAtCursor] never meets an error of the codec, whatever
    the target: the decoding returns, the vector of the new magnitude has
    32 components, and the text that replaces the digits is again 256
    hexadecimal digits. *)
Theorem setMagnitudeAtCursor_keeps_format (hex : string) (target : float) :
  HEX_RE_256 hex = true ->
  exists nextHex,
    setMagnitudeAtCursor_nextHex hex target = Ok nextHex
    /\ HEX_RE_256 nextHex = true
    /\ String.length nextHex = String.length hex.
Proof.
  intros H. unfold setMagnitudeAtCursor_nextHex.
  destruct (hexToVec32_domain_parts hex H) as (bits & E & Hbits).
  rewrite E. cbn [rbind].
  assert (Hl : length (patterns_of (setMagnitude (numbers_of bits) target)) = 32%nat).
  { unfold patterns_of, numbers_of. rewrite length_map, setMagnitude_length, length_map.
    exact Hbits. }
  destruct (vec32ToHex_re _ Hl) as (nextHex & E' & Hre & _).
  exists nextHex. split; [exact E'|]. split; [exact Hre|].
  unfold HEX_RE_256, hex_re_test in H, Hre.
  apply andb_prop in H as [H _]. apply andb_prop in Hre as [Hre _].
  apply Nat.eqb_eq in H, Hre. congruence.
Qed.

Lemma setMagnitudeAtCursor_keeps_format_witness :
  exists nextHex,
    setMagnitudeAtCursor_nextHex (str (replicate 256 "3"%char)) 2%float = Ok nextHex
    /\ HEX_RE_256 nextHex = true
    /\ String.length nextHex = String.length (str (replicate 256 "3"%char)).
Proof.
  apply (setMagnitudeAtCursor_keeps_format (str (replicate 256 "3"%char)) 2%float).
  reflexivity.
Defined.

(** *** The output of the mixer ([computeOutputVector],
    [src/webview/mixer/index.ts]) *)

(** A channel of a mixer tab: the fields of [MixerChannel] that the mixer
    reads. *)
Record MixerChannel : Type := {
  channel_id : string;
  channel_name : string;
  channel_hex : string;
  channel_weight : number
}.

Record MixerTab : Type := {
  tab_id : string;
  busPercent : number;
  channels : list MixerChannel
}.

(** One turn of the loop over the channels: a channel whose text decodes
    gives its vector and its weight, any other gives an error message. *)
Definition collect_channel (channel : MixerChannel)
  (st : list Float32Array * list number * list string)
  : list Float32Array * list number * list string :=
  let '(vectors, weights, errors) := st in
  match hexToVec32 (channel_hex channel) with
  | Ok bits =>
      (vectors ++ [numbers_of bits], weights ++ [(channel_weight channel / 100)%float],
       errors)
  | Throw _ =>
      let name :=
        if String.eqb (channel_name channel) "" then "channel"%string
        else channel_name channel in
      (vectors, weights, errors ++ ["Invalid hex for " +:+ name +:+ "."])
  end.

(** [computeOutputVector]: the vector, and the messages that are shown
    (joined by spaces) when there is one. *)
Definition computeOutputVector (tab : MixerTab)
  : result (Float32Array * list string) :=
  let '(vectors, weights, errors) :=
    fold_left (fun st channel => collect_channel channel st) (channels tab) ([], [], []) in
  mix <-- mixVectors vectors weights ;;
  let vector := applyBus (vector mix) (busPercent tab) in
  if (sumAbs mix =? 0)%float then
    Ok (new_Float32Array 32, errors ++ ["Sum of |w| is zero."%string])
  else Ok (vector, errors).

Lemma collect_channels_lengths (cs : list MixerChannel) :
  forall vectors weights errors,
    length vectors = length weights ->
    let '(vectors', weights', errors') :=
      fold_left (fun st channel => collect_channel channel st) cs
        (vectors, weights, errors) in
    length vectors' = length weights'
    /\ (errors' = [] -> errors = []
                        /\ Forall (fun c => HEX_RE_256 (channel_hex c) = true) cs).
Proof.
  induction cs as [|c cs IH]; intros vectors weights errors Hlen.
  - cbn [fold_left]. split; [exact Hlen | intros ->; split; [reflexivity | constructor]].
  - cbn [fold_left]. unfold collect_channel at 2.
    destruct (HEX_RE_256 (channel_hex c)) eqn:Ere.
    + rewrite (hexToVec32_closed _ Ere).
      specialize (IH (vectors ++ [numbers_of (map through_Number
                                                (hex_words (channel_hex c)))])
                     (weights ++ [(channel_weight c / 100)%float]) errors
                     ltac:(rewrite !length_app, Hlen; reflexivity)).
      destruct (fold_left _ cs _) as [[vectors' weights'] errors'].
      destruct IH as [IH1 IH2]. split; [exact IH1|].
      intros He. destruct (IH2 He) as [He1 He2]. split; [exact He1|].
      constructor; assumption.
    + unfold hexToVec32. rewrite Ere. cbn [negb].
      specialize (IH vectors weights
                     (errors ++ ["Invalid hex for "
                                 +:+ (if String.eqb (channel_name c) "" then "channel"%string
                                      else channel_name c) +:+ "."]) Hlen).
      destruct (fold_left _ cs _) as [[vectors' weights'] errors'].
      destruct IH as [IH1 IH2]. split; [exact IH1|].
      intros He. destruct (IH2 He) as [He1 _].
      apply app_eq_nil in He1 as [_ He1]. discriminate He1.
Qed.

Lemma applyBus_length (vec : list float) (busPercent : float) :
  length (applyBus vec busPercent) = length vec.
Proof. unfold applyBus. rewrite scale_loop_closed. apply length_map. Qed.

(** X25. [computeOutputVector] never throws, for any tab: the vectors and
    the weights that it hands to [mixVectors] have the same number of
    elements, whatever channels fail to decode.  The vector that it
    returns has 32 components, so [vec32ToHex] accepts it, and no message
    is shown only when the text of every channel decodes. *)
Theorem computeOutputVector_returns (tab : MixerTab) :
  exists vector errors,
    computeOutputVector tab = Ok (vector, errors)
    /\ length vector = 32%nat
    /\ (exists hex, vec32ToHex (patterns_of vector) = Ok hex)
    /\ (errors = [] -> Forall (fun c => HEX_RE_256 (channel_hex c) = true) (channels tab)).
Proof.
  unfold computeOutputVector.
  pose proof (collect_channels_lengths (channels tab) [] [] [] eq_refl) as H.
  destruct (fold_left _ (channels tab) _) as [[vectors weights] errors].
  destruct H as [Hlen Herr].
  rewrite (mixVectors_closed vectors weights Hlen). cbn [rbind sumAbs vector].
  assert (Hshape : forall v : list float, length v = 32%nat ->
            exists hex, vec32ToHex (patterns_of v) = Ok hex).
  { intros v Hv. eexists. apply vec32ToHex_bytes. unfold patterns_of.
    rewrite length_map. exact Hv. }
  destruct (sum_abs weights =? 0)%float.
  - eexists _, _. split; [reflexivity|].
    split; [apply length_replicate|]. split; [apply Hshape, length_replicate|].
    intros He. apply app_eq_nil in He as [_ He]. discriminate He.
  - eexists _, _. split; [reflexivity|].
    assert (Hv : length (applyBus
                   (map (fun j => fround (weighted_sum j vectors weights / sum_abs weights)%float)
                      (seq 0 32)) (busPercent tab)) = 32%nat).
    { rewrite applyBus_length, length_map, length_seq. reflexivity. }
    split; [exact Hv|]. split; [apply Hshape, Hv|].
    intros He. exact (proj2 (Herr He)).
Qed.

(** ** The channel editor ([src/webview/channels/index.ts]) *)

(** The characters that [\s] matches and the line terminators that [.]
    does not match, among the ASCII characters. *)
Definition is_white_space (c : ascii) : bool :=
  let n := nat_of_ascii c in (((9 <=? n) && (n <=? 13)) || (n =? 32))%nat.

Definition is_line_terminator (c : ascii) : bool :=
  let n := nat_of_ascii c in ((n =? 10) || (n =? 13))%nat.

(** [s.replace(/\s+/g, "")] on ASCII text: the six ASCII white-space
    characters are removed.  [\s] also matches white space outside ASCII
    (the no-break space and others): a statement about an arbitrary text
    assumes [is_ascii_text]. *)
Definition remove_white_space (s : string) : string :=
  str (List.filter (fun c => negb (is_white_space c)) (chars s)).

Definition HEX_256_RE : string -> bool := hex_re_test 256.

Definition normalizeHex (value : string) : option string :=
  let cleaned := remove_white_space value in
  if negb (HEX_256_RE cleaned) then None else Some (toUpperCase cleaned).

(** [s.match(/.{1,2}/g) ?? []]: the text cut into pieces of two
    characters, a piece ending before a line terminator, which belongs to
    no piece. *)
Fixpoint match_pairs (l : list ascii) : list (list ascii) :=
  match l with
  | [] => []
  | a :: rest =>
      if is_line_terminator a then match_pairs rest
      else
        match rest with
        | [] => [[a]]
        | b :: rest' =>
            if is_line_terminator b then [a] :: match_pairs rest'
            else [a; b] :: match_pairs rest'
        end
  end.

Definition formatHex (hex : string) : string :=
  join " " (map str (match_pairs (chars hex))).

Definition zeros32 : list number := replicate 32 0%float.

Definition toNumbers (hex : string) : list number :=
  match normalizeHex hex with
  | None => zeros32
  | Some cleaned =>
      if String.eqb cleaned "" then zeros32
      else
        match hexToVec32 cleaned with
        | Ok bits => numbers_of bits
        | Throw _ => zeros32
        end
  end.

Example formatHex_test : formatHex "0a1B2" = "0a 1B 2"%string.
Proof. reflexivity. Qed.

Lemma is_hex_not_space (c : ascii) :
  is_hex_char c = true -> is_white_space c = false /\ is_line_terminator c = false.
Proof.
  intros H.
  pose proof (forall_ascii
                (fun c => negb (is_hex_char c)
                          || (negb (is_white_space c) && negb (is_line_terminator c)))
                ltac:(vm_compute; reflexivity) c) as Hc.
  cbv beta in Hc. rewrite H in Hc. cbn [negb orb] in Hc.
  apply andb_prop in Hc as [H1 H2].
  apply negb_true_iff in H1, H2. auto.
Qed.

Lemma match_pairs_hex (n : nat) :
  forall l,
    (length l <= n)%nat -> forallb is_hex_char l = true ->
    concat (match_pairs l) = l
    /\ Forall (fun p => p <> [] /\ forallb is_hex_char p = true) (match_pairs l).
Proof.
  induction n as [|n IH]; intros l Hl Hh.
  - destruct l; [split; [reflexivity | constructor] | simpl in Hl; lia].
  - destruct l as [|a [|b rest]]; [split; [reflexivity | constructor]| |].
    + cbn [forallb] in Hh. apply andb_prop in Hh as [Ha _].
      cbn [match_pairs]. rewrite (proj2 (is_hex_not_space a Ha)).
      split; [reflexivity|]. repeat constructor; [discriminate|].
      cbn [forallb]. rewrite Ha. reflexivity.
    + cbn [forallb] in Hh. apply andb_prop in Hh as [Ha Hh]. apply andb_prop in Hh as [Hb Hh].
      cbn [match_pairs].
      rewrite (proj2 (is_hex_not_space a Ha)), (proj2 (is_hex_not_space b Hb)).
      destruct (IH rest ltac:(simpl in Hl; lia) Hh) as [IH1 IH2].
      split; [cbn [concat app]; rewrite IH1; reflexivity|].
      constructor; [|exact IH2]. split; [discriminate|].
      cbn [forallb]. rewrite Ha, Hb. reflexivity.
Qed.

Lemma filter_hex (l : list ascii) :
  forallb is_hex_char l = true ->
  List.filter (fun c => negb (is_white_space c)) l = l.
Proof.
  induction l as [|c l IH]; intros H; [reflexivity|].
  cbn [forallb] in H. apply andb_prop in H as [Hc H].
  cbn [List.filter]. rewrite (proj1 (is_hex_not_space c Hc)). cbn [negb].
  rewrite (IH H). reflexivity.
Qed.

Lemma filter_join (ps : list (list ascii)) :
  Forall (fun p => p <> [] /\ forallb is_hex_char p = true) ps ->
  List.filter (fun c => negb (is_white_space c)) (chars (join " " (map str ps)))
  = concat ps.
Proof.
  induction 1 as [|p ps [Hne Hp] Hps IH]; [reflexivity|].
  cbn [map join concat]. destruct ps as [|q ps].
  - cbn [map concat]. rewrite chars_str, app_nil_r. apply filter_hex. exact Hp.
  - cbn [map] in *. rewrite !chars_app, !List.filter_app, chars_str, (filter_hex p Hp).
    f_equal. cbn [chars list_ascii_of_string List.filter is_white_space].
    exact IH.
Qed.

Lemma remove_white_space_formatHex (hex : string) :
  forallb is_hex_char (chars hex) = true -> remove_white_space (formatHex hex) = hex.
Proof.
  intros H. unfold remove_white_space, formatHex.
  destruct (match_pairs_hex (length (chars hex)) (chars hex) ltac:(lia) H) as [Hc Hp].
  rewrite (filter_join _ Hp), Hc. apply str_chars.
Qed.

(** X26. What the editor displays of the data of a channel, it reads back
    unchanged: for 256 hexadecimal digits [hex], [normalizeHex] of the
    text [formatHex hex] (the digits in pairs separated by spaces) is
    [hex] in upper case; and [normalizeHex] changes nothing in a text that
    it has returned. *)
Theorem normalizeHex_formatHex (hex : string) :
  HEX_256_RE hex = true ->
  normalizeHex (formatHex hex) = Some (toUpperCase hex)
  /\ normalizeHex (toUpperCase hex) = Some (toUpperCase hex).
Proof.
  intros H.
  assert (Hh : forallb is_hex_char (chars hex) = true).
  { unfold HEX_256_RE, hex_re_test in H. apply andb_prop in H as [_ H]. exact H. }
  assert (Hu : HEX_256_RE (toUpperCase hex) = true).
  { unfold HEX_256_RE, toUpperCase. rewrite (hex_re_test_map upper_char 256 hex hex_value_upper).
    exact H. }
  split.
  - unfold normalizeHex. rewrite (remove_white_space_formatHex hex Hh), H. reflexivity.
  - unfold normalizeHex.
    assert (Hr : remove_white_space (toUpperCase hex) = toUpperCase hex).
    { unfold remove_white_space. rewrite filter_hex; [apply str_chars|].
      unfold HEX_256_RE, hex_re_test in Hu. apply andb_prop in Hu as [_ Hu]. exact Hu. }
    rewrite Hr, Hu, toUpperCase_idempotent. reflexivity.
Qed.

Lemma normalizeHex_formatHex_witness :
  normalizeHex (formatHex (str (replicate 256 "b"%char)))
  = Some (toUpperCase (str (replicate 256 "b"%char)))
  /\ normalizeHex (toUpperCase (str (replicate 256 "b"%char)))
     = Some (toUpperCase (str (replicate 256 "b"%char))).
Proof. apply (normalizeHex_formatHex (str (replicate 256 "b"%char))). reflexivity. Defined.

(** X27. On ASCII text [toNumbers] returns 32 numbers, and when
    [normalizeHex] accepts the text they are the numbers that [hexToVec32]
    reads from the normalized text, which it never refuses: the zeros of
    the [catch] stand for no text at all. *)
Theorem toNumbers_decodes (hex : string) :
  is_ascii_text hex = true ->
  length (toNumbers hex) = 32%nat
  /\ forall cleaned,
       normalizeHex hex = Some cleaned ->
       exists bits, hexToVec32 cleaned = Ok bits /\ toNumbers hex = numbers_of bits.
Proof.
  intros _.
  unfold toNumbers. destruct (normalizeHex hex) as [cleaned|] eqn:E.
  - unfold normalizeHex in E.
    destruct (HEX_256_RE (remove_white_space hex)) eqn:Ere; [|discriminate E].
    injection E as <-.
    assert (Hu : HEX_RE_256 (toUpperCase (remove_white_space hex)) = true).
    { unfold HEX_RE_256, toUpperCase.
      rewrite (hex_re_test_map upper_char 256 _ hex_value_upper). exact Ere. }
    destruct (hexToVec32_domain_parts _ Hu) as (bits & Eb & Hlen).
    assert (Hne : String.eqb (toUpperCase (remove_white_space hex)) "" = false).
    { apply String.eqb_neq. intros Hempty. rewrite Hempty in Hu. discriminate Hu. }
    rewrite Hne, Eb. split.
    + unfold numbers_of. rewrite length_map. exact Hlen.
    + intros cleaned [= <-]. exists bits. split; [exact Eb | reflexivity].
  - split; [apply length_replicate|]. intros cleaned Hc. discriminate Hc.
Qed.

(** A text of 256 digits in pairs, with spaces, tabs and line breaks
    between them, is accepted and decoded. *)
Definition spaced_hex : string :=
  str (concat (replicate 32
                 (chars "3f 80" ++ ["010"%char; "009"%char] ++ chars "00 00  "))).

Lemma toNumbers_decodes_witness :
  length (toNumbers spaced_hex) = 32%nat
  /\ exists bits,
       hexToVec32 (str (concat (replicate 32 (chars "3F800000")))) = Ok bits
       /\ toNumbers spaced_hex = numbers_of bits.
Proof.
  destruct (toNumbers_decodes spaced_hex) as [Hlen Hdec]; [reflexivity|].
  split; [exact Hlen|].
  apply (Hdec (str (concat (replicate 32 (chars "3F800000"))))).
  vm_compute. reflexivity.
Defined.

(** ** The text of a document before it is encoded ([nofs/text.ts]) *)

Definition next_is (c : ascii) (rest : list ascii) : bool :=
  match rest with
  | [] => false
  | next :: _ => Ascii.eqb next c
  end.

(** The three characters that open a string for the two loops: the double
    quote, the single quote and the backquote. *)
Definition is_quote (ch : ascii) : bool :=
  Ascii.eqb ch "034" || Ascii.eqb ch "'" || Ascii.eqb ch "`".

(** The loop of [stripJsoncComments] on the characters from index [i] on,
    its variables as arguments; [i += 1] in the body drops the next
    character. *)
Fixpoint strip_loop (out : string) (inString : bool) (quote : string)
    (escape inLine inBlock : bool) (l : list ascii) {struct l} : string :=
  match l with
  | [] => out
  | ch :: rest =>
      if inLine then
        if Ascii.eqb ch "010" then
          strip_loop (out +:+ String ch "") inString quote escape false inBlock rest
        else strip_loop out inString quote escape inLine inBlock rest
      else if inBlock then
        if Ascii.eqb ch "*" && next_is "/" rest then
          match rest with
          | [] => out
          | _ :: rest' => strip_loop out inString quote escape inLine false rest'
          end
        else strip_loop out inString quote escape inLine inBlock rest
      else if inString then
        let out := out +:+ String ch "" in
        if escape then strip_loop out inString quote false inLine inBlock rest
        else if Ascii.eqb ch "092" then strip_loop out inString quote true inLine inBlock rest
        else if String.eqb (String ch "") quote then
          strip_loop out false "" escape inLine inBlock rest
        else strip_loop out inString quote escape inLine inBlock rest
      else if Ascii.eqb ch "/" && next_is "/" rest then
        match rest with
        | [] => out
        | _ :: rest' => strip_loop out inString quote escape true inBlock rest'
        end
      else if Ascii.eqb ch "/" && next_is "*" rest then
        match rest with
        | [] => out
        | _ :: rest' => strip_loop out inString quote escape inLine true rest'
        end
      else if is_quote ch then
        strip_loop (out +:+ String ch "") true (String ch "") escape inLine inBlock rest
      else strip_loop (out +:+ String ch "") inString quote escape inLine inBlock rest
  end.

Definition stripJsoncComments (input : string) : string :=
  strip_loop "" false "" false false false (chars input).

(** [s.trim()] on ASCII text: the six ASCII white-space characters are
    removed at both ends ([trim] also removes white space outside
    ASCII). *)
Fixpoint trim_start (l : list ascii) : list ascii :=
  match l with
  | [] => []
  | c :: rest => if is_white_space c then trim_start rest else l
  end.

Definition trim (s : string) : string :=
  str (rev (trim_start (rev (trim_start (chars s))))).

(** The loop of [extractJsonObject] at index [i], [l] the characters of
    [text] from [i] on. *)
Fixpoint extract_loop (text : string) (inString : bool) (quote : string)
    (escape : bool) (depth start : Z) (i : nat) (l : list ascii) {struct l} : string :=
  match l with
  | [] => text
  | ch :: rest =>
      if inString then
        if escape then extract_loop text inString quote false depth start (S i) rest
        else if Ascii.eqb ch "092" then
          extract_loop text inString quote true depth start (S i) rest
        else if String.eqb (String ch "") quote then
          extract_loop text false quote escape depth start (S i) rest
        else extract_loop text inString quote escape depth start (S i) rest
      else if is_quote ch then
        extract_loop text true (String ch "") escape depth start (S i) rest
      else if Ascii.eqb ch "{" then
        let start := if depth =? 0 then Z.of_nat i else start in
        extract_loop text inString quote escape (depth + 1) start (S i) rest
      else if Ascii.eqb ch "}" then
        if depth >? 0 then
          let depth := depth - 1 in
          if (depth =? 0) && (start >=? 0) then slice text (Z.to_nat start) (S i)
          else extract_loop text inString quote escape depth start (S i) rest
        else extract_loop text inString quote escape depth start (S i) rest
      else extract_loop text inString quote escape depth start (S i) rest
  end.

Definition extractJsonObject (input : string) : string :=
  let text := trim input in
  extract_loop text false "" false 0 (-1) 0 (chars text).

Definition prepareNofsJsonText (input : string) : string :=
  let stripped := stripJsoncComments input in
  extractJsonObject stripped.

Example prepareNofsJsonText_test :
  prepareNofsJsonText "/* voice */ { 'a': '}/*' /* x */ } tail" = "{ 'a': '}/*'  }"%string.
Proof. reflexivity. Qed.

Lemma append_char (a : string) (c : ascii) (b : string) :
  (a +:+ String c "") +:+ b = a +:+ String c b.
Proof.
  rewrite <- (str_chars ((a +:+ String c "") +:+ b)), <- (str_chars (a +:+ String c b)).
  rewrite !chars_app, <- app_assoc. reflexivity.
Qed.

Lemma append_empty (a : string) : a +:+ "" = a.
Proof.
  rewrite <- (str_chars (a +:+ "")), chars_app, app_nil_r. apply str_chars.
Qed.

Lemma strip_loop_removes (n : nat) :
  forall l out inString quote escape inLine inBlock,
    (length l <= n)%nat ->
    exists kept,
      strip_loop out inString quote escape inLine inBlock l = out +:+ str kept
      /\ sublist kept l.
Proof.
  induction n as [|n IH]; intros l out inString quote escape inLine inBlock Hl.
  - destruct l; [|simpl in Hl; lia]. exists []. split; [symmetry; apply append_empty | constructor].
  - destruct l as [|ch rest].
    { exists []. split; [symmetry; apply append_empty | constructor]. }
    assert (Hrest : (length rest <= n)%nat) by (simpl in Hl; lia).
    assert (Hdrop : forall o a b c d e,
               exists kept, strip_loop o a b c d e rest = o +:+ str kept
                            /\ sublist kept (ch :: rest)).
    { intros o a b c d e. destruct (IH rest o a b c d e Hrest) as (kept & E & Hs).
      exists kept. split; [exact E | apply sublist_cons; exact Hs]. }
    assert (Hkeep : forall a b c d e,
               exists kept, strip_loop (out +:+ String ch "") a b c d e rest = out +:+ str kept
                            /\ sublist kept (ch :: rest)).
    { intros a b c d e.
      destruct (IH rest (out +:+ String ch "") a b c d e Hrest) as (kept & E & Hs).
      exists (ch :: kept). split; [rewrite E; apply append_char | apply sublist_skip; exact Hs]. }
    assert (Hskip : forall a b c d e,
               exists kept,
                 match rest with
                 | [] => out
                 | _ :: rest' => strip_loop out a b c d e rest'
                 end = out +:+ str kept
                 /\ sublist kept (ch :: rest)).
    { intros a b c d e. destruct rest as [|x rest'].
      - exists []. split; [symmetry; apply append_empty | apply sublist_nil_l].
      - destruct (IH rest' out a b c d e ltac:(simpl in Hrest; lia)) as (kept & E & Hs).
        exists kept. split; [exact E | do 2 apply sublist_cons; exact Hs]. }
    cbn [strip_loop].
    repeat match goal with
           | |- context [if ?b then _ else _] => destruct b
           end;
      first [apply Hdrop | apply Hkeep | apply Hskip].
Qed.

Lemma strip_loop_no_slash (l : list ascii) :
  forall out inString quote escape,
    forallb (fun c => negb (Ascii.eqb c "/")) l = true ->
    strip_loop out inString quote escape false false l = out +:+ str l.
Proof.
  induction l as [|ch rest IH]; intros out inString quote escape H.
  - symmetry. apply append_empty.
  - cbn [forallb] in H. apply andb_prop in H as [Hc H].
    apply negb_true_iff in Hc.
    cbn [strip_loop]. rewrite Hc. cbn [andb].
    repeat match goal with
           | |- context [if ?b then _ else _] => destruct b
           end;
      rewrite (IH _ _ _ _ H); apply append_char.
Qed.

(** X28. [stripJsoncComments] only removes characters: the characters of
    its result are characters of the input in the order of the input, and a
    text that holds no slash is returned as it is. *)
Theorem stripJsoncComments_only_removes (input : string) :
  sublist (chars (stripJsoncComments input)) (chars input)
  /\ (forallb (fun c => negb (Ascii.eqb c "/")) (chars input) = true ->
      stripJsoncComments input = input).
Proof.
  unfold stripJsoncComments. split.
  - destruct (strip_loop_removes (length (chars input)) (chars input)
                "" false "" false false false ltac:(lia)) as (kept & E & Hs).
    rewrite E. change ("" +:+ str kept) with (str kept). rewrite chars_str. exact Hs.
  - intros H. rewrite (strip_loop_no_slash _ _ _ _ _ H).
    change ("" +:+ str (chars input)) with (str (chars input)). apply str_chars.
Qed.

Lemma stripJsoncComments_only_removes_witness :
  sublist (chars (stripJsoncComments "{ 'a': 1 }")) (chars "{ 'a': 1 }")
  /\ stripJsoncComments "{ 'a': 1 }" = "{ 'a': 1 }"%string.
Proof.
  destruct (stripJsoncComments_only_removes "{ 'a': 1 }") as [H1 H2].
  split; [exact H1 | apply H2; reflexivity].
Defined.

Lemma take_drop_ends {A : Type} (cs : list A) (s i : nat) (a b : A) :
  (s < i)%nat -> cs !! s = Some a -> cs !! i = Some b ->
  take (S i - s) (drop s cs) = a :: take (i - S s) (drop (S s) cs) ++ [b]
  /\ cs = take s cs ++ (a :: take (i - S s) (drop (S s) cs) ++ [b]) ++ drop (S i) cs.
Proof.
  intros Hsi Ha Hb.
  assert (E1 : drop s cs = a :: drop (S s) cs) by (apply drop_S; exact Ha).
  set (X := drop (S s) cs) in *.
  assert (Hx : X !! (i - S s)%nat = Some b).
  { unfold X. rewrite lookup_drop. replace (S s + (i - S s))%nat with i by lia. exact Hb. }
  assert (E2 : take (S (i - S s)) X = take (i - S s) X ++ [b]) by (apply take_S_r; exact Hx).
  assert (E3 : drop (S i) cs = drop (S (i - S s)) X).
  { unfold X. rewrite drop_drop. f_equal. lia. }
  assert (E4 : take (S i - s) (drop s cs) = a :: take (i - S s) X ++ [b]).
  { rewrite E1. replace (S i - s)%nat with (S (S (i - S s))) by lia.
    rewrite firstn_cons, E2. reflexivity. }
  split; [exact E4|].
  rewrite E3, <- E2. change (a :: take (S (i - S s)) X) with ([a] ++ take (S (i - S s)) X).
  rewrite <- !app_assoc, take_drop. cbn [app]. rewrite <- E1, take_drop. reflexivity.
Qed.

Lemma extract_loop_piece (text : string) (l : list ascii) :
  forall inString quote escape depth start i,
    drop i (chars text) = l ->
    0 <= depth ->
    (0 < depth ->
     0 <= start /\ (Z.to_nat start < i)%nat
     /\ chars text !! Z.to_nat start = Some "{"%char) ->
    extract_loop text inString quote escape depth start i l = text
    \/ exists before body after,
         chars text = before ++ ("{"%char :: body ++ ["}"%char]) ++ after
         /\ chars (extract_loop text inString quote escape depth start i l)
            = "{"%char :: body ++ ["}"%char].
Proof.
  induction l as [|ch rest IH]; intros inString quote escape depth start i Hl Hd Hinv.
  - left. reflexivity.
  - assert (Hrest : drop (S i) (chars text) = rest).
    { replace (S i) with (i + 1)%nat by lia. rewrite <- drop_drop, Hl. reflexivity. }
    assert (Hi : chars text !! i = Some ch).
    { replace i with (i + 0)%nat by lia. rewrite <- lookup_drop, Hl. reflexivity. }
    assert (Hnext : forall a b c,
               extract_loop text a b c depth start (S i) rest = text
               \/ exists before body after,
                    chars text = before ++ ("{"%char :: body ++ ["}"%char]) ++ after
                    /\ chars (extract_loop text a b c depth start (S i) rest)
                       = "{"%char :: body ++ ["}"%char]).
    { intros a b c. apply IH; [exact Hrest | exact Hd |].
      intros Hpos. destruct (Hinv Hpos) as (H1 & H2 & H3). repeat split; [exact H1 | lia | exact H3]. }
    cbn [extract_loop].
    destruct inString.
    { repeat match goal with
             | |- context [if ?b then _ else _] => destruct b
             end; apply Hnext. }
    destruct (is_quote ch); [apply Hnext|].
    destruct (Ascii.eqb_spec ch "{") as [->|Hopen].
    { cbv zeta. apply IH; [exact Hrest | lia |]. intros _.
      destruct (Z.eqb_spec depth 0) as [->|Hne].
      - rewrite Nat2Z.id. repeat split; [lia | lia | exact Hi].
      - destruct (Hinv ltac:(lia)) as (H1 & H2 & H3).
        repeat split; [exact H1 | lia | exact H3]. }
    destruct (Ascii.eqb_spec ch "}") as [->|Hclose]; [|apply Hnext].
    destruct (Z.gtb_spec depth 0) as [Hpos|Hle]; [|apply Hnext].
    cbv zeta. destruct (Hinv Hpos) as (H1 & H2 & H3).
    destruct ((depth - 1 =? 0) && (start >=? 0)) eqn:Eret.
    + right. destruct (take_drop_ends (chars text) (Z.to_nat start) i _ _ H2 H3 Hi) as [E1 E2].
      eexists _, _, _. split; [exact E2|].
      unfold slice. rewrite chars_str. exact E1.
    + apply IH; [exact Hrest | lia |]. intros _. repeat split; [exact H1 | lia | exact H3].
Qed.

(** X29. [extractJsonObject] returns a piece of the trimmed input: either
    the whole trimmed input, or a contiguous part of it that begins with an
    opening brace and ends with a closing brace. *)
Theorem extractJsonObject_piece (input : string) :
  extractJsonObject input = trim input
  \/ exists before body after,
       chars (trim input) = before ++ ("{"%char :: body ++ ["}"%char]) ++ after
       /\ chars (extractJsonObject input) = "{"%char :: body ++ ["}"%char].
Proof.
  unfold extractJsonObject. cbv zeta.
  apply extract_loop_piece; [reflexivity | lia | lia].
Qed.
